(** * Rewind: retrieval-and-analytics pipeline

    A shallow embedding of the Riot API client ([services/riot_api.py]), the
    match data processor ([services/data_processor.py]) and the insights
    engine ([services/insights_engine.py]), with the properties of the
    specification stated over it.

    Conventions of the embedding.
    - Python [int] is [Z].  The floats of the record normaliser are IEEE 754
      doubles ([Float.float]): a division rounds its exact quotient to the
      nearest double, ties to even, and [round(x, n)] rounds the exact value
      of [x] to [n] decimals, ties to even, and converts back.  A float
      column of the DataFrame holds the exact values of its doubles, as
      rationals; the statistics pandas computes over the columns (means and
      their rounding) are idealised as exact rational arithmetic.
    - A Python exception is a value of [exn]; code that may raise lives in
      the result type [Res], code that also touches the client's cache or
      the network lives in the state-and-exception monad [M].
    - A [pandas.DataFrame] of processed matches is the list of its rows in
      storage order; after [process_match_history] that order is most
      recent game first. *)

From Stdlib Require Import ZArith QArith Qabs Qround Qpower Lia Lqa Sorted.
From stdpp Require Import base tactics option list strings pretty gmap.

#[local] Open Scope Z_scope.

(** ** Python values and exceptions *)

Module Py.

Inductive exn : Type :=
| ZeroDivisionError
| KeyError (key : string)
| RiotAPIError (msg : string)
| OtherException (kind : string).

(** [OverflowError(msg)], one of the built-in exceptions the analytics do not
    tell apart. *)
Definition OverflowError (msg : string) : exn :=
  OtherException ("OverflowError: " +:+ msg).

(** The outcome of evaluating an expression that may raise. *)
Inductive Res (A : Type) : Type :=
| Ok (a : A)
| Raise (e : exn).
Arguments Ok {A} a.
Arguments Raise {A} e.

Definition res_bind {A B} (r : Res A) (k : A -> Res B) : Res B :=
  match r with
  | Ok a => k a
  | Raise e => Raise e
  end.


(** [a / b] on numbers: true division, which raises on a zero divisor. *)
Definition truediv (a b : Q) : Res Q :=
  if Qeq_bool b 0 then Raise ZeroDivisionError else Ok (a / b)%Q.

Definition Qltb (a b : Q) : bool := negb (Qle_bool b a).

(** Nearest integer, ties to the even neighbour. *)
Definition round_half_even (x : Q) : Z :=
  let f := Qfloor x in
  match (x - inject_Z f ?= 1 # 2)%Q with
  | Lt => f
  | Gt => f + 1
  | Eq => if Z.even f then f else f + 1
  end.

Fixpoint pow10 (ndigits : nat) : positive :=
  match ndigits with
  | O => 1%positive
  | S n => (10 * pow10 n)%positive
  end.

(** [round(x, ndigits)] for [ndigits >= 0]. *)
Definition round (x : Q) (ndigits : nat) : Q :=
  Qred (round_half_even (x * inject_Z (Z.pos (pow10 ndigits))) # pow10 ndigits).

(** A number with at most [ndigits] decimals. *)
Definition decimal (ndigits : nat) (q : Q) : Prop :=
  exists k : Z, (q == k # pow10 ndigits)%Q.

End Py.

Import Py.

(** ** Python floats: IEEE 754 binary64 *)

Module Float.

(** A double.  A finite double other than [-0.0] is given by its exact
    value, a rational in lowest terms. *)
Inductive float : Type :=
| Finite (value : Q)
| NegZero
| Infinity (negative : bool)
| NaN.

(** What a Python function returns when some of its branches return an
    [int] and others a [float]. *)
Inductive number : Type :=
| Integer (n : Z)
| Double (x : float).

Definition pow2 (e : Z) : Q := (2 ^ e)%Q.

(** [floor(log2(|q|))] for [q] other than zero. *)
Definition ilog2 (q : Q) : Z :=
  let l := Z.log2 (Z.abs (Qnum q)) - Z.log2 (Z.pos (Qden q)) in
  if Qle_bool (pow2 l) (Qabs q) then l else l - 1.

(** The exponent of the unit in the last place at [q]: 53 significant bits,
    and no exponent below that of the subnormals, -1074. *)
Definition ulp_exponent (q : Q) : Z := Z.max (ilog2 q - 52) (-1074).

(** The sign bit of a zero result. *)
Definition zero (negative : bool) : float :=
  if negative then NegZero else Finite 0.

(** Round to nearest, ties to even: the double a real [q] is rounded to,
    an infinity from 2^1024 on. *)
Definition nearest (q : Q) : float :=
  let e := ulp_exponent q in
  let m := round_half_even (q / pow2 e) in
  let v := (inject_Z m * pow2 e)%Q in
  if Qle_bool (pow2 1024) (Qabs v) then Infinity (Qltb q 0)
  else if m =? 0 then zero (Qltb q 0)
  else Finite (Qred v).

(** The value of a finite double. *)
Definition value (x : float) : Q :=
  match x with
  | Finite v => v
  | _ => 0%Q
  end.

Definition number_value (n : number) : Q :=
  match n with
  | Integer n => inject_Z n
  | Double x => value x
  end.

(** [x == 0] *)
Definition is_zero (x : float) : bool :=
  match x with
  | Finite v => Qeq_bool v 0
  | NegZero => true
  | _ => false
  end.

(** The sign bit. *)
Definition is_negative (x : float) : bool :=
  match x with
  | Finite v => Qltb v 0
  | NegZero => true
  | Infinity negative => negative
  | NaN => false
  end.

(** [float(n)] for an [int] *)
Definition float_of_int (n : Z) : Res float :=
  match nearest (inject_Z n) with
  | Infinity _ => Raise (OverflowError "int too large to convert to float")
  | x => Ok x
  end.

(** [a / b] for two [int]s: the quotient of the integers, rounded once. *)
Definition int_truediv (a b : Z) : Res float :=
  if b =? 0 then Raise ZeroDivisionError
  else if a =? 0 then Ok (zero (b <? 0))
  else
    match nearest (inject_Z a / inject_Z b) with
    | Infinity _ =>
        Raise (OverflowError "integer division result too large for a float")
    | x => Ok x
    end.

(** [x / y] for two [float]s: only a zero divisor raises; a quotient that
    is too large is an infinity. *)
Definition float_truediv (x y : float) : Res float :=
  if is_zero y then Raise ZeroDivisionError
  else
    Ok match x, y with
       | NaN, _ | _, NaN => NaN
       | Infinity _, Infinity _ => NaN
       | Infinity negative, _ => Infinity (xorb negative (is_negative y))
       | _, Infinity negative => zero (xorb (is_negative x) negative)
       | NegZero, _ => zero (negb (is_negative y))
       | Finite a, _ =>
           if Qeq_bool a 0 then zero (is_negative y)
           else nearest (a / value y)
       end.

(** [round(x, ndigits)] for [ndigits >= 0]: the exact value of [x] is
    rounded to [ndigits] decimals, ties to even, and the decimal is
    converted back to the nearest double; infinities and NaN are returned
    as they are. *)
Definition round (x : float) (ndigits : nat) : float :=
  match x with
  | Finite v =>
      let d := Py.round v ndigits in
      if Qeq_bool d 0 then zero (Qltb v 0) else nearest d
  | _ => x
  end.

End Float.

Declare Scope res_scope.
Delimit Scope res_scope with res.
Notation "'let*' x ':=' r 'in' k" := (res_bind r (fun x => k))
  (at level 10, x name, r at level 100, k at level 200) : res_scope.

(** ** The record normaliser's derived fields (data_processor.py) *)

Module Normalizer.

#[local] Open Scope res_scope.

(** [MatchDataProcessor._calculate_kda] *)
Definition _calculate_kda (kills deaths assists : Z) : Res Float.float :=
  if deaths =? 0 then Float.float_of_int (kills + assists)
  else
    let* quotient := Float.int_truediv (kills + assists) deaths in
    Ok (Float.round quotient 2).

(** [MatchDataProcessor._calculate_cs_per_minute]; in [total_cs / minutes]
    the [int] is converted to a [float] first. *)
Definition _calculate_cs_per_minute (minions jungle duration : Z)
    : Res Float.number :=
  let total_cs := minions + jungle in
  let* minutes := Float.int_truediv duration 60 in
  if Float.is_zero minutes then Ok (Float.Integer 0)
  else
    let* total := Float.float_of_int total_cs in
    let* quotient := Float.float_truediv total minutes in
    Ok (Float.Double (Float.round quotient 2)).

End Normalizer.

(** ** The aggregation engine (data_processor.py) *)

Module Processor.

#[local] Open Scope res_scope.

(** One row of the processed DataFrame: the columns the analytics read.
    [month] is the calendar-month period of [game_datetime]. *)
Record MatchRecord : Type := {
  match_id : string;
  month : Z;
  win : bool;
  kills : Z;
  deaths : Z;
  assists : Z;
  kda : Q;
  total_damage_dealt_to_champions : Z;
  total_damage_taken : Z;
  gold_earned : Z;
  total_minions_killed : Z;
  neutral_minions_killed : Z;
  cs_per_minute : Q;
  vision_score : Z;
  wards_placed : Z;
  control_wards_placed : Z;
  double_kills : Z;
  triple_kills : Z;
  quadra_kills : Z;
  penta_kills : Z;
  game_duration : Z;
}.

(** Rows in storage order: most recent game first. *)
Definition DataFrame : Type := list MatchRecord.

(** [len(df)] *)
Definition len {A} (l : list A) : Z := Z.of_nat (length l).

(** [df.empty] *)
Definition empty (df : DataFrame) : bool :=
  match df with [] => true | _ :: _ => false end.

(** [df[c]] for an integer column and for a float column. *)
Definition icol (c : MatchRecord -> Z) (df : DataFrame) : list Q :=
  map (fun r => inject_Z (c r)) df.
Definition fcol (c : MatchRecord -> Q) (df : DataFrame) : list Q := map c df.

(** [Series.sum()], [Series.mean()], [Series.max()] *)
Definition series_sum (s : list Q) : Q := foldl Qplus 0%Q s.
Definition series_mean (s : list Q) : Q := (series_sum s / inject_Z (len s))%Q.
Definition isum (c : MatchRecord -> Z) (df : DataFrame) : Z :=
  foldl Z.add 0 (map c df).

(** [Series.sum()] of an integer column, which pandas holds as int64: the
    sum wraps around at 64 bits. *)
Definition wrap_int64 (z : Z) : Z := (z + 2 ^ 63) mod 2 ^ 64 - 2 ^ 63.
Definition int64_sum (c : MatchRecord -> Z) (df : DataFrame) : Z :=
  wrap_int64 (isum c df).
Definition imax (c : MatchRecord -> Z) (df : DataFrame) : Z :=
  match map c df with
  | [] => 0
  | x :: xs => foldl Z.max x xs
  end.

(** [df['win'].sum()] *)
Definition win_count (df : DataFrame) : Z :=
  len (filter (fun r => win r = true) df).

Record OverallStats : Type := {
  total_games : Z;
  wins : Z;
  losses : Z;
  win_rate : Q;
  avg_kills : Q;
  avg_deaths : Q;
  avg_assists : Q;
  avg_kda : Q;
  avg_damage_dealt : Q;
  max_damage_dealt : Z;
  avg_damage_taken : Q;
  avg_gold_earned : Q;
  avg_cs : Q;
  avg_cs_per_minute : Q;
  avg_vision_score : Q;
  avg_wards_placed : Q;
  avg_control_wards : Q;
  total_double_kills : Z;
  total_triple_kills : Z;
  total_quadra_kills : Z;
  total_penta_kills : Z;
  avg_game_duration_minutes : Q;
  total_time_played_hours : Q;
}.

(** The expression
    [round(wins / total_games * 100, 2) if total_games > 0 else 0]. *)
Definition win_rate_expr (wins total_games : Z) : Res Q :=
  if 0 <? total_games then
    let* q := truediv (inject_Z wins) (inject_Z total_games) in
    Ok (round (q * 100) 2)
  else Ok 0%Q.

(** [MatchDataProcessor.calculate_overall_stats]; the empty dictionary is
    [None]. *)
Definition calculate_overall_stats (df : DataFrame) : Res (option OverallStats) :=
  if empty df then Ok None
  else
    let total_games := len df in
    let wins := win_count df in
    let losses := total_games - wins in
    let* win_rate := win_rate_expr wins total_games in
    Ok (Some {|
      total_games := total_games;
      wins := wins;
      losses := losses;
      win_rate := win_rate;
      avg_kills := round (series_mean (icol kills df)) 2;
      avg_deaths := round (series_mean (icol deaths df)) 2;
      avg_assists := round (series_mean (icol assists df)) 2;
      avg_kda := round (series_mean (fcol kda df)) 2;
      avg_damage_dealt :=
        round (series_mean (icol total_damage_dealt_to_champions df)) 0;
      max_damage_dealt := imax total_damage_dealt_to_champions df;
      avg_damage_taken := round (series_mean (icol total_damage_taken df)) 0;
      avg_gold_earned := round (series_mean (icol gold_earned df)) 0;
      avg_cs :=
        round (series_mean
                 (icol (fun r => total_minions_killed r + neutral_minions_killed r) df)) 1;
      avg_cs_per_minute := round (series_mean (fcol cs_per_minute df)) 2;
      avg_vision_score := round (series_mean (icol vision_score df)) 1;
      avg_wards_placed := round (series_mean (icol wards_placed df)) 1;
      avg_control_wards := round (series_mean (icol control_wards_placed df)) 1;
      total_double_kills := int64_sum double_kills df;
      total_triple_kills := int64_sum triple_kills df;
      total_quadra_kills := int64_sum quadra_kills df;
      total_penta_kills := int64_sum penta_kills df;
      avg_game_duration_minutes :=
        round (series_mean (icol game_duration df) / 60) 1;
      total_time_played_hours :=
        round (inject_Z (int64_sum game_duration df) / 3600) 1;
    |}).

(** [stats[key]]: a [KeyError] on the empty dictionary. *)
Definition getitem {A} (stats : option OverallStats) (key : string)
    (field : OverallStats -> A) : Res A :=
  match stats with
  | Some s => Ok (field s)
  | None => Raise (KeyError key)
  end.

(** [df.groupby(key)]: the groups in ascending key order, each with its
    rows in storage order. *)
Fixpoint group_insert (k : Z) (r : MatchRecord)
    (groups : list (Z * list MatchRecord)) : list (Z * list MatchRecord) :=
  match groups with
  | [] => [(k, [r])]
  | (k', rs) :: rest =>
      if k <? k' then (k, [r]) :: groups
      else if k =? k' then (k', rs ++ [r]) :: rest
      else (k', rs) :: group_insert k r rest
  end.

Definition groupby (key : MatchRecord -> Z) (df : DataFrame)
    : list (Z * list MatchRecord) :=
  foldl (fun groups r => group_insert (key r) r groups) [] df.

(** One row of the table [get_performance_trends] returns. *)
Record TrendRow : Type := {
  tr_period : Z;
  tr_games : Z;
  tr_win_rate : Q;
  tr_avg_kda : Q;
  tr_avg_damage : Q;
  tr_avg_gold : Q;
  tr_avg_cs_per_min : Q;
  tr_avg_vision_score : Q;
}.

Definition win_mean (rows : list MatchRecord) : Q :=
  series_mean (map (fun r => if win r then 1%Q else 0%Q) rows).

(** [MatchDataProcessor.get_performance_trends(df, 'month')] *)
Definition get_performance_trends (df : DataFrame) : list TrendRow :=
  if empty df then []
  else
    map (fun g : Z * list MatchRecord =>
           let rows := g.2 in
           {| tr_period := g.1;
              tr_games := len rows;
              tr_win_rate := round (round (win_mean rows) 2 * 100) 2;
              tr_avg_kda := round (series_mean (fcol kda rows)) 2;
              tr_avg_damage :=
                round (series_mean (icol total_damage_dealt_to_champions rows)) 2;
              tr_avg_gold := round (series_mean (icol gold_earned rows)) 2;
              tr_avg_cs_per_min := round (series_mean (fcol cs_per_minute rows)) 2;
              tr_avg_vision_score := round (series_mean (icol vision_score rows)) 2;
           |})
        (groupby month df).

Record Weakness : Type := {
  metric : string;
  value : Q;
  severity : string;
  suggestion : string;
}.

(** A dictionary with string keys, in insertion order. *)
Definition Dict (V : Type) : Type := list (string * V).

Fixpoint dict_set {V} (d : Dict V) (k : string) (v : V) : Dict V :=
  match d with
  | [] => [(k, v)]
  | (k', v') :: rest =>
      if String.eqb k k' then (k', v) :: rest else (k', v') :: dict_set rest k v
  end.

Fixpoint dict_get {V} (d : Dict V) (k : string) : option V :=
  match d with
  | [] => None
  | (k', v') :: rest => if String.eqb k k' then Some v' else dict_get rest k
  end.

(** The severity recorded under a key, if any. *)
Definition severity_of (w : Dict Weakness) (key : string) : option string :=
  severity <$> dict_get w key.

(** [MatchDataProcessor.identify_weaknesses] *)
Definition identify_weaknesses (df : DataFrame) : Dict Weakness :=
  if empty df then []
  else
    let weaknesses : Dict Weakness := [] in
    (* Check death rate *)
    let avg_deaths := series_mean (icol deaths df) in
    let weaknesses :=
      if Qltb 6 avg_deaths then
        dict_set weaknesses "high_deaths" {|
          metric := "Average Deaths";
          value := round avg_deaths 2;
          severity := if Qltb 8 avg_deaths then "high" else "medium";
          suggestion := "Focus on positioning and map awareness to reduce deaths";
        |}
      else weaknesses in
    (* Check vision score *)
    let avg_vision := series_mean (icol vision_score df) in
    let weaknesses :=
      if Qltb avg_vision 30 then
        dict_set weaknesses "low_vision" {|
          metric := "Average Vision Score";
          value := round avg_vision 1;
          severity := if Qltb avg_vision 20 then "high" else "medium";
          suggestion := "Buy more control wards and place trinket wards more frequently";
        |}
      else weaknesses in
    (* Check CS *)
    let avg_cs_per_min := series_mean (fcol cs_per_minute df) in
    let weaknesses :=
      if Qltb avg_cs_per_min 5 then
        dict_set weaknesses "low_cs" {|
          metric := "CS per Minute";
          value := round avg_cs_per_min 2;
          severity := "medium";
          suggestion := "Practice last-hitting and wave management in practice tool";
        |}
      else weaknesses in
    (* Check win rate on losses *)
    let losses := filter (fun r => win r = false) df in
    if negb (empty losses) then
      let avg_damage_in_losses :=
        series_mean (icol total_damage_dealt_to_champions losses) in
      let overall_avg_damage :=
        series_mean (icol total_damage_dealt_to_champions df) in
      if Qltb avg_damage_in_losses (overall_avg_damage * (7 # 10)) then
        dict_set weaknesses "low_damage_in_losses" {|
          metric := "Damage in Lost Games";
          value := round avg_damage_in_losses 0;
          severity := "medium";
          suggestion := "Stay more active in teamfights even when behind";
        |}
      else weaknesses
    else weaknesses.

End Processor.

(** ** The insights engine (insights_engine.py) *)

Module Insights.

Import Processor.
#[local] Open Scope res_scope.

Record TrendReport : Type := {
  monthly_trends : list TrendRow;
  win_rate_trend : string;
  kda_trend : string;
  most_active_month : option Z;
  best_performing_month : option Z;
}.

(** [Series.idxmax()]: the label of the first row holding the maximum. *)
Fixpoint idxmax_from (c : TrendRow -> Q) (best : TrendRow)
    (rows : list TrendRow) : Z :=
  match rows with
  | [] => tr_period best
  | r :: rest => idxmax_from c (if Qltb (c best) (c r) then r else best) rest
  end.

Definition idxmax (c : TrendRow -> Q) (rows : list TrendRow) : option Z :=
  match rows with
  | [] => None
  | r :: rest => Some (idxmax_from c r rest)
  end.

(** The two-way conditional
    ['improving' if recent > previous else 'declining']. *)
Definition bucket_trend (recent previous : Q) : string :=
  if Qltb previous recent then "improving" else "declining".

(** [InsightsEngine._get_performance_trends].  The rows of [monthly] are in
    ascending month order, so [iloc[-1]] and [iloc[-2]] are the first two
    rows of the reversed table. *)
Definition _get_performance_trends (df : DataFrame) : TrendReport :=
  let monthly := Processor.get_performance_trends df in
  let '(wr_trend, kda_trend) :=
    match rev monthly with
    | recent :: previous :: _ =>
        (bucket_trend (tr_win_rate recent) (tr_win_rate previous),
         bucket_trend (tr_avg_kda recent) (tr_avg_kda previous))
    | _ => ("stable", "stable")
    end in
  {| monthly_trends := monthly;
     win_rate_trend := wr_trend;
     kda_trend := kda_trend;
     most_active_month := idxmax (fun r => inject_Z (tr_games r)) monthly;
     best_performing_month := idxmax tr_win_rate monthly;
  |}.

(** [df.head(n)] *)
Definition head (n : Z) (df : DataFrame) : DataFrame :=
  if 0 <=? n then take (Z.to_nat n) df else take (Z.to_nat (len df + n)) df.

Record RecentPerformance : Type := {
  rp_recent_stats : option OverallStats;
  games_analyzed : Z;
  rp_win_rate_change : Q;
  rp_kda_change : Q;
  trend : string;
}.

(** The three-way conditional
    ['improving' if wr_diff > 0 else 'declining' if wr_diff < 0 else 'stable']. *)
Definition diff_trend (wr_diff : Q) : string :=
  if Qltb 0 wr_diff then "improving"
  else if Qltb wr_diff 0 then "declining"
  else "stable".

(** [InsightsEngine._analyze_recent_performance] *)
Definition _analyze_recent_performance (df : DataFrame) (games : Z)
    : Res (option RecentPerformance) :=
  let recent_df := head games df in
  if empty recent_df then Ok None
  else
    let* recent_stats := calculate_overall_stats recent_df in
    let* overall_stats := calculate_overall_stats df in
    (* Compare to overall *)
    let* recent_wr := getitem recent_stats "win_rate" win_rate in
    let* overall_wr := getitem overall_stats "win_rate" win_rate in
    let wr_diff := (recent_wr - overall_wr)%Q in
    let* recent_kda := getitem recent_stats "avg_kda" avg_kda in
    let* overall_kda := getitem overall_stats "avg_kda" avg_kda in
    let kda_diff := (recent_kda - overall_kda)%Q in
    Ok (Some {|
      rp_recent_stats := recent_stats;
      games_analyzed := len recent_df;
      rp_win_rate_change := round wr_diff 2;
      rp_kda_change := round kda_diff 2;
      trend := diff_trend wr_diff;
    |}).

Record GrowthMetrics : Type := {
  win_rate_change : Q;
  kda_change : Q;
  damage_change : Q;
  cs_change : Q;
  vision_change : Q;
}.

(** [InsightsEngine._calculate_growth_metrics]; the empty dictionary is
    [None]. *)
Definition _calculate_growth_metrics (df : DataFrame)
    : Res (option GrowthMetrics) :=
  if len df <? 20 then Ok None
  else
    (* Compare first half vs second half *)
    let midpoint := Z.to_nat (len df / 2) in
    let first_half := drop midpoint df in    (* Older games *)
    let second_half := take midpoint df in   (* Newer games *)
    let* first_stats := calculate_overall_stats first_half in
    let* second_stats := calculate_overall_stats second_half in
    let* s_wr := getitem second_stats "win_rate" win_rate in
    let* f_wr := getitem first_stats "win_rate" win_rate in
    let* s_kda := getitem second_stats "avg_kda" avg_kda in
    let* f_kda := getitem first_stats "avg_kda" avg_kda in
    let* s_dmg := getitem second_stats "avg_damage_dealt" avg_damage_dealt in
    let* f_dmg := getitem first_stats "avg_damage_dealt" avg_damage_dealt in
    let* s_cs := getitem second_stats "avg_cs_per_minute" avg_cs_per_minute in
    let* f_cs := getitem first_stats "avg_cs_per_minute" avg_cs_per_minute in
    let* s_vis := getitem second_stats "avg_vision_score" avg_vision_score in
    let* f_vis := getitem first_stats "avg_vision_score" avg_vision_score in
    Ok (Some {|
      win_rate_change := round (s_wr - f_wr) 2;
      kda_change := round (s_kda - f_kda) 2;
      damage_change := round (s_dmg - f_dmg) 0;
      cs_change := round (s_cs - f_cs) 2;
      vision_change := round (s_vis - f_vis) 1;
    |}).

(** The loop body of [_calculate_max_streak], on the pair
    [(max_streak, current_streak)]. *)
Definition streak_step (acc : Z * Z) (value : bool) : Z * Z :=
  let '(max_streak, current_streak) := acc in
  if value then
    let current_streak := current_streak + 1 in
    (Z.max max_streak current_streak, current_streak)
  else (max_streak, 0).

(** [InsightsEngine._calculate_max_streak]: the column is scanned in the
    order the rows are stored. *)
Definition _calculate_max_streak (df : DataFrame) (column : MatchRecord -> bool) : Z :=
  (foldl streak_step (0, 0) (map column df)).1.

End Insights.

(** ** State and exceptions *)

(** A computation that reads and writes a state [S] and may raise; the
    state reached when an exception is raised is kept, as in Python. *)
Definition M (S A : Type) : Type := S -> Res A * S.

Definition ret {S A} (a : A) : M S A := fun s => (Ok a, s).

Definition bind {S A B} (m : M S A) (k : A -> M S B) : M S B :=
  fun s =>
    match m s with
    | (Ok a, s') => k a s'
    | (Raise e, s') => (Raise e, s')
    end.

Definition raise {S A} (e : exn) : M S A := fun s => (Raise e, s).

Definition get {S} : M S S := fun s => (Ok s, s).

Definition modify {S} (f : S -> S) : M S unit := fun s => (Ok tt, f s).

(** An operation that cannot raise. *)
Definition total {S A} (f : S -> A * S) : M S A :=
  fun s => (Ok (f s).1, (f s).2).

(** [try: body  except RiotAPIError as e: handler]; any other exception
    passes through. *)
Definition try_except_RiotAPIError {S A} (body : M S A)
    (handler : string -> M S A) : M S A :=
  fun s =>
    match body s with
    | (Raise (RiotAPIError msg), s') => handler msg s'
    | outcome => outcome
    end.

Declare Scope m_scope.
Delimit Scope m_scope with m.
Notation "'let*' x ':=' m 'in' k" := (bind m (fun x => k))
  (at level 10, x name, m at level 100, k at level 200) : m_scope.
Notation "m1 ;; m2" := (bind m1 (fun _ => m2))
  (at level 100, m2 at level 200, right associativity) : m_scope.

(** ** The Riot API client (riot_api.py) *)

Module RiotApi.

#[local] Open Scope m_scope.

(** A decoded JSON document. *)
#[warnings="-register-all"]
Inductive Json : Type :=
| JNull
| JBool (b : bool)
| JNum (q : Q)
| JStr (s : string)
| JList (items : list Json)
| JDict (fields : list (string * Json)).

(** Python truth value of a decoded document ([if cached:]). *)
Definition truthy (v : Json) : bool :=
  match v with
  | JNull => false
  | JBool b => b
  | JNum q => negb (Qeq_bool q 0)
  | JStr s => negb (String.eqb s "")
  | JList items => match items with [] => false | _ => true end
  | JDict fields => match fields with [] => false | _ => true end
  end.

(** What [requests.get(url, ...)], [raise_for_status()] and [json()] produce
    together: a decoded body, a [RequestException] carrying a response
    with its status code, or a [RequestException] without a response. *)
Inductive http_outcome : Type :=
| HttpJson (data : Json)
| HttpStatusError (status_code : Z)
| HttpNoResponse (detail : string).

(** What the client does to the outside world. *)
Inductive event : Type :=
| Now
| Get (url : string).

(** The outside world: the wall clock (microseconds since the epoch) and
    the upstream's answers, each a function of everything the client has
    done so far.  The pauses of the rate limiter are part of the clock. *)
Record Env : Type := {
  clock : list event -> Z;
  respond : list event -> string -> http_outcome;
}.

(** A [RiotAPIClient] instance with the record of its interactions. *)
Record Client : Type := {
  regional_base_url : string;
  _cache : gmap string Json;
  _cache_expiry : gmap string Z;
  trace : list event;
}.

(** [datetime.min], in microseconds since the epoch. *)
Definition datetime_min : Z := -62135596800000000.

(** [timedelta(hours=h)] and [timedelta(days=d)], in microseconds. *)
Definition timedelta_hours (h : Z) : Z := h * 3600000000.
Definition timedelta_days (d : Z) : Z := d * 86400000000.

(** The number of network requests a trace records. *)
Definition is_request (e : event) : bool :=
  match e with Get _ => true | Now => false end.
Definition requests_issued (t : list event) : nat :=
  length (filter (fun e => is_request e = true) t).

Section Client.

Variable env : Env.

Definition log (e : event) (c : Client) : Client :=
  {| regional_base_url := regional_base_url c;
     _cache := _cache c;
     _cache_expiry := _cache_expiry c;
     trace := trace c ++ [e] |}.

(** [datetime.now()] *)
Definition datetime_now : M Client Z :=
  fun c => (Ok (clock env (trace c)), log Now c).

(** [requests.get(url, headers=self.headers, timeout=10)] up to
    [response.json()] *)
Definition requests_get (url : string) : M Client http_outcome :=
  fun c => (Ok (respond env (trace c) url), log (Get url) c).

(** [self._cache[key] = data] *)
Definition cache_setitem (key : string) (data : Json) : M Client unit :=
  modify (fun c =>
    {| regional_base_url := regional_base_url c;
       _cache := <[key := data]> (_cache c);
       _cache_expiry := _cache_expiry c;
       trace := trace c |}).

(** [self._cache_expiry[key] = t] *)
Definition expiry_setitem (key : string) (t : Z) : M Client unit :=
  modify (fun c =>
    {| regional_base_url := regional_base_url c;
       _cache := _cache c;
       _cache_expiry := <[key := t]> (_cache_expiry c);
       trace := trace c |}).

(** [del self._cache[key]] *)
Definition cache_delitem (key : string) : M Client unit :=
  fun c =>
    match _cache c !! key with
    | Some _ =>
        (Ok tt, {| regional_base_url := regional_base_url c;
                   _cache := delete key (_cache c);
                   _cache_expiry := _cache_expiry c;
                   trace := trace c |})
    | None => (Raise (KeyError key), c)
    end.

(** [del self._cache_expiry[key]] *)
Definition expiry_delitem (key : string) : M Client unit :=
  fun c =>
    match _cache_expiry c !! key with
    | Some _ =>
        (Ok tt, {| regional_base_url := regional_base_url c;
                   _cache := _cache c;
                   _cache_expiry := delete key (_cache_expiry c);
                   trace := trace c |})
    | None => (Raise (KeyError key), c)
    end.

(** [RiotAPIClient._get_from_cache] *)
Definition _get_from_cache (key : string) : M Client (option Json) :=
  let* c := get in
  match _cache c !! key with
  | Some data =>
      let* now := datetime_now in
      if now <? default datetime_min (_cache_expiry c !! key) then
        ret (Some data)
      else
        (* Clean expired cache *)
        cache_delitem key ;;
        expiry_delitem key ;;
        ret None
  | None => ret None
  end.

(** [RiotAPIClient._set_cache] *)
Definition _set_cache (key : string) (data : Json) (expiry_hours : Z)
    : M Client unit :=
  cache_setitem key data ;;
  let* now := datetime_now in
  expiry_setitem key (now + timedelta_hours expiry_hours).

(** The request itself, with the translation of a [RequestException]
    into a [RiotAPIError]. *)
Definition fetch (url : string) (use_cache : bool) (cache_hours : Z)
    : M Client Json :=
  let* outcome := requests_get url in
  match outcome with
  | HttpJson data =>
      (* Cache successful response *)
      (if use_cache then _set_cache url data cache_hours else ret tt) ;;
      ret data
  | HttpStatusError status_code =>
      if status_code =? 404 then
        raise (RiotAPIError ("Resource not found: " +:+ url))
      else if status_code =? 403 then
        raise (RiotAPIError "Invalid or expired API key")
      else if status_code =? 429 then
        raise (RiotAPIError "Rate limit exceeded")
      else
        raise (RiotAPIError ("API request failed: " +:+ pretty status_code))
  | HttpNoResponse detail =>
      raise (RiotAPIError ("Request error: " +:+ detail))
  end.

(** [RiotAPIClient._make_request] *)
Definition _make_request (url : string) (use_cache : bool) (cache_hours : Z)
    : M Client Json :=
  (* Check cache *)
  let* cached :=
    if use_cache then _get_from_cache url else ret None in
  match cached with
  | Some data =>
      if truthy data then ret data       (* Cache hit *)
      else fetch url use_cache cache_hours
  | None => fetch url use_cache cache_hours
  end.

Definition truthy_int (n : Z) : bool := negb (n =? 0).

Definition truthy_opt_int (n : option Z) : bool :=
  match n with Some n => truthy_int n | None => false end.

(** ["&".join(params)] *)
Fixpoint join (sep : string) (params : list string) : string :=
  match params with
  | [] => ""
  | [p] => p
  | p :: rest => p +:+ sep +:+ join sep rest
  end.

(** [RiotAPIClient.get_match_ids_by_puuid] *)
Definition get_match_ids_by_puuid (puuid : string) (start count : Z)
    (start_time end_time queue : option Z) : M Client Json :=
  let params :=
    (if truthy_int start then ["start=" +:+ pretty start] else []) ++
    (if truthy_int count then ["count=" +:+ pretty (Z.min count 100)] else []) ++
    (if truthy_opt_int start_time
     then ["startTime=" +:+ pretty (default 0 start_time)] else []) ++
    (if truthy_opt_int end_time
     then ["endTime=" +:+ pretty (default 0 end_time)] else []) ++
    (if truthy_opt_int queue
     then ["queue=" +:+ pretty (default 0 queue)] else []) in
  let query_string := join "&" params in
  let* c := get in
  let url :=
    regional_base_url c +:+ "/lol/match/v5/matches/by-puuid/" +:+ puuid +:+ "/ids" in
  let url :=
    if negb (String.eqb query_string "") then url +:+ "?" +:+ query_string
    else url in
  _make_request url true 24.

(** [RiotAPIClient.get_match_details] *)
Definition get_match_details (match_id : string) : M Client Json :=
  let* c := get in
  let url := regional_base_url c +:+ "/lol/match/v5/matches/" +:+ match_id in
  _make_request url true 24.

End Client.

(** The client after the lazy eviction of [key]: the entry is gone from
    both tables and the clock has been read once. *)
Definition evicted (key : string) (c : Client) : Client :=
  {| regional_base_url := regional_base_url c;
     _cache := delete key (_cache c);
     _cache_expiry := delete key (_cache_expiry c);
     trace := trace c ++ [Now] |}.

End RiotApi.

(** ** Full-history retrieval (riot_api.py, [get_full_match_history])

    The loop is embedded over its two callees and the clock.  The callees
    are typed as the source annotates them: the listing call yields a
    Python list of match ids ([List[str]]), the detail call one match
    payload ([Dict]); each may change the client and the world, and may
    raise.  The theorems hold for every such pair of callees, the client's
    own requests among them. *)

Module History.

#[local] Open Scope m_scope.

(** How one pass through the body of the [while] loop ends. *)
Inductive ctl : Type := Continue | Break.

(** The local variables the loop mutates. *)
Record Locals (Match : Type) : Type := {
  all_matches : list Match;
  start_index : Z;
}.
Arguments all_matches {Match} l.
Arguments start_index {Match} l.

Definition len {A} (l : list A) : Z := Z.of_nat (length l).

Definition batch_size : Z := 100.

Section FullHistory.

Context {S MatchId Match : Type}.

(** [self.get_match_ids_by_puuid(puuid=, start=, count=, start_time=)] *)
Variable get_match_ids_by_puuid : string -> Z -> Z -> Z -> M S (list MatchId).
(** [self.get_match_details(match_id)] *)
Variable get_match_details : MatchId -> M S Match.
(** [datetime.now()], in microseconds since the epoch; it does not raise *)
Variable datetime_now : S -> Z * S.
(** [int((now - timedelta(days=days_back)).timestamp())] for the reading
    [now] of the clock: the start time in seconds, or the name of the
    exception the date arithmetic raises ([OverflowError] when [days_back]
    is more than [timedelta] or [datetime] can hold) *)
Variable start_timestamp : Z -> Z -> sum string Z.

Definition St : Type := S * Locals Match.

Definition lift {A} (m : M S A) : M St A :=
  fun st => let '(r, s') := m st.1 in (r, (s', st.2)).

Definition locals : M St (Locals Match) := fun st => (Ok st.2, st).

(** [all_matches.append(match_data)] *)
Definition appended (match_data : Match) (l : Locals Match) : Locals Match :=
  {| all_matches := all_matches l ++ [match_data];
     start_index := start_index l |}.
Definition append_match (match_data : Match) : M St unit :=
  modify (fun st : St => (st.1, appended match_data st.2)).

(** [start_index += batch_size] *)
Definition advanced (l : Locals Match) : Locals Match :=
  {| all_matches := all_matches l;
     start_index := start_index l + batch_size |}.
Definition advance_start_index : M St unit :=
  modify (fun st : St => (st.1, advanced st.2)).

Section Loop.

Variables (puuid : string) (max_matches start_time : Z).

(** [for match_id in match_ids: ...] *)
Fixpoint for_match_ids (match_ids : list MatchId) : M St unit :=
  match match_ids with
  | [] => ret tt
  | match_id :: rest =>
      let* l := locals in
      if max_matches <=? len (all_matches l) then ret tt          (* break *)
      else
        try_except_RiotAPIError
          (let* match_data := lift (get_match_details match_id) in
           append_match match_data)
          (fun e => ret tt) ;;                                    (* continue *)
        for_match_ids rest
  end.

(** The body of [while len(all_matches) < max_matches]. *)
Definition while_body : M St ctl :=
  try_except_RiotAPIError
    ((* Get batch of match IDs *)
     let* l := locals in
     let* match_ids :=
       lift (get_match_ids_by_puuid puuid (start_index l) batch_size start_time) in
     match match_ids with
     | [] => ret Break                       (* No more matches found *)
     | _ :: _ =>
         (* Get detailed data for each match *)
         for_match_ids match_ids ;;
         advance_start_index ;;
         (* If we got fewer matches than requested, we've reached the end *)
         if len match_ids <? batch_size then ret Break else ret Continue
     end)
    (fun e => ret Break).                    (* Error fetching match IDs *)

(** The [while] loop, run for at most [fuel] passes: [true] when the loop
    was left, [false] when the passes ran out first. *)
Fixpoint while_loop (fuel : nat) : M St bool :=
  let* l := locals in
  if len (all_matches l) <? max_matches then
    match fuel with
    | O => ret false
    | Datatypes.S fuel =>
        let* c := while_body in
        match c with
        | Break => ret true
        | Continue => while_loop fuel
        end
    end
  else ret true.

End Loop.

(** [RiotAPIClient.get_full_match_history]: [Ok (Some matches)] is the
    returned list, [Ok None] says that [fuel] passes were not enough. *)
Definition get_full_match_history (fuel : nat) (puuid : string)
    (max_matches days_back : Z) : M S (option (list Match)) :=
  (* Calculate start time (days back from now) *)
  let* now := total datetime_now in
  match start_timestamp now days_back with
  | inl error => raise (OtherException error)
  | inr start_time =>
      fun s =>
        let '(r, (s', l)) :=
          while_loop puuid max_matches start_time fuel
            (s, {| all_matches := []; start_index := 0 |}) in
        match r with
        | Ok true => (Ok (Some (all_matches l)), s')
        | Ok false => (Ok None, s')
        | Raise e => (Raise e, s')
        end
  end.

(** The upstream's history is finite: from [bound] on, every page of the
    listing is an error or shorter than a full batch. *)
Definition exhaustible (puuid : string) (bound : Z) : Prop :=
  forall start start_time s,
    bound <= start ->
    match (get_match_ids_by_puuid puuid start batch_size start_time s).1 with
    | Ok match_ids => len match_ids < batch_size
    | Raise _ => True
    end.

(** No detail request fails with a [RiotAPIError]. *)
Definition reliable : Prop :=
  forall match_id s msg,
    (get_match_details match_id s).1 <> Raise (RiotAPIError msg).

End FullHistory.

(** A scripted upstream for experiments: the state counts the calls made;
    page [start] of the listing is [ids start], absent pages fail; a match
    detail is available when [detail] gives one. *)
Section Scripted.

Variable ids : Z -> option (list string).
Variable detail : string -> option string.

Definition scripted_ids (puuid : string) (start count start_time : Z)
    : M nat (list string) :=
  modify Datatypes.S ;;
  match ids start with
  | Some page => ret page
  | None => raise (RiotAPIError "API request failed: 500")
  end.

Definition scripted_details (match_id : string) : M nat string :=
  modify Datatypes.S ;;
  match detail match_id with
  | Some d => ret d
  | None => raise (RiotAPIError ("Resource not found: " +:+ match_id))
  end.

Definition scripted_now (calls : nat) : Z * nat := (1700000000000000, calls).

(** Date arithmetic that refuses what [timedelta] refuses, more than
    999999999 days, and otherwise counts whole seconds. *)
Definition scripted_start (now days_back : Z) : sum string Z :=
  if 999999999 <? Z.abs days_back then inl "OverflowError"
  else inr ((now - RiotApi.timedelta_days days_back) ÷ 1000000).

Definition scripted_history (fuel : nat) (max_matches : Z)
    : Res (option (list string)) * nat :=
  get_full_match_history scripted_ids scripted_details scripted_now
    scripted_start
    fuel "puuid" max_matches 365 O.

End Scripted.

(** A full page of one hundred match ids. *)
Definition full_page : list string := replicate 100 "NA1_1".

(** A listing that serves a full page at every offset. *)
Definition endless_pages (start : Z) : option (list string) := Some full_page.

(** A listing with two full pages and nothing after them. *)
Definition two_pages (start : Z) : option (list string) :=
  if start <? 200 then Some full_page else Some [].

(** A listing that always fails. *)
Definition failing_listing (start : Z) : option (list string) := None.

(** Detail requests that all fail, and detail requests that all succeed. *)
Definition no_detail (match_id : string) : option string := None.
Definition every_detail (match_id : string) : option string := Some match_id.

End History.


(** ** Notions of the specification *)

Module Spec.

(** A run of [n] consecutive true values somewhere in [flags]. *)
Definition is_run (flags : list bool) (n : nat) : Prop :=
  exists before after, flags = before ++ replicate n true ++ after.

(** The number of true values [flags] starts with. *)
Fixpoint leading_trues (flags : list bool) : nat :=
  match flags with
  | true :: rest => Datatypes.S (leading_trues rest)
  | _ => O
  end.

(** The specification's streak: the longest run of consecutive true values,
    as the largest number of leading true values over all the places a run
    can start. *)
Fixpoint longest_run (flags : list bool) : nat :=
  match flags with
  | [] => O
  | _ :: rest => Nat.max (leading_trues flags) (longest_run rest)
  end.

(** The history in chronological order (oldest game first): the reverse
    of the storage order. *)
Definition chronological {A} (history : list A) : list A := rev history.

End Spec.

(** ** Sample data *)

Module Sample.

Import Processor.

(** A processed row with the given outcome and counters; its derived
    fields come from the normaliser. *)
Definition game (id : string) (month : Z) (win : bool)
    (kills deaths assists vision : Z) : MatchRecord :=
  {| match_id := id;
     month := month;
     win := win;
     kills := kills;
     deaths := deaths;
     assists := assists;
     kda := match Normalizer._calculate_kda kills deaths assists with
            | Ok x => Float.value x
            | Raise _ => 0%Q
            end;
     total_damage_dealt_to_champions := 20000;
     total_damage_taken := 15000;
     gold_earned := 11000;
     total_minions_killed := 150;
     neutral_minions_killed := 30;
     cs_per_minute :=
       match Normalizer._calculate_cs_per_minute 150 30 1800 with
       | Ok n => Float.number_value n
       | Raise _ => 0%Q
       end;
     vision_score := vision;
     wards_placed := 10;
     control_wards_placed := 2;
     double_kills := 0;
     triple_kills := 0;
     quadra_kills := 0;
     penta_kills := 0;
     game_duration := 1800;
  |}.

(** Two months, one won game each, with the same score: both monthly
    buckets have win rate 100 and KDA 4. *)
Definition tied_months : DataFrame :=
  [game "NA1_2" 659 true 5 2 3 25; game "NA1_1" 658 true 5 2 3 25].

(** Seven games whose win flags, oldest first, are T,T,T,T,T,F,T. *)
Definition seven_games : DataFrame :=
  [game "NA1_7" 659 true 5 2 3 25;
   game "NA1_6" 659 false 5 2 3 25;
   game "NA1_5" 659 true 5 2 3 25;
   game "NA1_4" 659 true 5 2 3 25;
   game "NA1_3" 659 true 5 2 3 25;
   game "NA1_2" 659 true 5 2 3 25;
   game "NA1_1" 659 true 5 2 3 25].

(** [n] copies of one game with six deaths and vision score 20. *)
Definition six_deaths (n : nat) : DataFrame :=
  replicate n (game "NA1_1" 659 true 5 6 3 20).

Import RiotApi.

(** The listing request for a player, first page. *)
Definition ids_url : string :=
  "https://americas.api.riotgames.com/lol/match/v5/matches/by-puuid/p-1/ids?count=100".

(** An upstream that lists no match at the first request and one match
    from then on, under a clock that stands at one second past the epoch. *)
Definition late_match_env : Env :=
  {| clock := fun _ => 1000000;
     respond := fun t _ =>
       match requests_issued t with
       | O => HttpJson (JList [])
       | _ => HttpJson (JList [JStr "NA1_1"])
       end |}.

(** A client that has not made any request yet. *)
Definition fresh_client : Client :=
  {| regional_base_url := "https://americas.api.riotgames.com";
     _cache := ∅;
     _cache_expiry := ∅;
     trace := [] |}.

(** A client that holds a one-match listing for [ids_url], cached at the
    epoch for a day. *)
Definition cached_client : Client :=
  {| regional_base_url := "https://americas.api.riotgames.com";
     _cache := {[ ids_url := JList [JStr "NA1_0"] ]};
     _cache_expiry := {[ ids_url := timedelta_hours 24 ]};
     trace := [] |}.

End Sample.

(** ** Client construction and request locators (riot_api.py) *)

Module Setup.

Import RiotApi.
#[local] Open Scope m_scope.

(** [raise ValueError(msg)] *)
Definition ValueError (msg : string) : exn :=
  OtherException ("ValueError: " +:+ msg).

(** [RiotAPIClient.BASE_URLS] *)
Definition BASE_URLS : list (string * string) :=
  [("americas", "https://americas.api.riotgames.com");
   ("asia", "https://asia.api.riotgames.com");
   ("europe", "https://europe.api.riotgames.com");
   ("sea", "https://sea.api.riotgames.com")].

(** [RiotAPIClient.PLATFORM_URLS] *)
Definition PLATFORM_URLS : list (string * string) :=
  [("na1", "https://na1.api.riotgames.com");
   ("euw1", "https://euw1.api.riotgames.com");
   ("eun1", "https://eun1.api.riotgames.com");
   ("kr", "https://kr.api.riotgames.com");
   ("br1", "https://br1.api.riotgames.com");
   ("la1", "https://la1.api.riotgames.com");
   ("la2", "https://la2.api.riotgames.com");
   ("oc1", "https://oc1.api.riotgames.com");
   ("tr1", "https://tr1.api.riotgames.com");
   ("ru", "https://ru.api.riotgames.com");
   ("jp1", "https://jp1.api.riotgames.com");
   ("ph2", "https://ph2.api.riotgames.com");
   ("sg2", "https://sg2.api.riotgames.com");
   ("th2", "https://th2.api.riotgames.com");
   ("tw2", "https://tw2.api.riotgames.com");
   ("vn2", "https://vn2.api.riotgames.com")].

(** The settings [__init__] falls back on ([config.RIOT_API_KEY] and its
    neighbours, read from the environment when the process starts). *)
Record Config : Type := {
  RIOT_API_KEY : string;
  RIOT_API_REGION : string;
  RIOT_API_PLATFORM : string;
}.

(** [a or b] for an optional string [a]. *)
Definition or_default (a : option string) (b : string) : string :=
  match a with
  | Some s => if String.eqb s "" then b else s
  | None => b
  end.

(** A constructed [RiotAPIClient]: its settings and its mutable part. *)
Record RiotAPIClient : Type := {
  api_key : string;
  region : string;
  platform : string;
  platform_base_url : string;
  headers : list (string * string);
  client : Client;
}.

(** [RiotAPIClient.__init__] *)
Definition __init__ (config : Config) (api_key region platform : option string)
    : Res RiotAPIClient :=
  let api_key := or_default api_key (RIOT_API_KEY config) in
  let region := or_default region (RIOT_API_REGION config) in
  let platform := or_default platform (RIOT_API_PLATFORM config) in
  if String.eqb api_key "" then Raise (ValueError "Riot API key is required")
  else
    let regional_base_url := Processor.dict_get BASE_URLS region in
    let platform_base_url := Processor.dict_get PLATFORM_URLS platform in
    match regional_base_url with
    | None => Raise (ValueError ("Invalid region: " +:+ region))
    | Some regional =>
        if String.eqb regional "" then
          Raise (ValueError ("Invalid region: " +:+ region))
        else
          match platform_base_url with
          | None => Raise (ValueError ("Invalid platform: " +:+ platform))
          | Some platformal =>
              if String.eqb platformal "" then
                Raise (ValueError ("Invalid platform: " +:+ platform))
              else
                Ok {| api_key := api_key;
                      region := region;
                      platform := platform;
                      platform_base_url := platformal;
                      headers := [("X-Riot-Token", api_key);
                                  ("Accept", "application/json")];
                      client := {| regional_base_url := regional;
                                   _cache := ∅;
                                   _cache_expiry := ∅;
                                   trace := [] |} |}
          end
    end.

(** The locator [get_match_ids_by_puuid] requests. *)
Definition match_ids_url (base puuid : string) (start count : Z)
    (start_time end_time queue : option Z) : string :=
  let params :=
    (if truthy_int start then ["start=" +:+ pretty start] else []) ++
    (if truthy_int count then ["count=" +:+ pretty (Z.min count 100)] else []) ++
    (if truthy_opt_int start_time
     then ["startTime=" +:+ pretty (default 0 start_time)] else []) ++
    (if truthy_opt_int end_time
     then ["endTime=" +:+ pretty (default 0 end_time)] else []) ++
    (if truthy_opt_int queue
     then ["queue=" +:+ pretty (default 0 queue)] else []) in
  let query_string := join "&" params in
  let url := base +:+ "/lol/match/v5/matches/by-puuid/" +:+ puuid +:+ "/ids" in
  if negb (String.eqb query_string "") then url +:+ "?" +:+ query_string
  else url.

(** The two tables of the cache hold the same keys. *)
Definition cache_consistent (c : Client) : Prop :=
  forall key, is_Some (_cache c !! key) <-> is_Some (_cache_expiry c !! key).

End Setup.

(** ** The listing a well-behaved upstream serves *)

Module Listing.

Import History.

(** The ids the retrieval meets when the upstream serves [page start] at
    every offset: page after page, up to [passes] pages, ending with the
    first page shorter than a full batch. *)
Fixpoint listed {MatchId} (page : Z -> list MatchId) (passes : nat) (start : Z)
    : list MatchId :=
  match passes with
  | O => []
  | Datatypes.S passes =>
      let ids := page start in
      if len ids <? batch_size then ids
      else ids ++ listed page passes (start + batch_size)
  end.

(** What [every_detail] answers for an id. *)
Definition every_detail_of (match_id : string) : string := match_id.

End Listing.

(** ** Strengths and achievements (insights_engine.py) *)

Module Highlights.

Import Processor Insights.
#[local] Open Scope res_scope.

(** A Python number: the dictionaries below hold counts and averages under
    the same key. *)
Inductive Number : Type :=
| Int (z : Z)
| Float (q : Q).

Record Strength : Type := {
  st_metric : string;
  st_value : Number;
  st_description : string;
}.

Record Achievement : Type := {
  title : string;
  description : string;
  icon : string;
  rarity : string;
}.

(** A string literal given by the bytes of its UTF-8 encoding. *)
Definition utf8 (bytes : list Z) : string :=
  String.string_of_list_ascii
    (map (fun b => Ascii.ascii_of_N (Z.to_N b)) bytes).

(** The icon literals of the source, as they stand in the file. *)
Definition icon_pentakill : string := utf8 [195; 176; 197; 184; 226; 128; 160].
Definition icon_quadra : string := utf8 [195; 162; 194; 173].
Definition icon_streak : string :=
  utf8 [195; 176; 197; 184; 226; 128; 157; 194; 165].
Definition icon_games : string := utf8 [195; 176; 197; 184; 197; 189; 194; 174].
Definition icon_damage : string :=
  utf8 [195; 176; 197; 184; 226; 128; 153; 194; 165].
Definition icon_bolt : string := utf8 [195; 162; 197; 161; 194; 161].
Definition icon_gem : string :=
  utf8 [195; 176; 197; 184; 226; 128; 153; 197; 189].

(** [f'{n:,}']: decimal digits in groups of three. *)
Definition pad3 (z : Z) : string :=
  (if z <? 10 then "00" else if z <? 100 then "0" else "") +:+ pretty z.

Fixpoint group_thousands (fuel : nat) (z : Z) : string :=
  match fuel with
  | O => pretty z
  | Datatypes.S fuel =>
      if z <? 1000 then pretty z
      else group_thousands fuel (z / 1000) +:+ "," +:+ pad3 (z mod 1000)
  end.

Definition format_thousands (z : Z) : string :=
  if z <? 0 then "-" +:+ group_thousands (Z.to_nat (Z.log2 (- z))) (- z)
  else group_thousands (Z.to_nat (Z.log2 z)) z.

(** [achievements.append(a)] under a condition. *)
Definition append_if {A} (c : bool) (a : A) (achievements : list A) : list A :=
  if c then achievements ++ [a] else achievements.

(** [InsightsEngine._identify_achievements], on a history that carries the
    processed columns. *)
Definition _identify_achievements (df : DataFrame) : list Achievement :=
  let achievements : list Achievement := [] in
  (* Check for various achievements *)
  let total_pentas := int64_sum penta_kills df in
  let achievements :=
    append_if (0 <? total_pentas)
      {| title := "Legendary Pentakill";
         description := "Achieved " +:+ pretty total_pentas +:+ " pentakill(s)!";
         icon := icon_pentakill;
         rarity := "legendary" |} achievements in
  let total_quadras := int64_sum quadra_kills df in
  let achievements :=
    append_if (5 <=? total_quadras)
      {| title := "Quadra Master";
         description := "Got " +:+ pretty total_quadras +:+ " quadra kills";
         icon := icon_quadra;
         rarity := "epic" |} achievements in
  (* Win streak *)
  let max_streak := _calculate_max_streak df win in
  let achievements :=
    append_if (5 <=? max_streak)
      {| title := pretty max_streak +:+ "-Game Win Streak";
         description := "Won " +:+ pretty max_streak +:+ " games in a row!";
         icon := icon_streak;
         rarity := if max_streak <? 10 then "rare" else "epic" |} achievements in
  (* Games played milestone *)
  let total_games := len df in
  let achievements :=
    append_if (100 <=? total_games)
      {| title := "Dedicated Player";
         description := "Played " +:+ pretty total_games +:+ " games this year";
         icon := icon_games;
         rarity := "common" |} achievements in
  (* High damage game; the maximum of an empty column compares false *)
  let max_damage := imax total_damage_dealt_to_champions df in
  let achievements :=
    append_if (50000 <=? max_damage)
      {| title := "Damage Dealer";
         description :=
           "Dealt " +:+ format_thousands max_damage +:+ " damage in a single game";
         icon := icon_damage;
         rarity := "rare" |} achievements in
  achievements.

Section Formatting.

(** [str(x)] for a float [x], as an f-string renders it. *)
Variable float_str : Q -> string.

(** [InsightsEngine._identify_strengths] *)
Definition _identify_strengths (df : DataFrame) : Res (Dict Strength) :=
  let strengths : Dict Strength := [] in
  let* overall := calculate_overall_stats df in
  (* High win rate *)
  let* win_rate := getitem overall "win_rate" win_rate in
  let strengths :=
    if Qle_bool 52 win_rate then
      dict_set strengths "win_rate" {|
        st_metric := "Win Rate";
        st_value := Float win_rate;
        st_description :=
          "Strong " +:+ float_str win_rate
          +:+ "% win rate shows consistent performance";
      |}
    else strengths in
  (* Good KDA *)
  let* avg_kda := getitem overall "avg_kda" avg_kda in
  let strengths :=
    if Qle_bool 3 avg_kda then
      dict_set strengths "kda" {|
        st_metric := "KDA";
        st_value := Float avg_kda;
        st_description :=
          "Excellent " +:+ float_str avg_kda
          +:+ " KDA demonstrates strong mechanics";
      |}
    else strengths in
  (* High vision score *)
  let* avg_vision_score := getitem overall "avg_vision_score" avg_vision_score in
  let strengths :=
    if Qle_bool 35 avg_vision_score then
      dict_set strengths "vision" {|
        st_metric := "Vision Score";
        st_value := Float avg_vision_score;
        st_description :=
          "Outstanding vision control with " +:+ float_str avg_vision_score
          +:+ " average score";
      |}
    else strengths in
  (* Good CS *)
  let* avg_cs_per_minute :=
    getitem overall "avg_cs_per_minute" avg_cs_per_minute in
  let strengths :=
    if Qle_bool 6 avg_cs_per_minute then
      dict_set strengths "cs" {|
        st_metric := "CS per Minute";
        st_value := Float avg_cs_per_minute;
        st_description :=
          "Strong farming with " +:+ float_str avg_cs_per_minute +:+ " CS/min";
      |}
    else strengths in
  (* Multikills *)
  let* total_penta_kills :=
    getitem overall "total_penta_kills" total_penta_kills in
  let strengths :=
    if 0 <? total_penta_kills then
      dict_set strengths "pentakills" {|
        st_metric := "Pentakills";
        st_value := Int total_penta_kills;
        st_description :=
          "Achieved " +:+ pretty total_penta_kills +:+ " pentakill(s) this year!";
      |}
    else strengths in
  Ok strengths.

(** [InsightsEngine._get_top_achievements] *)
Definition _get_top_achievements (df : DataFrame) : Res (list string) :=
  let achievements : list string := [] in
  let* stats := calculate_overall_stats df in
  let* win_rate := getitem stats "win_rate" win_rate in
  let achievements :=
    append_if (Qle_bool 55 win_rate)
      (icon_pentakill +:+ " Elite " +:+ float_str win_rate +:+ "% Win Rate")
      achievements in
  let* total_penta_kills := getitem stats "total_penta_kills" total_penta_kills in
  let achievements :=
    append_if (0 <? total_penta_kills)
      (icon_bolt +:+ " " +:+ pretty total_penta_kills +:+ " Pentakill(s)")
      achievements in
  let* total_games := getitem stats "total_games" total_games in
  let achievements :=
    append_if (200 <=? total_games)
      (icon_games +:+ " " +:+ pretty total_games +:+ " Games Played")
      achievements in
  let* avg_kda := getitem stats "avg_kda" avg_kda in
  let achievements :=
    append_if (Qle_bool (7 # 2) avg_kda)
      (icon_gem +:+ " " +:+ float_str avg_kda +:+ " Average KDA")
      achievements in
  Ok achievements.

End Formatting.

End Highlights.

(** * Properties *)

(** ** Rounding *)

Section Rounding.

#[local] Instance round_half_even_proper : Proper (Qeq ==> eq) round_half_even.
Proof.
  intros x y Hxy. unfold round_half_even.
  rewrite (Qfloor_comp _ _ Hxy).
  assert (Hc : (x - inject_Z (Qfloor y) ?= 1 # 2)%Q
               = (y - inject_Z (Qfloor y) ?= 1 # 2)%Q).
  { apply Qcompare_comp; [rewrite Hxy|]; reflexivity. }
  rewrite Hc. reflexivity.
Qed.

Lemma round_half_even_bounds x :
  (inject_Z (round_half_even x) - (1 # 2) <= x
   <= inject_Z (round_half_even x) + (1 # 2))%Q.
Proof.
  unfold round_half_even.
  pose proof (Qfloor_le x) as Hlo. pose proof (Qlt_floor x) as Hhi.
  set (f := Qfloor x) in *.
  assert (Hf1 : (inject_Z (f + 1) == inject_Z f + 1)%Q)
    by (rewrite inject_Z_plus; reflexivity).
  rewrite Hf1 in Hhi.
  destruct (Qcompare_spec (x - inject_Z f) (1 # 2)) as [He|Hl|Hg].
  - destruct (Z.even f); [|rewrite Hf1]; split; lra.
  - split; lra.
  - rewrite Hf1. split; lra.
Qed.

Lemma round_half_even_inject_Z z : round_half_even (inject_Z z) = z.
Proof.
  unfold round_half_even. rewrite Qfloor_Z.
  assert (H : (inject_Z z - inject_Z z ?= 1 # 2)%Q = Lt).
  { apply -> Qlt_alt. generalize (inject_Z z). intros q. lra. }
  rewrite H. reflexivity.
Qed.

Lemma Qmake_scale (k : Z) (p : positive) :
  ((k # p) * inject_Z (Z.pos p) == inject_Z k)%Q.
Proof. unfold Qeq, Qmult, inject_Z. simpl. lia. Qed.

Lemma round_decimal x n : decimal n (round x n).
Proof. eexists. unfold round. rewrite Qred_correct. reflexivity. Qed.

Lemma round_of_decimal x n : decimal n x -> (round x n == x)%Q.
Proof.
  intros [k Hk]. unfold round. rewrite Qred_correct.
  assert (H : (x * inject_Z (Z.pos (pow10 n)) == inject_Z k)%Q).
  { rewrite Hk. apply Qmake_scale. }
  rewrite (round_half_even_proper _ _ H), round_half_even_inject_Z.
  symmetry. exact Hk.
Qed.

Lemma decimal_minus n x y : decimal n x -> decimal n y -> decimal n (x - y).
Proof.
  intros [a Ha] [b Hb]. exists (a - b). rewrite Ha, Hb.
  unfold Qeq, Qminus, Qplus, Qopp. simpl. nia.
Qed.

Lemma round_minus_round x y n :
  (round (round x n - round y n) n == round x n - round y n)%Q.
Proof. apply round_of_decimal, decimal_minus; apply round_decimal. Qed.

Lemma round_error x n : (Qabs (round x n - x) <= 1 # (2 * pow10 n))%Q.
Proof.
  unfold round. rewrite Qred_correct.
  pose proof (round_half_even_bounds (x * inject_Z (Z.pos (pow10 n))))
    as [Hlo Hhi].
  set (r := round_half_even _) in *.
  set (p := pow10 n) in *.
  assert (Hr : (r # p == inject_Z r / inject_Z (Z.pos p))%Q).
  { unfold Qeq, Qdiv, Qmult, Qinv, inject_Z. simpl. lia. }
  assert (Hh : (1 # (2 * p) == (1 # 2) / inject_Z (Z.pos p))%Q).
  { unfold Qeq, Qdiv, Qmult, Qinv, inject_Z. simpl. lia. }
  assert (Hp : (0 < inject_Z (Z.pos p))%Q) by (unfold Qlt; simpl; lia).
  rewrite Hr, Hh. clear Hr Hh. clearbody r.
  revert Hlo Hhi Hp. generalize (inject_Z (Z.pos p)), (inject_Z r).
  intros P R Hlo Hhi Hp.
  apply Qabs_Qle_condition.
  assert (E1 : (- ((1 # 2) / P) * P == - (1 # 2))%Q) by (field; lra).
  assert (E2 : ((R / P - x) * P == R - x * P)%Q) by (field; lra).
  assert (E3 : ((1 # 2) / P * P == 1 # 2)%Q) by (field; lra).
  split; apply (proj1 (Qmult_le_r _ _ _ Hp)).
  - rewrite E1, E2. lra.
  - rewrite E2, E3. lra.
Qed.

Lemma Qltb_lt a b : Qltb a b = true <-> (a < b)%Q.
Proof.
  unfold Qltb. rewrite negb_true_iff.
  split.
  - intros H. apply Qnot_le_lt. intros Hle.
    apply Qle_bool_iff in Hle. congruence.
  - intros H. destruct (Qle_bool b a) eqn:E; [|reflexivity].
    apply Qle_bool_iff in E. exfalso. apply (Qlt_not_le _ _ H E).
Qed.

Lemma Qltb_ge a b : Qltb a b = false <-> (b <= a)%Q.
Proof.
  unfold Qltb. rewrite negb_false_iff. apply Qle_bool_iff.
Qed.

Lemma truediv_nonzero a b : ~ (b == 0)%Q -> truediv a b = Ok (a / b)%Q.
Proof.
  intros H. unfold truediv.
  destruct (Qeq_bool b 0) eqn:E; [|reflexivity].
  apply Qeq_bool_iff in E. contradiction.
Qed.

Lemma inject_Z_nonzero z : z <> 0 -> ~ (inject_Z z == 0)%Q.
Proof. intros H E. apply H. unfold Qeq in E. simpl in E. lia. Qed.

End Rounding.

Section RoundingBounds.

Lemma round_half_even_ge (k : Z) (y : Q) :
  (inject_Z k <= y)%Q -> k <= round_half_even y.
Proof.
  intros H. pose proof (round_half_even_bounds y) as [_ Hhi].
  assert (Hlt : (inject_Z k < inject_Z (round_half_even y + 1))%Q).
  { rewrite inject_Z_plus. change (inject_Z 1) with 1%Q.
    revert H Hhi. generalize (inject_Z k), (inject_Z (round_half_even y)).
    intros a b H Hhi. lra. }
  rewrite <- Zlt_Qlt in Hlt. clear H Hhi. lia.
Qed.

Lemma round_half_even_le (k : Z) (y : Q) :
  (y <= inject_Z k)%Q -> round_half_even y <= k.
Proof.
  intros H. pose proof (round_half_even_bounds y) as [Hlo _].
  assert (Hlt : (inject_Z (round_half_even y) < inject_Z (k + 1))%Q).
  { rewrite inject_Z_plus. change (inject_Z 1) with 1%Q.
    revert H Hlo. generalize (inject_Z k), (inject_Z (round_half_even y)).
    intros a b H Hlo. lra. }
  rewrite <- Zlt_Qlt in Hlt. clear H Hlo. lia.
Qed.

Lemma Qmake_as_div (k : Z) (p : positive) :
  (k # p == inject_Z k / inject_Z (Z.pos p))%Q.
Proof. unfold Qeq, Qdiv, Qmult, Qinv, inject_Z. simpl. lia. Qed.

Lemma Qdiv_mult_cancel (a P : Q) : (0 < P)%Q -> (a / P * P == a)%Q.
Proof. intros HP. field. lra. Qed.

(** Rounding never crosses a number that has that many decimals. *)
Lemma round_ge (k : Z) (x : Q) n :
  (k # pow10 n <= x)%Q -> (k # pow10 n <= round x n)%Q.
Proof.
  intros H. unfold round. rewrite Qred_correct.
  assert (Hp : (0 < inject_Z (Z.pos (pow10 n)))%Q) by (unfold Qlt; simpl; lia).
  assert (Hk : k <= round_half_even (x * inject_Z (Z.pos (pow10 n)))).
  { apply round_half_even_ge. rewrite Qmake_as_div in H.
    apply (proj2 (Qmult_le_r _ _ _ Hp)) in H.
    now rewrite (Qdiv_mult_cancel _ _ Hp) in H. }
  unfold Qle. simpl. nia.
Qed.

Lemma round_le (k : Z) (x : Q) n :
  (x <= k # pow10 n)%Q -> (round x n <= k # pow10 n)%Q.
Proof.
  intros H. unfold round. rewrite Qred_correct.
  assert (Hp : (0 < inject_Z (Z.pos (pow10 n)))%Q) by (unfold Qlt; simpl; lia).
  assert (Hk : round_half_even (x * inject_Z (Z.pos (pow10 n))) <= k).
  { apply round_half_even_le. rewrite Qmake_as_div in H.
    apply (proj2 (Qmult_le_r _ _ _ Hp)) in H.
    now rewrite (Qdiv_mult_cancel _ _ Hp) in H. }
  unfold Qle. simpl. nia.
Qed.

Lemma round_between (lo hi : Z) (x : Q) n :
  (inject_Z lo <= x <= inject_Z hi)%Q ->
  (inject_Z lo <= round x n <= inject_Z hi)%Q.
Proof.
  intros [Hlo Hhi].
  assert (El : (inject_Z lo == lo * Z.pos (pow10 n) # pow10 n)%Q).
  { unfold Qeq, inject_Z. simpl. lia. }
  assert (Eh : (inject_Z hi == hi * Z.pos (pow10 n) # pow10 n)%Q).
  { unfold Qeq, inject_Z. simpl. lia. }
  split.
  - rewrite El. apply round_ge. now rewrite <- El.
  - rewrite Eh. apply round_le. now rewrite <- Eh.
Qed.

End RoundingBounds.

(** ** Floating point *)

Section FloatProps.

Import Float.

Lemma pow2_pos e : (0 < pow2 e)%Q.
Proof. apply Qpower_0_lt. reflexivity. Qed.

Lemma pow2_plus a b : (pow2 (a + b) == pow2 a * pow2 b)%Q.
Proof. apply Qpower_plus. discriminate. Qed.

Lemma pow2_le a b : a <= b -> (pow2 a <= pow2 b)%Q.
Proof. intros H. apply Qpower_le_compat_l; [exact H | discriminate]. Qed.

Lemma pow2_le_inv a b : (pow2 a <= pow2 b)%Q -> a <= b.
Proof. intros H. apply (Qpower_le_compat_l_inv 2); [exact H | reflexivity]. Qed.

Lemma pow2_lt_inv a b : (pow2 a < pow2 b)%Q -> a < b.
Proof. intros H. apply (Qpower_lt_compat_l_inv 2); [exact H | reflexivity]. Qed.

Lemma pow2_inject n : 0 <= n -> (pow2 n == inject_Z (2 ^ n))%Q.
Proof. intros H. unfold pow2. rewrite Zpower_Qpower by exact H. reflexivity. Qed.

Lemma Qabs_Qmake n d : Qabs (n # d) = (Z.abs n # d).
Proof. reflexivity. Qed.

Lemma Qmake_div n d : (n # d == inject_Z n / inject_Z (Z.pos d))%Q.
Proof. unfold Qeq, Qdiv, Qmult, Qinv, inject_Z. simpl. lia. Qed.

(** [ilog2] is the binary order of magnitude. *)
Lemma ilog2_spec q :
  ~ (q == 0)%Q -> (pow2 (ilog2 q) <= Qabs q < pow2 (ilog2 q + 1))%Q.
Proof.
  destruct q as [n d]. intros Hq.
  assert (Hn : 0 < Z.abs n).
  { destruct (Z.eq_dec n 0) as [->|]; [exfalso; apply Hq; reflexivity | lia]. }
  unfold ilog2. cbn [Qnum Qden]. rewrite Qabs_Qmake.
  set (N := Z.abs n) in *.
  destruct (Z.log2_spec N Hn) as [Ha1 Ha2].
  destruct (Z.log2_spec (Z.pos d) eq_refl) as [Hb1 Hb2].
  pose proof (Z.log2_nonneg N) as Ha0.
  pose proof (Z.log2_nonneg (Z.pos d)) as Hb0.
  set (a := Z.log2 N) in *. set (b := Z.log2 (Z.pos d)) in *.
  assert (HA1 : (pow2 a <= inject_Z N)%Q)
    by (rewrite pow2_inject by lia; now rewrite <- Zle_Qle).
  assert (HA2 : (inject_Z N < pow2 (a + 1))%Q).
  { rewrite pow2_inject by lia. rewrite <- Zlt_Qlt.
    replace (a + 1) with (Z.succ a) by lia. exact Ha2. }
  assert (HB1 : (pow2 b <= inject_Z (Z.pos d))%Q)
    by (rewrite pow2_inject by lia; now rewrite <- Zle_Qle).
  assert (HB2 : (inject_Z (Z.pos d) < pow2 (b + 1))%Q).
  { rewrite pow2_inject by lia. rewrite <- Zlt_Qlt.
    replace (b + 1) with (Z.succ b) by lia. exact Hb2. }
  assert (El : (pow2 a == pow2 (a - b) * pow2 b)%Q).
  { rewrite <- pow2_plus. replace (a - b + b) with a by lia. reflexivity. }
  assert (El1 : (pow2 (a + 1) == pow2 (a - b + 1) * pow2 b)%Q).
  { rewrite <- pow2_plus. replace (a - b + 1 + b) with (a + 1) by lia.
    reflexivity. }
  assert (El3 : (pow2 a == pow2 (a - b - 1) * pow2 (b + 1))%Q).
  { rewrite <- pow2_plus. replace (a - b - 1 + (b + 1)) with a by lia.
    reflexivity. }
  pose proof (pow2_pos b) as Pb. pose proof (pow2_pos (b + 1)) as Pb1.
  pose proof (pow2_pos (a - b)) as Pl. pose proof (pow2_pos (a - b - 1)) as Pl1.
  pose proof (pow2_pos (a - b + 1)) as Pl2.
  assert (HD : (0 < inject_Z (Z.pos d))%Q) by (unfold Qlt; simpl; lia).
  destruct (Qle_bool (pow2 (a - b)) (N # d)) eqn:E.
  - apply Qle_bool_iff in E. rewrite (Qmake_div N d) in *.
    revert HA1 HA2 HB1 HB2 El El1 El3 Pb Pb1 Pl Pl1 Pl2 HD E.
    generalize (inject_Z N), (inject_Z (Z.pos d)), (pow2 a), (pow2 (a + 1)),
      (pow2 b), (pow2 (b + 1)), (pow2 (a - b)), (pow2 (a - b - 1)),
      (pow2 (a - b + 1)).
    intros A D pa pa1 pb pb1 pl pl1 pl2.
    intros HA1 HA2 HB1 HB2 El El1 El3 Pb Pb1 Pl Pl1 Pl2 HD E.
    split; [exact E|].
    apply Qlt_shift_div_r; [exact HD|]. nra.
  - assert (E' : (N # d < pow2 (a - b))%Q).
    { apply Qnot_le_lt. intros H. apply Qle_bool_iff in H. congruence. }
    clear E. replace (a - b - 1 + 1) with (a - b) by lia.
    rewrite (Qmake_div N d) in *.
    revert HA1 HA2 HB1 HB2 El El1 El3 Pb Pb1 Pl Pl1 Pl2 HD E'.
    generalize (inject_Z N), (inject_Z (Z.pos d)), (pow2 a), (pow2 (a + 1)),
      (pow2 b), (pow2 (b + 1)), (pow2 (a - b)), (pow2 (a - b - 1)),
      (pow2 (a - b + 1)).
    intros A D pa pa1 pb pb1 pl pl1 pl2.
    intros HA1 HA2 HB1 HB2 El El1 El3 Pb Pb1 Pl Pl1 Pl2 HD E'.
    split; [|exact E'].
    apply Qle_shift_div_l; [exact HD|]. nra.
Qed.


Lemma Qabs_cases (q : Q) :
  (0 <= q /\ Qabs q == q)%Q \/ (q < 0 /\ Qabs q == - q)%Q.
Proof.
  destruct (Qlt_le_dec q 0) as [H|H].
  - right. split; [exact H|]. apply Qabs_neg. lra.
  - left. split; [exact H|]. now apply Qabs_pos.
Qed.

(** A real in the range of the normal doubles is rounded to a finite double
    of the same sign, with a relative error of at most 2^-53. *)
Lemma nearest_normal q :
  (pow2 (-1022) <= Qabs q)%Q -> (Qabs q <= pow2 1023)%Q ->
  exists v,
    nearest q = Finite v /\
    (Qabs (v - q) <= Qabs q * pow2 (-53))%Q /\
    (0 < q -> 0 < v)%Q /\ (q < 0 -> v < 0)%Q.
Proof.
  intros Hlo Hhi.
  assert (Hq : ~ (q == 0)%Q).
  { intros E. rewrite E in Hlo. revert Hlo. vm_compute. intros H. now apply H. }
  destruct (ilog2_spec q Hq) as [Hl1 Hl2].
  assert (HL1 : -1022 <= ilog2 q).
  { assert (pow2 (-1022) < pow2 (ilog2 q + 1))%Q by lra.
    apply pow2_lt_inv in H. lia. }
  assert (HL2 : ilog2 q <= 1023).
  { apply pow2_le_inv. lra. }
  unfold nearest, ulp_exponent.
  replace (Z.max (ilog2 q - 52) (-1074)) with (ilog2 q - 52) by lia.
  set (L := ilog2 q) in *.
  pose proof (round_half_even_bounds (q / pow2 (L - 52))) as [Hr1 Hr2].
  set (m := round_half_even (q / pow2 (L - 52))) in *.
  assert (EL : (pow2 L == pow2 (L - 52) * pow2 52)%Q).
  { rewrite <- pow2_plus. replace (L - 52 + 52) with L by lia. reflexivity. }
  assert (E53 : (pow2 (-53) * pow2 52 == 1 # 2)%Q) by reflexivity.
  assert (E52 : (1 <= pow2 52)%Q) by (vm_compute; discriminate).
  assert (E1024 : (pow2 1023 * (1 + pow2 (-53)) < pow2 1024)%Q)
    by (vm_compute; reflexivity).
  pose proof (pow2_pos (L - 52)) as HP. pose proof (pow2_pos (-53)) as H53.
  pose proof (pow2_pos 1023) as H1023.
  assert (Ey : (q / pow2 (L - 52) * pow2 (L - 52) == q)%Q) by (field; lra).
  clearbody m. revert Hr1 Hr2 Ey EL HP.
  generalize (pow2 (L - 52)). intros P. generalize (q / P)%Q.
  intros y Hr1 Hr2 Ey EL HP.
  assert (Eabs : (Qabs q == Qabs y * P)%Q).
  { rewrite <- Ey at 1. rewrite Qabs_Qmult, (Qabs_pos P) by lra. reflexivity. }
  assert (Hy : (pow2 52 <= Qabs y)%Q).
  { apply (proj1 (Qmult_le_r _ _ _ HP)).
    rewrite <- Eabs, (Qmult_comm (pow2 52)), <- EL. exact Hl1. }
  assert (Hd : (Qabs (inject_Z m - y) <= 1 # 2)%Q)
    by (apply Qabs_Qle_condition; split; lra).
  assert (Ediff : (inject_Z m * P - q == (inject_Z m - y) * P)%Q)
    by (rewrite <- Ey; ring).
  assert (Hhalf : ((1 # 2) * P <= Qabs q * pow2 (-53))%Q).
  { assert (E : ((1 # 2) * P == pow2 L * pow2 (-53))%Q).
    { rewrite EL, <- E53. ring. }
    rewrite E. apply Qmult_le_compat_r; [exact Hl1 | lra]. }
  assert (Hbound : (Qabs (inject_Z m * P - q) <= Qabs q * pow2 (-53))%Q).
  { rewrite Ediff, Qabs_Qmult, (Qabs_pos P) by lra.
    apply Qle_trans with ((1 # 2) * P)%Q; [|exact Hhalf].
    apply Qmult_le_compat_r; [exact Hd | lra]. }
  assert (Hm1 : (pow2 52 - (1 # 2) <= Qabs (inject_Z m))%Q).
  { assert (Ht : (Qabs y <= Qabs (inject_Z m) + Qabs (y - inject_Z m))%Q).
    { pose proof (Qabs_triangle (inject_Z m) (y - inject_Z m)) as Ht.
      assert (E : (Qabs (inject_Z m + (y - inject_Z m)) == Qabs y)%Q)
        by (apply Qabs_wd; ring).
      rewrite E in Ht. exact Ht. }
    rewrite (Qabs_Qminus y) in Ht. lra. }
  assert (Hm0 : m <> 0).
  { intros E. rewrite E in Hm1. change (Qabs (inject_Z 0)) with 0%Q in Hm1. lra. }
  assert (Hsign : (0 < q -> 0 < inject_Z m * P)%Q /\ (q < 0 -> inject_Z m * P < 0)%Q).
  { assert (Hq0 : (0 < Qabs q)%Q).
    { apply Qlt_le_trans with (pow2 (-1022)); [apply pow2_pos | exact Hlo]. }
    assert (Hsmall : (Qabs q * pow2 (-53) < Qabs q)%Q).
    { assert (pow2 (-53) < 1)%Q by reflexivity.
      assert (E : (Qabs q == Qabs q * 1)%Q) by ring.
      rewrite E at 2. apply Qmult_lt_l; assumption. }
    apply Qabs_Qle_condition in Hbound.
    destruct (Qabs_cases q) as [[Hs Ea]|[Hs Ea]]; rewrite Ea in *;
      split; intros Hs'; lra. }
  assert (Hfin : Qle_bool (pow2 1024) (Qabs (inject_Z m * P)) = false).
  { destruct (Qle_bool _ _) eqn:E; [|reflexivity]. exfalso.
    apply Qle_bool_iff in E.
    assert (Ht : (Qabs (inject_Z m * P)
                  <= Qabs q + Qabs (inject_Z m * P - q))%Q).
    { pose proof (Qabs_triangle q (inject_Z m * P - q)) as Ht.
      assert (E' : (Qabs (q + (inject_Z m * P - q)) == Qabs (inject_Z m * P))%Q)
        by (apply Qabs_wd; ring).
      rewrite E' in Ht. exact Ht. }
    assert (Hb2 : (Qabs q * pow2 (-53) <= pow2 1023 * pow2 (-53))%Q)
      by (apply Qmult_le_compat_r; [exact Hhi | lra]).
    lra. }
  rewrite Hfin. destruct (Z.eqb_spec m 0) as [?|_]; [contradiction|].
  exists (Qred (inject_Z m * P)). split; [reflexivity|].
  rewrite Qred_correct. split; [exact Hbound | exact Hsign].
Qed.


Lemma Qred_inject_Z n : Qred (inject_Z n) = inject_Z n.
Proof.
  unfold Qred, inject_Z.
  pose proof (Z.ggcd_gcd n 1) as Hg.
  pose proof (Z.ggcd_correct_divisors n 1) as Hd.
  destruct (Z.ggcd n 1) as [g [q1 q2]]. cbn [fst snd] in *.
  rewrite Z.gcd_1_r in Hg. subst g. destruct Hd as [H1 H2].
  replace q1 with n by lia. replace q2 with 1 by lia. reflexivity.
Qed.

(** Integers of magnitude up to 2^53 are doubles. *)
Lemma nearest_exact_int n :
  Z.abs n <= 2 ^ 53 -> nearest (inject_Z n) = Finite (inject_Z n).
Proof.
  intros Hn. destruct (Z.eq_dec n 0) as [->|Hn0]; [reflexivity|].
  assert (Hq : ~ (inject_Z n == 0)%Q).
  { intros E. apply Hn0. unfold Qeq in E. simpl in E. lia. }
  destruct (ilog2_spec _ Hq) as [Hl1 Hl2].
  assert (Eabs : Qabs (inject_Z n) = inject_Z (Z.abs n)) by reflexivity.
  rewrite Eabs in Hl1, Hl2.
  assert (HL0 : 0 <= ilog2 (inject_Z n)).
  { assert (H : (pow2 0 < pow2 (ilog2 (inject_Z n) + 1))%Q).
    { apply Qle_lt_trans with (inject_Z (Z.abs n)); [|exact Hl2].
      change (pow2 0) with (inject_Z 1). rewrite <- Zle_Qle. lia. }
    apply pow2_lt_inv in H. lia. }
  assert (HL1 : ilog2 (inject_Z n) <= 53).
  { apply pow2_le_inv. apply Qle_trans with (inject_Z (Z.abs n)); [exact Hl1|].
    rewrite (pow2_inject 53) by lia. now rewrite <- Zle_Qle. }
  destruct (Z.eq_dec (ilog2 (inject_Z n)) 53) as [E53|E53].
  { rewrite E53, (pow2_inject 53) in Hl1 by lia. rewrite <- Zle_Qle in Hl1.
    assert (Hc : n = 2 ^ 53 \/ n = - 2 ^ 53) by lia.
    destruct Hc as [->| ->]; vm_compute; reflexivity. }
  unfold nearest, ulp_exponent.
  replace (Z.max (ilog2 (inject_Z n) - 52) (-1074))
    with (ilog2 (inject_Z n) - 52) by lia.
  set (L := ilog2 (inject_Z n)) in *.
  assert (EP : (pow2 (L - 52) * pow2 (52 - L) == 1)%Q).
  { rewrite <- pow2_plus. replace (L - 52 + (52 - L)) with 0 by lia.
    reflexivity. }
  assert (Ek : (pow2 (52 - L) == inject_Z (2 ^ (52 - L)))%Q)
    by (apply pow2_inject; lia).
  pose proof (pow2_pos (L - 52)) as HP.
  assert (Ey : (inject_Z n / pow2 (L - 52) == inject_Z (n * 2 ^ (52 - L)))%Q).
  { rewrite inject_Z_mult, <- Ek.
    apply (Qmult_inj_r _ _ (pow2 (L - 52))); [lra|].
    rewrite <- Qmult_assoc, (Qmult_comm (pow2 (52 - L))), EP. field. lra. }
  rewrite (round_half_even_proper _ _ Ey), round_half_even_inject_Z.
  assert (Ev : (inject_Z (n * 2 ^ (52 - L)) * pow2 (L - 52) == inject_Z n)%Q).
  { rewrite inject_Z_mult, <- Ek, <- Qmult_assoc,
      (Qmult_comm (pow2 (52 - L))), EP. ring. }
  assert (Hfin : Qle_bool (pow2 1024)
                   (Qabs (inject_Z (n * 2 ^ (52 - L)) * pow2 (L - 52))) = false).
  { destruct (Qle_bool _ _) eqn:E; [|reflexivity]. exfalso.
    apply Qle_bool_iff in E.
    assert (E' : (Qabs (inject_Z (n * 2 ^ (52 - L)) * pow2 (L - 52))
                  == inject_Z (Z.abs n))%Q).
    { rewrite <- Eabs. apply Qabs_wd. exact Ev. }
    rewrite E' in E.
    assert (Hb : (inject_Z (Z.abs n) <= inject_Z (2 ^ 53))%Q)
      by now rewrite <- Zle_Qle.
    assert (Hc : (inject_Z (2 ^ 53) < pow2 1024)%Q) by (vm_compute; reflexivity).
    lra. }
  rewrite Hfin.
  assert (Hk : 0 < 2 ^ (52 - L)) by (apply Z.pow_pos_nonneg; lia).
  destruct (Z.eqb_spec (n * 2 ^ (52 - L)) 0) as [E0|_]; [nia|].
  f_equal. rewrite (Qred_complete _ _ Ev).
  apply Qred_inject_Z.
Qed.


(** [round(x, 2)] of a finite double: the nearest double to the decimal,
    or a signed zero when the decimal is zero. *)
Lemma float_round_two v :
  (Qabs v <= pow2 1022)%Q ->
  (exists r, Float.round (Finite v) 2 = Finite r /\
             (Qabs (r - Py.round v 2) <= Qabs (Py.round v 2) * pow2 (-53))%Q /\
             (0 <= v -> 0 <= r)%Q) \/
  (Float.round (Finite v) 2 = NegZero /\ (Py.round v 2 == 0)%Q /\ (v < 0)%Q).
Proof.
  intros Hv. unfold Float.round.
  pose proof (round_error v 2) as Herr.
  destruct (round_decimal v 2) as [k Hk].
  set (d := Py.round v 2) in *.
  destruct (Qeq_bool d 0) eqn:E0.
  - apply Qeq_bool_iff in E0. unfold zero.
    destruct (Qltb v 0) eqn:Es.
    + right. apply Qltb_lt in Es. auto.
    + left. exists 0%Q. split; [reflexivity|]. split; [|intros _; apply Qle_refl].
      rewrite E0. vm_compute. discriminate.
  - assert (Hd0 : ~ (d == 0)%Q).
    { intros E. apply Qeq_bool_iff in E. congruence. }
    assert (Hk0 : k <> 0).
    { intros ->. apply Hd0. rewrite Hk. reflexivity. }
    assert (Hlo : (pow2 (-1022) <= Qabs d)%Q).
    { rewrite (Qabs_wd _ _ Hk), Qabs_Qmake.
      apply Qle_trans with (1 # 100)%Q; [vm_compute; discriminate|].
      unfold Qle. cbn. lia. }
    assert (Hhi : (Qabs d <= pow2 1023)%Q).
    { pose proof (Qabs_triangle v (d - v)) as Ht.
      assert (E : (Qabs (v + (d - v)) == Qabs d)%Q) by (apply Qabs_wd; ring).
      rewrite E in Ht. change (1 # 2 * pow10 2)%Q with (1 # 200)%Q in Herr.
      assert (pow2 1022 + (1 # 200) <= pow2 1023)%Q by (vm_compute; discriminate).
      lra. }
    destruct (nearest_normal d Hlo Hhi) as (r & Hr & Hb & Hpos & Hneg).
    left. exists r. split; [exact Hr|]. split; [exact Hb|].
    intros Hv0.
    assert (Hd : (0 <= d)%Q).
    { pose proof (round_ge 0 v 2) as Hge.
      assert (E : (0 # pow10 2 == 0)%Q) by reflexivity.
      rewrite E in Hge. now apply Hge. }
    assert (0 < d)%Q by (destruct (Qlt_le_dec 0 d) as [H|H]; [exact H|];
                        exfalso; apply Hd0; lra).
    apply Qlt_le_weak. now apply Hpos.
Qed.

Lemma Qabs_inject_Z n : Qabs (inject_Z n) = inject_Z (Z.abs n).
Proof. reflexivity. Qed.

Lemma Qabs_div a b : ~ (b == 0)%Q -> (Qabs (a / b) == Qabs a / Qabs b)%Q.
Proof.
  intros Hb. unfold Qdiv. rewrite Qabs_Qmult, Qabs_Qinv. reflexivity.
Qed.

(** The quotient of two integers of magnitude between 1 and 2^53 is rounded
    once, to a finite double. *)
Lemma int_truediv_normal a b :
  1 <= Z.abs a <= 2 ^ 53 -> 1 <= Z.abs b <= 2 ^ 53 ->
  exists v,
    int_truediv a b = Ok (Finite v) /\
    (Qabs (v - inject_Z a / inject_Z b)
     <= Qabs (inject_Z a / inject_Z b) * pow2 (-53))%Q /\
    (0 < inject_Z a / inject_Z b -> 0 < v)%Q /\
    (inject_Z a / inject_Z b < 0 -> v < 0)%Q.
Proof.
  intros Ha Hb. unfold int_truediv.
  destruct (Z.eqb_spec b 0) as [->|Hb0]; [cbn in Hb; lia|].
  destruct (Z.eqb_spec a 0) as [->|Ha0]; [cbn in Ha; lia|].
  assert (HB : ~ (inject_Z b == 0)%Q) by now apply inject_Z_nonzero.
  assert (Eabs : (Qabs (inject_Z a / inject_Z b)
                  == inject_Z (Z.abs a) / inject_Z (Z.abs b))%Q).
  { rewrite Qabs_div by exact HB. rewrite !Qabs_inject_Z. reflexivity. }
  assert (HA1 : (1 <= inject_Z (Z.abs a))%Q) by (rewrite <- (Zle_Qle 1); lia).
  assert (HA2 : (inject_Z (Z.abs a) <= inject_Z (2 ^ 53))%Q)
    by (rewrite <- Zle_Qle; lia).
  assert (HB1 : (1 <= inject_Z (Z.abs b))%Q) by (rewrite <- (Zle_Qle 1); lia).
  assert (HB2 : (inject_Z (Z.abs b) <= inject_Z (2 ^ 53))%Q)
    by (rewrite <- Zle_Qle; lia).
  assert (E53 : (inject_Z (2 ^ 53) == 9007199254740992)%Q) by reflexivity.
  assert (Hlo : (pow2 (-1022) <= Qabs (inject_Z a / inject_Z b))%Q).
  { rewrite Eabs. apply Qle_trans with (1 / inject_Z (2 ^ 53))%Q;
      [vm_compute; discriminate|].
    revert HA1 HA2 HB1 HB2 E53.
    generalize (inject_Z (Z.abs a)), (inject_Z (Z.abs b)), (inject_Z (2 ^ 53)).
    intros A B C HA1 HA2 HB1 HB2 E53.
    apply Qle_shift_div_l; [lra|].
    assert (E : (1 / C * B == B / C)%Q) by (field; lra). rewrite E.
    apply Qle_shift_div_r; [lra|].
    apply Qle_trans with (1 * C)%Q; [lra|].
    apply Qmult_le_r; lra. }
  assert (Hhi : (Qabs (inject_Z a / inject_Z b) <= pow2 1023)%Q).
  { rewrite Eabs. apply Qle_trans with (inject_Z (2 ^ 53));
      [|vm_compute; discriminate].
    revert HA1 HA2 HB1 HB2 E53.
    generalize (inject_Z (Z.abs a)), (inject_Z (Z.abs b)), (inject_Z (2 ^ 53)).
    intros A B C HA1 HA2 HB1 HB2 E53.
    apply Qle_shift_div_r; [lra|].
    apply Qle_trans with (C * 1)%Q; [lra|].
    apply Qmult_le_l; lra. }
  destruct (nearest_normal _ Hlo Hhi) as (v & -> & Hbound & Hsign).
  exists v. auto.
Qed.

(** A value within 2^-53, relatively, of a real has between half and
    twice its magnitude. *)
Lemma close_abs v e :
  (Qabs (v - e) <= Qabs e * pow2 (-53))%Q ->
  (Qabs e * (1 # 2) <= Qabs v <= Qabs e * 2)%Q.
Proof.
  intros H. pose proof (Qabs_nonneg e) as He.
  assert (Hp : (Qabs e * pow2 (-53) <= Qabs e * (1 # 2))%Q).
  { rewrite !(Qmult_comm (Qabs e)). apply Qmult_le_compat_r; [|exact He].
    vm_compute. discriminate. }
  apply Qabs_Qle_condition in H.
  destruct (Qabs_cases e) as [[Hs Ea]|[Hs Ea]]; rewrite Ea in *;
    destruct (Qabs_cases v) as [[Hsv Ev]|[Hsv Ev]]; rewrite Ev; split; lra.
Qed.

(** An integer of magnitude up to 2^53 divided by a double of magnitude
    between 1/120 and 2^54: the quotient is rounded once, to a finite double
    or a signed zero. *)
Lemma float_truediv_normal (t : Z) (mv : Q) :
  Z.abs t <= 2 ^ 53 ->
  (1 # 120 <= Qabs mv)%Q -> (Qabs mv <= pow2 54)%Q ->
  exists x,
    float_truediv (Finite (inject_Z t)) (Finite mv) = Ok x /\
    (x = NegZero \/ exists w, x = Finite w) /\
    (Qabs (value x - inject_Z t / mv)
     <= Qabs (inject_Z t / mv) * pow2 (-53))%Q /\
    (Qabs (value x) <= pow2 1022)%Q.
Proof.
  intros Ht Hlo Hhi.
  assert (Hm0 : ~ (mv == 0)%Q).
  { intros E. rewrite E in Hlo. revert Hlo. vm_compute. intros H. now apply H. }
  unfold float_truediv, is_zero.
  destruct (Qeq_bool mv 0) eqn:E0; [apply Qeq_bool_iff in E0; contradiction|].
  cbn [value].
  destruct (Qeq_bool (inject_Z t) 0) eqn:Et.
  - apply Qeq_bool_iff in Et.
    assert (Eq : (inject_Z t / mv == 0)%Q) by (rewrite Et; field; exact Hm0).
    exists (zero (is_negative (Finite mv))). split; [reflexivity|].
    assert (Ev : value (zero (is_negative (Finite mv))) = 0%Q)
      by (destruct (is_negative _); reflexivity).
    split; [destruct (is_negative _); [now left | right; now exists 0%Q]|].
    rewrite Ev. split; [|vm_compute; discriminate].
    rewrite (Qabs_wd _ _ Eq).
    assert (E : (Qabs (0 - inject_Z t / mv) == 0)%Q).
    { rewrite (Qabs_wd (0 - inject_Z t / mv) 0); [reflexivity|]. rewrite Eq. ring. }
    rewrite E. vm_compute. discriminate.
  - assert (Ht0 : t <> 0).
    { intros ->. discriminate Et. }
    assert (Eabs : (Qabs (inject_Z t / mv) == inject_Z (Z.abs t) / Qabs mv)%Q).
    { rewrite Qabs_div by exact Hm0. rewrite Qabs_inject_Z. reflexivity. }
    assert (HT1 : (1 <= inject_Z (Z.abs t))%Q) by (rewrite <- (Zle_Qle 1); lia).
    assert (HT2 : (inject_Z (Z.abs t) <= inject_Z (2 ^ 53))%Q)
      by (rewrite <- Zle_Qle; lia).
    assert (E53 : (inject_Z (2 ^ 53) == 9007199254740992)%Q) by reflexivity.
    assert (E54 : (pow2 54 == 18014398509481984)%Q) by reflexivity.
    assert (Hq1 : (1 # 18014398509481984 <= Qabs (inject_Z t / mv))%Q).
    { rewrite Eabs. revert HT1 Hlo Hhi E54.
      generalize (inject_Z (Z.abs t)), (Qabs mv), (pow2 54).
      intros T M P HT1 Hlo Hhi E54.
      apply Qle_shift_div_l; [lra|]. nra. }
    assert (Hq2 : (Qabs (inject_Z t / mv) <= 1080863910568919040)%Q).
    { rewrite Eabs. revert HT1 HT2 Hlo Hhi E53.
      generalize (inject_Z (Z.abs t)), (Qabs mv), (inject_Z (2 ^ 53)).
      intros T M P HT1 HT2 Hlo Hhi E53.
      apply Qle_shift_div_r; [lra|]. nra. }
    assert (Hlo' : (pow2 (-1022) <= Qabs (inject_Z t / mv))%Q).
    { apply Qle_trans with (1 # 18014398509481984)%Q; [|exact Hq1].
      vm_compute. discriminate. }
    assert (Hhi' : (Qabs (inject_Z t / mv) <= pow2 1023)%Q).
    { apply Qle_trans with 1080863910568919040%Q; [exact Hq2|].
      vm_compute. discriminate. }
    destruct (nearest_normal _ Hlo' Hhi') as (w & Hw & Hb & _).
    exists (Finite w). split; [now rewrite Hw|].
    split; [right; now exists w|]. cbn [value]. split; [exact Hb|].
    destruct (close_abs _ _ Hb) as [_ Hc].
    apply Qle_trans with (1080863910568919040 * 2)%Q; [lra|].
    vm_compute. discriminate.
Qed.

End FloatProps.

(** ** Record normaliser *)

Section NormalizerProps.

Import Float Normalizer.

(** C2 (as the code has it).  [_calculate_kda] never raises a
    [ZeroDivisionError].  For non-negative counters with kills + assists and
    deaths at most 2^53: with zero deaths the result is the float
    kills + assists, exactly; with positive deaths Python's division gives
    the double [quotient], the exact quotient rounded once (relative error
    at most 2^-53), [round(quotient, 2)] takes the two-decimal number
    [rounded] nearest to it, ties to even (so within 0.005 of [quotient]),
    and the result is that decimal as a double (again one rounding). *)
Theorem calculate_kda_spec (kills deaths assists : Z) :
  _calculate_kda kills deaths assists <> Raise ZeroDivisionError /\
  (0 <= kills -> 0 <= deaths -> 0 <= assists ->
   kills + assists <= 2 ^ 53 -> deaths <= 2 ^ 53 ->
   (deaths = 0 ->
    _calculate_kda kills deaths assists
    = Ok (Finite (inject_Z (kills + assists)))) /\
   (0 < deaths ->
    let exact := (inject_Z (kills + assists) / inject_Z deaths)%Q in
    exists quotient rounded result : Q,
      int_truediv (kills + assists) deaths = Ok (Finite quotient) /\
      (Qabs (quotient - exact) <= exact * pow2 (-53))%Q /\
      rounded = Py.round quotient 2 /\
      decimal 2 rounded /\
      (Qabs (rounded - quotient) <= 1 # 200)%Q /\
      _calculate_kda kills deaths assists = Ok (Finite result) /\
      (Qabs (result - rounded) <= rounded * pow2 (-53))%Q /\
      (Qabs (result - exact)
       <= (1 # 200) + (exact + rounded) * pow2 (-53))%Q)).
Proof.
  split.
  - unfold _calculate_kda, float_of_int, int_truediv.
    destruct (deaths =? 0).
    + destruct (nearest _); discriminate.
    + destruct (kills + assists =? 0); [discriminate|].
      destruct (nearest _); discriminate.
  - intros Hk Hd Ha Hka Hd53. split.
    + intros ->. unfold _calculate_kda, float_of_int. cbn [Z.eqb].
      rewrite nearest_exact_int by lia. reflexivity.
    + intros Hpos. cbn zeta. unfold _calculate_kda.
      destruct (Z.eqb_spec deaths 0) as [?|_]; [lia|].
      set (exact := (inject_Z (kills + assists) / inject_Z deaths)%Q).
      assert (HD : (0 < inject_Z deaths)%Q) by (rewrite <- (Zlt_Qlt 0); lia).
      assert (HN : (0 <= inject_Z (kills + assists))%Q)
        by (rewrite <- (Zle_Qle 0); lia).
      assert (Hex0 : (0 <= exact)%Q) by (apply Qle_shift_div_l; lra).
      assert (Hex1 : (exact <= inject_Z (2 ^ 53))%Q).
      { apply Qle_shift_div_r; [exact HD|].
        assert (inject_Z (kills + assists) <= inject_Z (2 ^ 53))%Q
          by (rewrite <- Zle_Qle; lia).
        assert (1 <= inject_Z deaths)%Q by (rewrite <- (Zle_Qle 1); lia).
        assert (0 < inject_Z (2 ^ 53))%Q by reflexivity.
        apply Qle_trans with (inject_Z (2 ^ 53) * 1)%Q; [lra|].
        apply Qmult_le_l; lra. }
      assert (Hq : exists quotient,
                 int_truediv (kills + assists) deaths = Ok (Finite quotient) /\
                 (Qabs (quotient - exact) <= exact * pow2 (-53))%Q /\
                 (0 <= quotient)%Q).
      { destruct (Z.eq_dec (kills + assists) 0) as [E|E].
        - exists 0%Q. unfold int_truediv.
          destruct (Z.eqb_spec deaths 0) as [?|_]; [lia|].
          rewrite E. cbn [Z.eqb].
          destruct (Z.ltb_spec deaths 0) as [?|_]; [lia|].
          split; [reflexivity|]. split; [|apply Qle_refl].
          assert (E0 : (exact == 0)%Q).
          { unfold exact. rewrite E. unfold Qeq. cbn. lia. }
          rewrite E0. vm_compute. discriminate.
        - destruct (int_truediv_normal (kills + assists) deaths)
            as (v & Hv & Hb & Hs & _); [lia | lia |].
          fold exact in Hb, Hs. rewrite (Qabs_pos exact Hex0) in Hb.
          exists v. split; [exact Hv|]. split; [exact Hb|].
          apply Qlt_le_weak, Hs.
          apply Qlt_shift_div_l; [exact HD|].
          assert (0 < inject_Z (kills + assists))%Q
            by (rewrite <- (Zlt_Qlt 0); lia).
          lra. }
      destruct Hq as (quotient & Hdiv & Hqb & Hq0).
      rewrite Hdiv. cbn [res_bind].
      assert (H53 : (pow2 (-53) <= 1)%Q) by (vm_compute; discriminate).
      pose proof (pow2_pos (-53)) as H53'.
      assert (Hsmall : (exact * pow2 (-53) <= exact)%Q).
      { assert (pow2 (-53) * exact <= 1 * exact)%Q
          by (apply Qmult_le_compat_r; lra).
        lra. }
      apply Qabs_Qle_condition in Hqb.
      assert (Hqhi : (Qabs quotient <= pow2 1022)%Q).
      { rewrite (Qabs_pos quotient Hq0).
        assert (2 * inject_Z (2 ^ 53) <= pow2 1022)%Q by (vm_compute; discriminate).
        lra. }
      destruct (float_round_two quotient Hqhi)
        as [(r & Hr & Hrb & Hr0)|(_ & _ & Hneg)]; [|lra].
      pose proof (round_error quotient 2) as Herr.
      change (1 # 2 * pow10 2)%Q with (1 # 200)%Q in Herr.
      assert (Hd0 : (0 <= Py.round quotient 2)%Q).
      { pose proof (round_ge 0 quotient 2) as Hge.
        assert (E : (0 # pow10 2 == 0)%Q) by reflexivity.
        rewrite E in Hge. now apply Hge. }
      rewrite (Qabs_pos _ Hd0) in Hrb.
      exists quotient, (Py.round quotient 2), r.
      split; [reflexivity|]. split; [apply Qabs_Qle_condition; exact Hqb|].
      split; [reflexivity|]. split; [apply round_decimal|].
      split; [exact Herr|]. split; [now rewrite Hr|]. split; [exact Hrb|].
      apply Qabs_Qle_condition in Herr, Hrb. apply Qabs_Qle_condition.
      revert Hqb Herr Hrb.
      generalize (Py.round quotient 2), (pow2 (-53)).
      intros d e Hqb Herr Hrb. split; nra.
Qed.

(** The scenario of the specification, (5,2,3), (0,5,1) and (10,0,2), gives
    the doubles 4.0, 0.2 and 12.0. *)
Lemma calculate_kda_spec_witness :
  _calculate_kda 10 0 2 = Ok (Finite 12) /\
  (exists result, _calculate_kda 5 2 3 = Ok (Finite result) /\
                  (Qabs (result - 4) <= 1 # 100)%Q) /\
  (exists result, _calculate_kda 0 5 1 = Ok (Finite result) /\
                  (Qabs (result - (2 # 10)) <= 1 # 100)%Q).
Proof.
  split; [|split].
  - destruct (proj2 (calculate_kda_spec 10 0 2)) as [H _];
      [lia | lia | lia | vm_compute; discriminate | vm_compute; discriminate |].
    exact (H eq_refl).
  - destruct (proj2 (calculate_kda_spec 5 2 3)) as [_ H];
      [lia | lia | lia | vm_compute; discriminate | vm_compute; discriminate |].
    destruct H as (quotient & rounded & result & _ & _ & _ & _ & _ & Hrun & _);
      [lia|].
    exists result. split; [exact Hrun|].
    vm_compute in Hrun. injection Hrun as <-. vm_compute. discriminate.
  - destruct (proj2 (calculate_kda_spec 0 5 1)) as [_ H];
      [lia | lia | lia | vm_compute; discriminate | vm_compute; discriminate |].
    destruct H as (quotient & rounded & result & _ & _ & _ & _ & _ & Hrun & _);
      [lia|].
    exists result. split; [exact Hrun|].
    vm_compute in Hrun. injection Hrun as <-. vm_compute. discriminate.
Defined.

(** Binary rounding is visible in the results: 1/40 is a double slightly
    above 0.025 and 201/40 a double slightly above 5.025, so they round up,
    to the doubles 0.03 and 5.03. *)
Lemma normalizer_binary_rounding :
  _calculate_kda 1 40 0 = Ok (nearest (3 # 100)) /\
  _calculate_cs_per_minute 201 0 2400 = Ok (Double (nearest (503 # 100))).
Proof. split; vm_compute; reflexivity. Qed.

(** C2, as stated, fails beyond 2^53: with 2^53 + 1 kills and no death the
    result is the float 2^53, not kills + assists. *)
Lemma calculate_kda_beyond_float_precision :
  0 <= 9007199254740993 /\
  _calculate_kda 9007199254740993 0 0 = Ok (Finite 9007199254740992) /\
  ~ (9007199254740992 == inject_Z (9007199254740993 + 0))%Q.
Proof.
  split; [lia|]. split; [vm_compute; reflexivity|].
  vm_compute. discriminate.
Qed.

(** C3 (as the code has it).  [_calculate_cs_per_minute] never raises a
    [ZeroDivisionError] and returns the integer 0 when the duration is 0.
    For every other duration, negative ones included, with the duration and
    minions + jungle of magnitude at most 2^53: [minutes] is the double
    duration / 60 (one rounding, never zero), [quotient] is the double
    (minions + jungle) / minutes (one rounding), and the result is
    [round(quotient, 2)]: the two-decimal number nearest to [quotient], ties
    to even, as a double. *)
Theorem calculate_cs_per_minute_spec (minions jungle duration : Z) :
  _calculate_cs_per_minute minions jungle duration <> Raise ZeroDivisionError /\
  (duration = 0 ->
   _calculate_cs_per_minute minions jungle duration = Ok (Integer 0)) /\
  (duration <> 0 ->
   Z.abs duration <= 2 ^ 53 -> Z.abs (minions + jungle) <= 2 ^ 53 ->
   let total_cs := inject_Z (minions + jungle) in
   exists (minutes : Q) (quotient result : float),
     int_truediv duration 60 = Ok (Finite minutes) /\
     ~ (minutes == 0)%Q /\
     (Qabs (minutes - inject_Z duration / 60)
      <= Qabs (inject_Z duration / 60) * pow2 (-53))%Q /\
     float_truediv (Finite total_cs) (Finite minutes) = Ok quotient /\
     (Qabs (value quotient - total_cs / minutes)
      <= Qabs (total_cs / minutes) * pow2 (-53))%Q /\
     _calculate_cs_per_minute minions jungle duration = Ok (Double result) /\
     result = Float.round quotient 2 /\
     decimal 2 (Py.round (value quotient) 2) /\
     (Qabs (Py.round (value quotient) 2 - value quotient) <= 1 # 200)%Q /\
     (Qabs (value result - Py.round (value quotient) 2)
      <= Qabs (Py.round (value quotient) 2) * pow2 (-53))%Q).
Proof.
  split; [|split].
  - unfold _calculate_cs_per_minute, int_truediv. cbn [Z.eqb].
    destruct (duration =? 0); cbn [res_bind zero Z.ltb Z.compare].
    { cbn. discriminate. }
    assert (H : forall minutes : float,
               (if is_zero minutes then Ok (Integer 0)
                else
                  res_bind (float_of_int (minions + jungle)) (fun total =>
                  res_bind (float_truediv total minutes) (fun quotient =>
                  Ok (Double (Float.round quotient 2)))))
               <> Raise ZeroDivisionError).
    { intros minutes. destruct (is_zero minutes) eqn:Ez; [discriminate|].
      unfold float_of_int, float_truediv. rewrite Ez.
      destruct (nearest (inject_Z (minions + jungle))); cbn; discriminate. }
    destruct (nearest (inject_Z duration / inject_Z 60)); cbn [res_bind];
      try apply H; discriminate.
  - intros ->. reflexivity.
  - intros Hd Hd53 Ht53. cbn zeta. unfold _calculate_cs_per_minute.
    destruct (int_truediv_normal duration 60)
      as (minutes & Hmin & Hmb & Hpos & Hneg); [lia | cbn; lia |].
    change (inject_Z 60) with 60%Q in *.
    assert (Hex : ~ (inject_Z duration / 60 == 0)%Q).
    { intros E. apply (inject_Z_nonzero _ Hd).
      unfold Qeq, Qdiv, Qmult in *. simpl in *. lia. }
    assert (Hm0 : ~ (minutes == 0)%Q).
    { intros E. destruct (Qlt_le_dec 0 (inject_Z duration / 60)) as [H|H].
      - specialize (Hpos H). lra.
      - assert (H' : (inject_Z duration / 60 < 0)%Q).
        { destruct (Qlt_le_dec (inject_Z duration / 60) 0) as [H'|H'];
            [exact H'|]. exfalso. apply Hex. lra. }
        specialize (Hneg H'). lra. }
    rewrite Hmin. cbn [res_bind is_zero].
    destruct (Qeq_bool minutes 0) eqn:E0; [apply Qeq_bool_iff in E0; contradiction|].
    unfold float_of_int. rewrite nearest_exact_int by exact Ht53.
    cbn [res_bind].
    destruct (close_abs _ _ Hmb) as [Hc1 Hc2].
    assert (Eabs : (Qabs (inject_Z duration / 60)
                    == inject_Z (Z.abs duration) / 60)%Q).
    { rewrite Qabs_div by discriminate. rewrite Qabs_inject_Z. reflexivity. }
    assert (HD1 : (1 <= inject_Z (Z.abs duration))%Q)
      by (rewrite <- (Zle_Qle 1); lia).
    assert (HD2 : (inject_Z (Z.abs duration) <= inject_Z (2 ^ 53))%Q)
      by (rewrite <- Zle_Qle; lia).
    assert (E53 : (inject_Z (2 ^ 53) == 9007199254740992)%Q) by reflexivity.
    assert (E54 : (pow2 54 == 18014398509481984)%Q) by reflexivity.
    assert (Hlo : (1 # 120 <= Qabs minutes)%Q).
    { rewrite Eabs in Hc1. revert Hc1 HD1.
      generalize (inject_Z (Z.abs duration)), (Qabs minutes).
      intros D M Hc1 HD1.
      assert (E : (D / 60 * (1 # 2) == D * (1 # 120))%Q) by field.
      rewrite E in Hc1. lra. }
    assert (Hhi : (Qabs minutes <= pow2 54)%Q).
    { rewrite Eabs in Hc2. revert Hc2 HD2 E53 E54.
      generalize (inject_Z (Z.abs duration)), (Qabs minutes),
        (inject_Z (2 ^ 53)), (pow2 54).
      intros D M P53 P54 Hc2 HD2 E53 E54.
      assert (E : (D / 60 * 2 == D * (1 # 30))%Q) by field.
      rewrite E in Hc2. lra. }
    destruct (float_truediv_normal (minions + jungle) minutes Ht53 Hlo Hhi)
      as (quotient & Hq & Hshape & Hqb & Hqhi).
    rewrite Hq. cbn [res_bind].
    exists minutes, quotient, (Float.round quotient 2).
    split; [reflexivity|]. split; [exact Hm0|]. split; [exact Hmb|].
    split; [exact Hq|]. split; [exact Hqb|]. split; [reflexivity|].
    split; [reflexivity|]. split; [apply round_decimal|].
    split; [apply (round_error _ 2)|].
    destruct Hshape as [->|[w ->]].
    + cbn. discriminate.
    + cbn [value] in *.
      destruct (float_round_two w Hqhi) as [(r & -> & Hrb & _)|(-> & Hz & _)].
      * exact Hrb.
      * cbn [value]. rewrite (Qabs_wd _ _ Hz).
        assert (E : (Qabs (0 - Py.round w 2) == 0)%Q).
        { rewrite (Qabs_wd (0 - Py.round w 2) 0); [reflexivity|]. rewrite Hz. ring. }
        rewrite E. vm_compute. discriminate.
Qed.

Lemma calculate_cs_per_minute_spec_witness :
  _calculate_cs_per_minute 150 30 0 = Ok (Integer 0) /\
  exists result,
    _calculate_cs_per_minute 150 30 1800 = Ok (Double result) /\
    (value result == 6)%Q.
Proof.
  split.
  - apply (proj1 (proj2 (calculate_cs_per_minute_spec 150 30 0))). reflexivity.
  - destruct (proj2 (proj2 (calculate_cs_per_minute_spec 150 30 1800)))
      as (minutes & quotient & result & _ & _ & _ & _ & _ & Hrun & _).
    + lia.
    + vm_compute. discriminate.
    + vm_compute. discriminate.
    + exists result. split; [exact Hrun|].
      vm_compute in Hrun. injection Hrun as <-. vm_compute. reflexivity.
Defined.

(** C3, as stated, fails: with duration -60 (at most 0) and 10 minions the
    result is -10.0, not 0. *)
Lemma calculate_cs_per_minute_negative_duration :
  -60 <= 0 /\
  _calculate_cs_per_minute 10 0 (-60) = Ok (Double (Finite (-10))) /\
  _calculate_cs_per_minute 10 0 (-60) <> Ok (Integer 0) /\
  ~ (value (Finite (-10)) == 0)%Q.
Proof.
  split; [lia|]. split; [vm_compute; reflexivity|].
  split; [vm_compute; intros H; discriminate H|].
  vm_compute. discriminate.
Qed.

End NormalizerProps.

(** ** Streaks *)

Section Streak.

Import Processor Insights Spec.

Lemma leading_trues_replicate n rest :
  leading_trues (replicate n true ++ false :: rest) = n.
Proof. induction n as [|n IH]; simpl; [reflexivity | now rewrite IH]. Qed.

Lemma leading_trues_split flags :
  exists rest, flags = replicate (leading_trues flags) true ++ rest.
Proof.
  induction flags as [|[|] flags [rest IH]]; simpl.
  - now exists [].
  - exists rest. now rewrite <- IH.
  - now exists (false :: flags).
Qed.

Lemma leading_trues_le_longest flags :
  (leading_trues flags <= longest_run flags)%nat.
Proof. destruct flags as [|b flags]; simpl; lia. Qed.

Lemma replicate_le_split (m n : nat) :
  (m <= n)%nat ->
  replicate n true = replicate m true ++ replicate (n - m) true.
Proof.
  intros H. rewrite <- replicate_add. f_equal. lia.
Qed.

Lemma leading_trues_ge n rest :
  (n <= leading_trues (replicate n true ++ rest))%nat.
Proof. induction n as [|n IH]; simpl; lia. Qed.

(** [longest_run] is the largest length of a run. *)
Lemma is_run_longest_run flags n :
  is_run flags n <-> (n <= longest_run flags)%nat.
Proof.
  split.
  - intros (before & after & ->).
    induction before as [|b before IH].
    + etransitivity; [apply (leading_trues_ge n after)|].
      apply leading_trues_le_longest.
    + change ((b :: before) ++ replicate n true ++ after)
        with (b :: (before ++ replicate n true ++ after)).
      cbn [longest_run]. lia.
  - revert n. induction flags as [|b flags IH]; intros n Hn.
    + cbn in Hn. assert (n = O) as -> by lia. now exists [], [].
    + cbn [longest_run] in Hn.
      destruct (Nat.le_gt_cases n (leading_trues (b :: flags))) as [Hle|Hgt].
      * destruct (leading_trues_split (b :: flags)) as [rest Hrest].
        exists [], (replicate (leading_trues (b :: flags) - n) true ++ rest).
        rewrite Hrest at 1. rewrite (replicate_le_split _ _ Hle).
        now rewrite <- app_assoc.
      * destruct (IH n) as (before & after & ->); [lia|].
        now exists (b :: before), after.
Qed.

Lemma is_run_rev flags n : is_run (rev flags) n <-> is_run flags n.
Proof.
  assert (H : forall l, is_run l n -> is_run (rev l) n).
  { intros l (before & after & ->). exists (rev after), (rev before).
    rewrite !rev_app_distr, <- app_assoc. f_equal. f_equal.
    clear. induction n as [|n IH]; [reflexivity|].
    cbn [replicate rev]. rewrite IH, <- replicate_S_end. reflexivity. }
  split; intros Hr.
  - rewrite <- (rev_involutive flags). now apply H.
  - now apply H.
Qed.

Lemma longest_run_rev flags : longest_run (rev flags) = longest_run flags.
Proof.
  apply Nat.le_antisymm.
  - apply is_run_longest_run, (proj1 (is_run_rev _ _)), is_run_longest_run. lia.
  - apply is_run_longest_run, (proj2 (is_run_rev _ _)), is_run_longest_run. lia.
Qed.

Lemma longest_run_false c rest :
  longest_run (replicate c true ++ false :: rest) = Nat.max c (longest_run rest).
Proof.
  induction c as [|c IH].
  - reflexivity.
  - change (replicate (Datatypes.S c) true ++ false :: rest)
      with (true :: (replicate c true ++ false :: rest)).
    cbn [longest_run]. rewrite IH. cbn [leading_trues].
    rewrite leading_trues_replicate. lia.
Qed.

Lemma longest_run_replicate c : longest_run (replicate c true) = c.
Proof.
  induction c as [|c IH]; [reflexivity|].
  cbn [replicate longest_run leading_trues]. rewrite IH.
  pose proof (leading_trues_ge c []) as H. rewrite app_nil_r in H.
  pose proof (leading_trues_le_longest (replicate c true)). lia.
Qed.

(** The scan, started with [c] true values already seen and a maximum [m]
    at least [c], ends with the larger of [m] and the longest run of the
    [c] true values followed by the remaining flags. *)
Lemma streak_scan flags : forall (m : Z) (c : nat),
  Z.of_nat c <= m ->
  (foldl streak_step (m, Z.of_nat c) flags).1
  = Z.max m (Z.of_nat (longest_run (replicate c true ++ flags))).
Proof.
  induction flags as [|[|] flags IH]; intros m c Hc.
  - rewrite app_nil_r, longest_run_replicate. cbn. lia.
  - cbn [foldl streak_step].
    replace (Z.of_nat c + 1) with (Z.of_nat (Datatypes.S c)) by lia.
    rewrite IH by lia.
    replace (replicate c true ++ true :: flags)
      with (replicate (Datatypes.S c) true ++ flags).
    2:{ rewrite replicate_S_end, <- app_assoc. reflexivity. }
    pose proof (leading_trues_ge (Datatypes.S c) flags).
    pose proof (leading_trues_le_longest (replicate (Datatypes.S c) true ++ flags)).
    lia.
  - cbn [foldl streak_step]. change (m, 0) with (m, Z.of_nat O).
    rewrite (IH m O) by lia. cbn [replicate app].
    rewrite longest_run_false. lia.
Qed.

Lemma calculate_max_streak_longest_run df column :
  _calculate_max_streak df column = Z.of_nat (longest_run (map column df)).
Proof.
  unfold _calculate_max_streak. change (0, 0) with (0, Z.of_nat O).
  rewrite (streak_scan (map column df) 0 O) by lia.
  cbn [replicate app]. lia.
Qed.

(** C7. The streak computed from the most-recent-first history is the
    length of the longest run of consecutive true values of the flag taken
    in chronological order: a run of that length exists there and no run is
    longer; it is the specification's [longest_run] of the chronological
    flags; and a history whose chronological win flags are T,T,T,T,T,F,T
    has streak 5. *)
Theorem calculate_max_streak_spec (df : DataFrame) (column : MatchRecord -> bool) :
  let streak := _calculate_max_streak df column in
  let flags := map column (chronological df) in
  0 <= streak /\
  is_run flags (Z.to_nat streak) /\
  (forall n, is_run flags n -> Z.of_nat n <= streak) /\
  streak = Z.of_nat (longest_run flags) /\
  (flags = [true; true; true; true; true; false; true] -> streak = 5).
Proof.
  cbn zeta. unfold chronological.
  rewrite map_rev, calculate_max_streak_longest_run.
  set (fl := map column df).
  rewrite Nat2Z.id.
  split; [lia|]. split.
  { apply (proj2 (is_run_rev _ _)), is_run_longest_run. lia. }
  split.
  { intros n Hn. apply (proj1 (is_run_rev _ _)), is_run_longest_run in Hn. lia. }
  split.
  { now rewrite longest_run_rev. }
  intros Hfl. rewrite <- longest_run_rev, Hfl. reflexivity.
Qed.

Lemma calculate_max_streak_spec_witness :
  _calculate_max_streak Sample.seven_games win = 5.
Proof.
  apply (calculate_max_streak_spec Sample.seven_games win). reflexivity.
Defined.

End Streak.

(** ** Aggregation *)

Section Aggregation.

Import Processor Insights.

Lemma len_pos {A} (l : list A) : l <> [] -> 0 < Processor.len l.
Proof. destruct l; [congruence|]. intros _. unfold Processor.len. simpl. lia. Qed.

Lemma empty_false (df : DataFrame) : df <> [] -> empty df = false.
Proof. destruct df; [congruence | reflexivity]. Qed.

Lemma win_rate_expr_pos wins total_games :
  0 < total_games ->
  win_rate_expr wins total_games
  = Ok (round (inject_Z wins / inject_Z total_games * 100) 2).
Proof.
  intros H. unfold win_rate_expr.
  destruct (Z.ltb_spec 0 total_games) as [_|]; [|lia].
  rewrite truediv_nonzero by (apply inject_Z_nonzero; lia).
  reflexivity.
Qed.

(** On a non-empty frame the statistics are produced, and the fields the
    comparisons read are rounded means. *)
Lemma calculate_overall_stats_nonempty (df : DataFrame) :
  df <> [] ->
  exists s,
    calculate_overall_stats df = Ok (Some s) /\
    total_games s = Processor.len df /\
    win_rate s
    = round (inject_Z (win_count df) / inject_Z (Processor.len df) * 100) 2 /\
    avg_kda s = round (series_mean (fcol kda df)) 2 /\
    avg_damage_dealt s
    = round (series_mean (icol total_damage_dealt_to_champions df)) 0 /\
    avg_cs_per_minute s = round (series_mean (fcol cs_per_minute df)) 2 /\
    avg_vision_score s = round (series_mean (icol vision_score df)) 1.
Proof.
  intros Hne. unfold calculate_overall_stats.
  rewrite (empty_false _ Hne), (win_rate_expr_pos _ _ (len_pos _ Hne)).
  cbn [res_bind]. eexists. split; [reflexivity|].
  cbn [total_games win_rate avg_kda avg_damage_dealt avg_cs_per_minute
       avg_vision_score].
  repeat split.
Qed.



(** ** Growth comparison *)

Lemma midpoint_bounds (df : DataFrame) :
  20 <= Processor.len df ->
  (10 <= Z.to_nat (Processor.len df / 2) < length df)%nat.
Proof.
  unfold Processor.len. intros H.
  pose proof (Z.div_le_lower_bound (Z.of_nat (length df)) 2 10).
  pose proof (Z.div_lt (Z.of_nat (length df)) 2).
  lia.
Qed.

(** C9. With fewer than 20 records the growth comparison is empty.  With
    at least 20 it splits the most-recent-first history at index len/2 into
    the newer half (smaller indices) and the older half (larger indices),
    computes the statistics of each half, and each reported delta is newer
    minus older. *)
Theorem calculate_growth_metrics_spec (df : DataFrame) :
  (Processor.len df < 20 -> _calculate_growth_metrics df = Ok None) /\
  (20 <= Processor.len df ->
   let midpoint := Z.to_nat (Processor.len df / 2) in
   let newer := take midpoint df in
   let older := drop midpoint df in
   df = newer ++ older /\
   length newer = midpoint /\
   Processor.len newer = Processor.len df / 2 /\
   exists newer_stats older_stats growth,
     calculate_overall_stats newer = Ok (Some newer_stats) /\
     calculate_overall_stats older = Ok (Some older_stats) /\
     _calculate_growth_metrics df = Ok (Some growth) /\
     (win_rate_change growth == win_rate newer_stats - win_rate older_stats)%Q /\
     (kda_change growth == avg_kda newer_stats - avg_kda older_stats)%Q /\
     (damage_change growth
      == avg_damage_dealt newer_stats - avg_damage_dealt older_stats)%Q /\
     (cs_change growth
      == avg_cs_per_minute newer_stats - avg_cs_per_minute older_stats)%Q /\
     (vision_change growth
      == avg_vision_score newer_stats - avg_vision_score older_stats)%Q).
Proof.
  split.
  - intros H. unfold _calculate_growth_metrics.
    destruct (Z.ltb_spec (Processor.len df) 20); [reflexivity | lia].
  - intros H. cbn zeta.
    pose proof (midpoint_bounds df H) as Hmid.
    set (midpoint := Z.to_nat (Processor.len df / 2)) in *.
    assert (Hlen : length (take midpoint df) = midpoint)
      by (rewrite length_take; lia).
    split; [symmetry; apply take_drop|].
    split; [exact Hlen|].
    split.
    { unfold Processor.len at 1. rewrite Hlen. unfold midpoint.
      rewrite Z2Nat.id; [reflexivity|]. apply Z.div_pos; unfold Processor.len; lia. }
    assert (Hnewer : take midpoint df <> []).
    { intros E. rewrite E in Hlen. simpl in Hlen. lia. }
    assert (Holder : drop midpoint df <> []).
    { intros E. pose proof (length_drop df midpoint) as Hd.
      rewrite E in Hd. simpl in Hd. lia. }
    destruct (calculate_overall_stats_nonempty _ Hnewer)
      as (ns & Hns & _ & Hn1 & Hn2 & Hn3 & Hn4 & Hn5).
    destruct (calculate_overall_stats_nonempty _ Holder)
      as (os & Hos & _ & Ho1 & Ho2 & Ho3 & Ho4 & Ho5).
    exists ns, os. eexists.
    split; [exact Hns|]. split; [exact Hos|].
    split.
    { unfold _calculate_growth_metrics.
      destruct (Z.ltb_spec (Processor.len df) 20); [lia|].
      fold midpoint. rewrite Hns, Hos. cbn [res_bind getitem]. reflexivity. }
    cbn [win_rate_change kda_change damage_change cs_change vision_change].
    rewrite Hn1, Hn2, Hn3, Hn4, Hn5, Ho1, Ho2, Ho3, Ho4, Ho5.
    repeat split; apply round_minus_round.
Qed.

(** An 18-record history gives the empty result, a 20-record one a
    populated delta. *)
Lemma calculate_growth_metrics_spec_witness :
  _calculate_growth_metrics (Sample.six_deaths 18) = Ok None /\
  exists growth,
    _calculate_growth_metrics (Sample.six_deaths 20) = Ok (Some growth).
Proof.
  split.
  - apply (calculate_growth_metrics_spec (Sample.six_deaths 18)).
    vm_compute. reflexivity.
  - destruct (calculate_growth_metrics_spec (Sample.six_deaths 20)) as [_ H].
    destruct H as (_ & _ & _ & ns & os & g & _ & _ & Hg & _).
    + vm_compute. discriminate.
    + exists g. exact Hg.
Defined.

End Aggregation.

(** ** Weakness rules *)

Section Weaknesses.

Import Processor.

Lemma dict_get_set {V} (d : Dict V) k v k' :
  dict_get (dict_set d k v) k'
  = if String.eqb k' k then Some v else dict_get d k'.
Proof.
  induction d as [|[k0 v0] d IH]; cbn [dict_set dict_get].
  - reflexivity.
  - destruct (String.eqb_spec k k0) as [->|Hk]; cbn [dict_get].
    + destruct (String.eqb k' k0); reflexivity.
    + rewrite IH. destruct (String.eqb_spec k' k0) as [->|Hk'].
      * destruct (String.eqb_spec k0 k); congruence.
      * reflexivity.
Qed.

Lemma dict_get_cond_set {V} (b : bool) (d : Dict V) k v k' :
  String.eqb k' k = false ->
  dict_get (if b then dict_set d k v else d) k' = dict_get d k'.
Proof. intros H. destruct b; [|reflexivity]. now rewrite dict_get_set, H. Qed.

Lemma high_deaths_entry (df : DataFrame) :
  df <> [] ->
  severity_of (identify_weaknesses df) "high_deaths"
  = let avg_deaths := series_mean (icol deaths df) in
    if Qltb 6 avg_deaths
    then Some (if Qltb 8 avg_deaths then "high" else "medium")
    else None.
Proof.
  intros Hne. unfold severity_of, identify_weaknesses.
  rewrite (empty_false _ Hne). cbn zeta.
  set (s1 := if Qltb 6 _ then _ else _).
  set (s2 := if Qltb _ 30 then _ else _).
  set (s3 := if Qltb _ 5 then _ else _).
  assert (H3 : dict_get s3 "high_deaths" = dict_get s1 "high_deaths").
  { unfold s3, s2. now rewrite !dict_get_cond_set. }
  assert (H4 : forall (b1 b2 : bool) v,
             dict_get (if b1 then if b2 then dict_set s3 "low_damage_in_losses" v
                                  else s3 else s3) "high_deaths"
             = dict_get s1 "high_deaths").
  { intros [] [] v; rewrite ?dict_get_set; exact H3. }
  rewrite H4. unfold s1.
  destruct (Qltb 6 _); reflexivity.
Qed.

Lemma low_vision_entry (df : DataFrame) :
  df <> [] ->
  severity_of (identify_weaknesses df) "low_vision"
  = let avg_vision := series_mean (icol vision_score df) in
    if Qltb avg_vision 30
    then Some (if Qltb avg_vision 20 then "high" else "medium")
    else None.
Proof.
  intros Hne. unfold severity_of, identify_weaknesses.
  rewrite (empty_false _ Hne). cbn zeta.
  set (s1 := if Qltb 6 _ then _ else _).
  set (s2 := if Qltb _ 30 then _ else _).
  set (s3 := if Qltb _ 5 then _ else _).
  assert (H3 : dict_get s3 "low_vision" = dict_get s2 "low_vision").
  { unfold s3. now rewrite !dict_get_cond_set. }
  assert (H4 : forall (b1 b2 : bool) v,
             dict_get (if b1 then if b2 then dict_set s3 "low_damage_in_losses" v
                                  else s3 else s3) "low_vision"
             = dict_get s2 "low_vision").
  { intros [] [] v; rewrite ?dict_get_set; exact H3. }
  rewrite H4. unfold s2.
  destruct (Qltb _ 30).
  - rewrite dict_get_set. reflexivity.
  - unfold s1. destruct (Qltb 6 _); reflexivity.
Qed.

(** C8. On a non-empty record set the deaths weakness has severity high
    exactly when the average deaths exceed 8, severity medium exactly when
    they exceed 6 and are at most 8, and is absent otherwise, so at exactly
    6; the vision weakness has severity high exactly when the average vision
    score is below 20, medium exactly when it is at least 20 and below 30,
    and is absent from 30 on. *)
Theorem identify_weaknesses_thresholds (df : DataFrame) :
  df <> [] ->
  let w := identify_weaknesses df in
  let avg_deaths := series_mean (icol deaths df) in
  let avg_vision := series_mean (icol vision_score df) in
  (severity_of w "high_deaths" = Some "high" <-> (8 < avg_deaths)%Q) /\
  (severity_of w "high_deaths" = Some "medium"
   <-> (6 < avg_deaths)%Q /\ (avg_deaths <= 8)%Q) /\
  (dict_get w "high_deaths" = None <-> (avg_deaths <= 6)%Q) /\
  ((avg_deaths == 6)%Q -> dict_get w "high_deaths" = None) /\
  (severity_of w "low_vision" = Some "high" <-> (avg_vision < 20)%Q) /\
  (severity_of w "low_vision" = Some "medium"
   <-> (20 <= avg_vision)%Q /\ (avg_vision < 30)%Q) /\
  (dict_get w "low_vision" = None <-> (30 <= avg_vision)%Q).
Proof.
  intros Hne. cbn zeta.
  pose proof (high_deaths_entry df Hne) as Hd.
  pose proof (low_vision_entry df Hne) as Hv.
  cbn zeta in Hd, Hv.
  set (avg_deaths := series_mean (icol deaths df)) in *.
  set (avg_vision := series_mean (icol vision_score df)) in *.
  assert (Hnone : forall key,
             dict_get (identify_weaknesses df) key = None
             <-> severity_of (identify_weaknesses df) key = None).
  { intros key. unfold severity_of.
    destruct (dict_get _ key); cbn; split; congruence. }
  rewrite !Hnone, Hd, Hv.
  pose proof (Qltb_lt 6 avg_deaths). pose proof (Qltb_ge 6 avg_deaths).
  pose proof (Qltb_lt 8 avg_deaths). pose proof (Qltb_ge 8 avg_deaths).
  pose proof (Qltb_lt avg_vision 30). pose proof (Qltb_ge avg_vision 30).
  pose proof (Qltb_lt avg_vision 20). pose proof (Qltb_ge avg_vision 20).
  destruct (Qltb 6 avg_deaths), (Qltb 8 avg_deaths),
           (Qltb avg_vision 30), (Qltb avg_vision 20);
    repeat split; intros; try congruence; try tauto; try lra;
    try (exfalso; intuition lra).
Qed.

(** Three games with six deaths and vision score 20 each: no deaths
    weakness, vision weakness of medium severity. *)
Lemma identify_weaknesses_thresholds_witness :
  dict_get (identify_weaknesses (Sample.six_deaths 3)) "high_deaths" = None /\
  severity_of (identify_weaknesses (Sample.six_deaths 3)) "low_vision"
  = Some "medium".
Proof.
  assert (Hne : Sample.six_deaths 3 <> []) by discriminate.
  pose proof (identify_weaknesses_thresholds (Sample.six_deaths 3) Hne)
    as (_ & _ & _ & H6 & _ & Hm & _).
  split.
  - apply H6. vm_compute. reflexivity.
  - apply Hm. split; vm_compute; congruence.
Defined.

End Weaknesses.

(** ** Trend labels *)

Section Trends.

Import Processor Insights.

Lemma bucket_trend_improving recent previous :
  bucket_trend recent previous = "improving" <-> (previous < recent)%Q.
Proof.
  unfold bucket_trend. rewrite <- Qltb_lt.
  destruct (Qltb previous recent); split; congruence.
Qed.

Lemma bucket_trend_tie recent previous :
  (recent == previous)%Q -> bucket_trend recent previous = "declining".
Proof.
  intros E. unfold bucket_trend.
  destruct (Qltb previous recent) eqn:H; [|reflexivity].
  apply Qltb_lt in H. lra.
Qed.

Lemma diff_trend_spec wr_diff :
  (diff_trend wr_diff = "improving" <-> (0 < wr_diff)%Q) /\
  (diff_trend wr_diff = "declining" <-> (wr_diff < 0)%Q) /\
  (diff_trend wr_diff = "stable" <-> (wr_diff == 0)%Q).
Proof.
  unfold diff_trend.
  pose proof (Qltb_lt 0 wr_diff). pose proof (Qltb_ge 0 wr_diff).
  pose proof (Qltb_lt wr_diff 0). pose proof (Qltb_ge wr_diff 0).
  destruct (Qltb 0 wr_diff), (Qltb wr_diff 0);
    repeat split; intros; try congruence; try lra;
    try (exfalso; intuition lra).
Qed.

(** C6, where the code departs from it.  With two monthly buckets of equal
    win rate and equal KDA, [_get_performance_trends] labels both trends
    "declining", not "stable": the bucket comparison is two-way, so every
    tie is "declining".  The recent-versus-overall comparison follows the
    three-way rule. *)
Theorem performance_trend_tie_is_declining :
  let report := _get_performance_trends Sample.tied_months in
  map tr_win_rate (monthly_trends report) = [100%Q; 100%Q] /\
  map tr_avg_kda (monthly_trends report) = [4%Q; 4%Q] /\
  win_rate_trend report = "declining" /\
  kda_trend report = "declining" /\
  (forall recent previous,
     (recent == previous)%Q -> bucket_trend recent previous = "declining") /\
  (forall recent previous,
     bucket_trend recent previous = "improving" <-> (previous < recent)%Q) /\
  (forall wr_diff,
     (diff_trend wr_diff = "improving" <-> (0 < wr_diff)%Q) /\
     (diff_trend wr_diff = "declining" <-> (wr_diff < 0)%Q) /\
     (diff_trend wr_diff = "stable" <-> (wr_diff == 0)%Q)).
Proof.
  cbn zeta. split; [vm_compute; reflexivity|].
  split; [vm_compute; reflexivity|].
  split; [vm_compute; reflexivity|].
  split; [vm_compute; reflexivity|].
  split; [exact bucket_trend_tie|].
  split; [exact bucket_trend_improving | exact diff_trend_spec].
Qed.

(** Two buckets at 50: "declining"; a recent window level with the overall
    win rate: "stable". *)
Lemma performance_trend_tie_is_declining_witness :
  bucket_trend 50 50 = "declining" /\ diff_trend (50 - 50) = "stable".
Proof.
  destruct performance_trend_tie_is_declining as (_ & _ & _ & _ & Htie & _ & Hdiff).
  split.
  - apply Htie. reflexivity.
  - apply (Hdiff (50 - 50)%Q). reflexivity.
Defined.

End Trends.

(** ** Response cache *)

Section Cache.

Import RiotApi.

Variable env : Env.

Lemma requests_issued_app t1 t2 :
  requests_issued (t1 ++ t2) = (requests_issued t1 + requests_issued t2)%nat.
Proof. unfold requests_issued. now rewrite filter_app, length_app. Qed.

(** A hit before expiry: the lookup reads the clock and changes nothing
    else. *)
Lemma get_from_cache_valid key data (c : Client) :
  _cache c !! key = Some data ->
  clock env (trace c) < default datetime_min (_cache_expiry c !! key) ->
  _get_from_cache env key c = (Ok (Some data), log Now c).
Proof.
  intros Hc Ht. unfold _get_from_cache, bind, get, datetime_now.
  rewrite Hc. cbn [log _cache_expiry].
  destruct (Z.ltb_spec (clock env (trace c))
              (default datetime_min (_cache_expiry c !! key))); [|lia].
  reflexivity.
Qed.

(** A lookup at or past expiry removes the entry from both tables. *)
Lemma get_from_cache_expired key data t (c : Client) :
  _cache c !! key = Some data ->
  _cache_expiry c !! key = Some t ->
  t <= clock env (trace c) ->
  _get_from_cache env key c = (Ok None, evicted key c).
Proof.
  intros Hc He Ht. unfold _get_from_cache, bind, get, datetime_now.
  rewrite Hc, He. change (default datetime_min (Some t)) with t.
  destruct (Z.ltb_spec (clock env (trace c)) t); [lia|].
  unfold cache_delitem, expiry_delitem, log.
  cbn [_cache _cache_expiry]. rewrite Hc. cbn [_cache_expiry]. rewrite He.
  reflexivity.
Qed.

(** Every request that reaches [fetch] is issued to the network. *)
Lemma fetch_issues_request url use_cache hours (c : Client) :
  exists later,
    trace (fetch env url use_cache hours c).2 = trace c ++ Get url :: later.
Proof.
  unfold fetch, bind, requests_get.
  destruct (respond env (trace c) url) as [data|status|detail].
  - destruct use_cache.
    + exists [Now]. cbn. now rewrite <- app_assoc.
    + exists []. reflexivity.
  - exists []. unfold raise.
    destruct (status =? 404), (status =? 403), (status =? 429); reflexivity.
  - exists []. reflexivity.
Qed.

Lemma make_request_hit url hours data (c : Client) :
  _cache c !! url = Some data ->
  clock env (trace c) < default datetime_min (_cache_expiry c !! url) ->
  truthy data = true ->
  _make_request env url true hours c = (Ok data, log Now c).
Proof.
  intros Hc Ht Hd. unfold _make_request, bind.
  rewrite (get_from_cache_valid _ _ _ Hc Ht). now rewrite Hd.
Qed.

Lemma make_request_falsy_hit url hours data (c : Client) :
  _cache c !! url = Some data ->
  clock env (trace c) < default datetime_min (_cache_expiry c !! url) ->
  truthy data = false ->
  _make_request env url true hours c = fetch env url true hours (log Now c).
Proof.
  intros Hc Ht Hd. unfold _make_request, bind.
  rewrite (get_from_cache_valid _ _ _ Hc Ht). now rewrite Hd.
Qed.

Lemma make_request_expired url hours data t (c : Client) :
  _cache c !! url = Some data ->
  _cache_expiry c !! url = Some t ->
  t <= clock env (trace c) ->
  _make_request env url true hours c = fetch env url true hours (evicted url c).
Proof.
  intros Hc He Ht. unfold _make_request, bind.
  now rewrite (get_from_cache_expired _ _ _ _ Hc He Ht).
Qed.

End Cache.

Section CacheClaim.

Import RiotApi.

(** C5, where the code departs from it.  A stored value that is truthy is
    returned unchanged before its expiry, with no request issued and the
    cache left as it was; at or past expiry the entry is evicted on that
    lookup and a request is issued.  But a stored value that is falsy (an
    empty list of match ids, say) is not returned before its expiry: the
    request is issued again.  A client that lists the matches of a player
    twice in the same second, the first answer being the empty list, caches
    that answer for a day and still sends the second request, returning the
    upstream's new answer. *)
Theorem make_request_cache_behaviour :
  (forall env url hours data c,
     _cache c !! url = Some data ->
     clock env (trace c) < default datetime_min (_cache_expiry c !! url) ->
     truthy data = true ->
     _make_request env url true hours c = (Ok data, log Now c) /\
     requests_issued (trace (log Now c)) = requests_issued (trace c)) /\
  (forall env url hours data t c,
     _cache c !! url = Some data ->
     _cache_expiry c !! url = Some t ->
     t <= clock env (trace c) ->
     (_get_from_cache env url c).1 = Ok None /\
     _cache (_get_from_cache env url c).2 !! url = None /\
     _cache_expiry (_get_from_cache env url c).2 !! url = None /\
     exists later,
       trace (_make_request env url true hours c).2
       = trace c ++ Now :: Get url :: later) /\
  (forall env url hours data c,
     _cache c !! url = Some data ->
     clock env (trace c) < default datetime_min (_cache_expiry c !! url) ->
     truthy data = false ->
     exists later,
       trace (_make_request env url true hours c).2
       = trace c ++ Now :: Get url :: later) /\
  (let env := Sample.late_match_env in
   let listing := get_match_ids_by_puuid env "p-1" 0 100 None None None in
   let first := listing Sample.fresh_client in
   let second := listing first.2 in
   first.1 = Ok (JList []) /\
   _cache first.2 !! Sample.ids_url = Some (JList []) /\
   clock env (trace first.2)
   < default datetime_min (_cache_expiry first.2 !! Sample.ids_url) /\
   second.1 = Ok (JList [JStr "NA1_1"]) /\
   requests_issued (trace second.2) = 2%nat).
Proof.
  split; [|split; [|split]].
  - intros env url hours data c Hc Ht Hd.
    split; [now apply make_request_hit|].
    cbn [log trace]. rewrite requests_issued_app.
    change (requests_issued [Now]) with O. lia.
  - intros env url hours data t c Hc He Ht.
    rewrite (get_from_cache_expired env _ _ _ _ Hc He Ht).
    cbn [fst snd evicted _cache _cache_expiry].
    rewrite !lookup_delete_eq. repeat split.
    rewrite (make_request_expired env _ hours _ _ _ Hc He Ht).
    destruct (fetch_issues_request env url true hours (evicted url c))
      as [later ->].
    exists later. cbn [evicted trace]. now rewrite <- app_assoc.
  - intros env url hours data c Hc Ht Hd.
    rewrite (make_request_falsy_hit env _ hours _ _ Hc Ht Hd).
    destruct (fetch_issues_request env url true hours (log Now c))
      as [later ->].
    exists later. cbn [log trace]. now rewrite <- app_assoc.
  - cbn zeta. repeat split; vm_compute; reflexivity.
Qed.

(** A one-match listing cached for a day is returned as stored, one second
    after it was cached, and no request is issued. *)
Lemma make_request_cache_behaviour_witness :
  _make_request Sample.late_match_env Sample.ids_url true 24 Sample.cached_client
  = (Ok (JList [JStr "NA1_0"]), log Now Sample.cached_client) /\
  requests_issued (trace (log Now Sample.cached_client)) = O.
Proof.
  destruct make_request_cache_behaviour as (Hhit & _).
  apply (Hhit Sample.late_match_env Sample.ids_url 24 (JList [JStr "NA1_0"])
           Sample.cached_client);
    vm_compute; reflexivity.
Defined.

End CacheClaim.

(** ** Full-history retrieval *)

Section HistoryProps.

Import History.

Context {S MatchId Match : Type}.
Variable get_match_ids_by_puuid : string -> Z -> Z -> Z -> M S (list MatchId).
Variable get_match_details : MatchId -> M S Match.
Variable datetime_now : S -> Z * S.
Variable start_timestamp : Z -> Z -> sum string Z.
Variables (puuid : string) (max_matches start_time : Z).

#[local] Abbreviation for_ids := (for_match_ids get_match_details max_matches).
#[local] Abbreviation body :=
  (while_body get_match_ids_by_puuid get_match_details puuid max_matches start_time).
#[local] Abbreviation loop :=
  (while_loop get_match_ids_by_puuid get_match_details puuid max_matches start_time).

(** One step of the [for] loop. *)
Lemma for_match_ids_cons match_id rest (s : S) (l : Locals Match) :
  for_ids (match_id :: rest) (s, l)
  = if max_matches <=? len (all_matches l) then (Ok tt, (s, l))
    else
      match get_match_details match_id s with
      | (Ok d, s1) => for_ids rest (s1, appended d l)
      | (Raise (RiotAPIError _), s1) => for_ids rest (s1, l)
      | (Raise e, s1) => (Raise e, (s1, l))
      end.
Proof.
  cbn [for_match_ids]. unfold bind at 1, locals. cbn [fst snd].
  destruct (max_matches <=? len (all_matches l)); [reflexivity|].
  unfold bind at 1, try_except_RiotAPIError, bind at 1, lift. cbn [fst snd].
  destruct (get_match_details match_id s) as [[d|e] s1].
  - reflexivity.
  - destruct e; reflexivity.
Qed.

(** The [for] loop lets no [RiotAPIError] out, leaves [start_index] alone,
    only ever appends, and never goes past [max_matches]. *)
Lemma for_match_ids_inv ids : forall (s : S) (l : Locals Match),
  let out := for_ids ids (s, l) in
  (forall msg, out.1 <> Raise (RiotAPIError msg)) /\
  start_index out.2.2 = start_index l /\
  len (all_matches l) <= len (all_matches out.2.2) /\
  (len (all_matches l) <= Z.max 0 max_matches ->
   len (all_matches out.2.2) <= Z.max 0 max_matches).
Proof.
  induction ids as [|match_id rest IH]; intros s l; cbn zeta.
  - cbn. repeat split; try lia. congruence.
  - rewrite for_match_ids_cons.
    destruct (Z.leb_spec max_matches (len (all_matches l))) as [Hfull|Hroom].
    + cbn. repeat split; try lia. congruence.
    + destruct (get_match_details match_id s) as [[d|e] s1].
      * specialize (IH s1 (appended d l)). cbn zeta in IH.
        destruct IH as (H1 & H2 & H3 & H4).
        assert (Hlen : len (all_matches (appended d l)) = len (all_matches l) + 1).
        { unfold len, appended. cbn. rewrite length_app. cbn. lia. }
        repeat split; [exact H1 | exact H2 | lia | intros; apply H4; lia].
      * destruct e as [|key|msg|kind];
          try (cbn; repeat split; try lia; congruence).
        apply IH.
Qed.

(** One pass through the body of the [while] loop. *)
Lemma while_body_unfold (s : S) (l : Locals Match) :
  body (s, l)
  = match get_match_ids_by_puuid puuid (start_index l) batch_size start_time s with
    | (Ok [], s1) => (Ok Break, (s1, l))
    | (Ok ids, s1) =>
        match for_ids ids (s1, l) with
        | (Ok _, st') =>
            (Ok (if len ids <? batch_size then Break else Continue),
             (st'.1, advanced st'.2))
        | (Raise e, st') => (Raise e, st')
        end
    | (Raise (RiotAPIError _), s1) => (Ok Break, (s1, l))
    | (Raise e, s1) => (Raise e, (s1, l))
    end.
Proof.
  unfold while_body, try_except_RiotAPIError.
  unfold bind at 1, locals. cbn [fst snd].
  unfold bind at 1, lift. cbn [fst snd].
  destruct (get_match_ids_by_puuid puuid (start_index l) batch_size start_time s)
    as [[ids|e] s1].
  - destruct ids as [|match_id rest]; [reflexivity|].
    unfold bind at 1.
    pose proof (for_match_ids_inv (match_id :: rest) s1 l) as [Hno _].
    cbn zeta in Hno.
    destruct (for_ids (match_id :: rest) (s1, l)) as [[[]|e] st'].
    + unfold bind, advance_start_index, modify. cbn [fst snd].
      destruct (len (match_id :: rest) <? batch_size); reflexivity.
    + destruct e as [|key|msg|kind]; try reflexivity.
      exfalso. apply (Hno msg). reflexivity.
  - destruct e; reflexivity.
Qed.

Lemma while_loop_unfold fuel (st : S * Locals Match) :
  loop fuel st
  = if len (all_matches st.2) <? max_matches then
      match fuel with
      | O => (Ok false, st)
      | Datatypes.S fuel =>
          match body st with
          | (Ok Break, st') => (Ok true, st')
          | (Ok Continue, st') => loop fuel st'
          | (Raise e, st') => (Raise e, st')
          end
      end
    else (Ok true, st).
Proof.
  destruct fuel; cbn [while_loop]; unfold bind at 1, locals; cbn [fst snd];
    destruct (len (all_matches st.2) <? max_matches); try reflexivity.
  unfold bind. destruct (body st) as [[[]|e] st']; reflexivity.
Qed.

(** A pass keeps the accumulated matches within [max_matches]. *)
Lemma while_body_bound (s : S) (l : Locals Match) :
  len (all_matches l) <= Z.max 0 max_matches ->
  len (all_matches (body (s, l)).2.2) <= Z.max 0 max_matches.
Proof.
  intros Hl. rewrite while_body_unfold.
  destruct (get_match_ids_by_puuid puuid (start_index l) batch_size start_time s)
    as [[ids|e] s1].
  - destruct ids as [|match_id rest]; [exact Hl|].
    pose proof (for_match_ids_inv (match_id :: rest) s1 l) as (_ & _ & _ & H).
    cbn zeta in H.
    destruct (for_ids (match_id :: rest) (s1, l)) as [[[]|e] st'];
      cbn [fst snd] in *; auto.
  - destruct e; exact Hl.
Qed.

Lemma while_loop_bound fuel : forall (st : S * Locals Match),
  len (all_matches st.2) <= Z.max 0 max_matches ->
  len (all_matches (loop fuel st).2.2) <= Z.max 0 max_matches.
Proof.
  induction fuel as [|fuel IH]; intros [s l] Hl; rewrite while_loop_unfold;
    cbn [fst snd] in *;
    destruct (len (all_matches l) <? max_matches); try exact Hl.
  pose proof (while_body_bound s l Hl) as Hb.
  destruct (body (s, l)) as [[[]|e] st']; cbn [fst snd] in *; auto.
Qed.

(** A pass that asks for another one has seen a full batch, moved the
    cursor on by one batch and lost no match. *)
Lemma while_body_continue (s : S) (l : Locals Match) st' :
  body (s, l) = (Ok Continue, st') ->
  exists ids s1,
    get_match_ids_by_puuid puuid (start_index l) batch_size start_time s
    = (Ok ids, s1) /\
    batch_size <= len ids /\
    (for_ids ids (s1, l)).1 = Ok tt /\
    st' = ((for_ids ids (s1, l)).2.1, advanced (for_ids ids (s1, l)).2.2) /\
    start_index st'.2 = start_index l + batch_size /\
    len (all_matches l) <= len (all_matches st'.2).
Proof.
  rewrite while_body_unfold.
  destruct (get_match_ids_by_puuid puuid (start_index l) batch_size start_time s)
    as [[ids|e] s1].
  - destruct ids as [|match_id rest]; [congruence|]. intros H.
    exists (match_id :: rest), s1.
    pose proof (for_match_ids_inv (match_id :: rest) s1 l) as (_ & H2 & H3 & _).
    cbn zeta in H2, H3.
    destruct (for_ids (match_id :: rest) (s1, l)) as [[[]|e] st1];
      [|congruence].
    cbn [fst snd] in *.
    destruct (Z.ltb_spec (len (match_id :: rest)) batch_size); [congruence|].
    injection H as <-. cbn [fst snd advanced start_index all_matches].
    repeat split; try lia.
  - destruct e; congruence.
Qed.

(** After a full batch whose [for] loop ran to its end, the pass asks for
    another one. *)
Lemma while_body_full (s : S) (l : Locals Match) ids s1 st' :
  get_match_ids_by_puuid puuid (start_index l) batch_size start_time s
  = (Ok ids, s1) ->
  batch_size <= len ids ->
  for_ids ids (s1, l) = (Ok tt, st') ->
  body (s, l) = (Ok Continue, (st'.1, advanced st'.2)).
Proof.
  intros Hids Hfull Hfor. rewrite while_body_unfold, Hids.
  destruct ids as [|match_id rest];
    [unfold batch_size, len in Hfull; cbn in Hfull; lia|].
  rewrite Hfor.
  destruct (Z.ltb_spec (len (match_id :: rest)) batch_size); [lia|reflexivity].
Qed.

(** When the detail requests are reliable, a batch that is not empty adds
    a match as long as there is room for one. *)
Lemma for_match_ids_progress match_id rest (s : S) (l : Locals Match) :
  reliable get_match_details ->
  len (all_matches l) < max_matches ->
  (for_ids (match_id :: rest) (s, l)).1 = Ok tt ->
  len (all_matches l) < len (all_matches (for_ids (match_id :: rest) (s, l)).2.2).
Proof.
  intros Hrel Hroom. rewrite for_match_ids_cons.
  destruct (Z.leb_spec max_matches (len (all_matches l))); [lia|].
  pose proof (Hrel match_id s) as Hd.
  destruct (get_match_details match_id s) as [[d|e] s1].
  - intros _.
    pose proof (for_match_ids_inv rest s1 (appended d l)) as (_ & _ & H3 & _).
    cbn zeta in H3.
    assert (Hlen : len (all_matches (appended d l)) = len (all_matches l) + 1).
    { unfold len, appended. cbn. rewrite length_app. cbn. lia. }
    lia.
  - destruct e as [|key|msg|kind]; cbn [fst]; try congruence.
    exfalso. apply (Hd msg). reflexivity.
Qed.

(** With a finite upstream history the loop is left within
    [bound - start_index] further passes. *)
Lemma while_loop_terminates_exhaustible bound fuel :
  exhaustible get_match_ids_by_puuid puuid bound ->
  forall (st : S * Locals Match),
    (Z.to_nat (bound - start_index st.2) < fuel)%nat ->
    (loop fuel st).1 <> Ok false.
Proof.
  intros Hex. induction fuel as [|fuel IH]; intros [s l] Hfuel; [lia|].
  rewrite while_loop_unfold. cbn [fst snd] in *.
  destruct (len (all_matches l) <? max_matches); [|cbn; congruence].
  destruct (body (s, l)) as [[[]|e] st'] eqn:Hbody; cbn [fst]; try congruence.
  destruct (while_body_continue _ _ _ Hbody)
    as (ids & s1 & Hids & Hfull & _ & _ & Hidx & _).
  apply IH. rewrite Hidx.
  assert (start_index l < bound).
  { destruct (Z.lt_ge_cases (start_index l) bound) as [|Hge]; [assumption|].
    pose proof (Hex (start_index l) start_time s Hge) as Hshort.
    rewrite Hids in Hshort. cbn in Hshort. lia. }
  unfold batch_size in *. lia.
Qed.

(** With reliable detail requests the loop is left within
    [max_matches - len(all_matches)] further passes. *)
Lemma while_loop_terminates_reliable fuel :
  reliable get_match_details ->
  forall (st : S * Locals Match),
    (Z.to_nat (max_matches - len (all_matches st.2)) < fuel)%nat ->
    (loop fuel st).1 <> Ok false.
Proof.
  intros Hrel. induction fuel as [|fuel IH]; intros [s l] Hfuel; [lia|].
  rewrite while_loop_unfold. cbn [fst snd] in *.
  destruct (Z.ltb_spec (len (all_matches l)) max_matches) as [Hroom|];
    [|cbn; congruence].
  destruct (body (s, l)) as [[[]|e] st'] eqn:Hbody; cbn [fst]; try congruence.
  destruct (while_body_continue _ _ _ Hbody)
    as (ids & s1 & Hids & Hfull & Hok & -> & _ & _).
  apply IH. cbn [snd advanced all_matches].
  destruct ids as [|match_id rest];
    [unfold batch_size, len in Hfull; cbn in Hfull; lia|].
  pose proof (for_match_ids_progress match_id rest s1 l Hrel Hroom Hok).
  lia.
Qed.

(** The loop lets no [RiotAPIError] out. *)
Lemma while_loop_no_api_error fuel : forall (st : S * Locals Match) msg,
  (loop fuel st).1 <> Raise (RiotAPIError msg).
Proof.
  induction fuel as [|fuel IH]; intros [s l] msg; rewrite while_loop_unfold;
    cbn [fst snd]; destruct (len (all_matches l) <? max_matches);
    cbn [fst]; try congruence.
  destruct (body (s, l)) as [[[]|e] st'] eqn:Hbody; cbn [fst]; try congruence.
  - apply IH.
  - intros He. injection He as ->. revert Hbody. rewrite while_body_unfold.
    destruct (get_match_ids_by_puuid puuid (start_index l) batch_size start_time s)
      as [[ids|e] s1].
    + destruct ids as [|match_id rest]; [congruence|].
      pose proof (for_match_ids_inv (match_id :: rest) s1 l) as [Hno _].
      cbn zeta in Hno.
      destruct (for_ids (match_id :: rest) (s1, l)) as [[[]|e] st1];
        [congruence|].
      intros H. injection H as -> _. apply (Hno msg). reflexivity.
    + destruct e; congruence.
Qed.

(** Once the loop has been left, more passes change nothing. *)
Lemma while_loop_fuel_mono fuel : forall (st : S * Locals Match) extra,
  (loop fuel st).1 <> Ok false ->
  loop (fuel + extra) st = loop fuel st.
Proof.
  induction fuel as [|fuel IH]; intros [s l] extra.
  - rewrite (while_loop_unfold O), (while_loop_unfold (O + extra)).
    cbn [fst snd].
    destruct (len (all_matches l) <? max_matches); [cbn; congruence|reflexivity].
  - change (Datatypes.S fuel + extra)%nat with (Datatypes.S (fuel + extra)).
    rewrite (while_loop_unfold (Datatypes.S fuel)),
            (while_loop_unfold (Datatypes.S (fuel + extra))).
    cbn [fst snd].
    destruct (len (all_matches l) <? max_matches); [|reflexivity].
    destruct (body (s, l)) as [[[]|e] st']; try reflexivity.
    apply IH.
Qed.

End HistoryProps.

Section HistoryClaims.

Import History.

Context {S MatchId Match : Type}.
Variable get_match_ids_by_puuid : string -> Z -> Z -> Z -> M S (list MatchId).
Variable get_match_details : MatchId -> M S Match.
Variable datetime_now : S -> Z * S.
Variable start_timestamp : Z -> Z -> sum string Z.

#[local] Abbreviation for_ids := (for_match_ids get_match_details).
#[local] Abbreviation body :=
  (while_body get_match_ids_by_puuid get_match_details).
#[local] Abbreviation loop :=
  (while_loop get_match_ids_by_puuid get_match_details).
#[local] Abbreviation history :=
  (get_full_match_history get_match_ids_by_puuid get_match_details datetime_now
     start_timestamp).

Lemma get_full_match_history_unfold fuel puuid max_matches days_back (s : S) :
  history fuel puuid max_matches days_back s
  = let now := (datetime_now s).1 in
    match start_timestamp now days_back with
    | inl error => (Raise (OtherException error), (datetime_now s).2)
    | inr start_time =>
        let out :=
          loop puuid max_matches start_time fuel
            ((datetime_now s).2, {| all_matches := []; start_index := 0 |}) in
        (match out.1 with
         | Ok true => Ok (Some (all_matches out.2.2))
         | Ok false => Ok None
         | Raise e => Raise e
         end, out.2.1)
    end.
Proof.
  unfold get_full_match_history, bind, total, raise. cbn zeta.
  destruct (datetime_now s) as [now s0]. cbn [fst snd].
  destruct (start_timestamp now days_back) as [error|start_time];
    [reflexivity|].
  destruct (loop _ _ _ _ _) as [[[]|e] [s' l]]; reflexivity.
Qed.

(** C1 (as the code has it).  The pagination loop ends whenever the
    upstream history is finite (from some offset on, every page of ids is
    an error or shorter than 100) or the detail requests do not fail: some
    number of passes yields the result and more passes yield the same; the
    returned list never has more than max(max_matches, 0) records.  The loop
    is left without a listing request once the record count has reached
    max_matches, is left on an empty page, and is left in the pass in which
    a page shorter than 100 comes back, whether or not max_matches has been
    reached. *)
Theorem full_history_pagination (puuid : string) (max_matches days_back : Z) :
  ((exists bound, exhaustible get_match_ids_by_puuid puuid bound)
   \/ reliable get_match_details ->
   exists passes, forall s,
     (history passes puuid max_matches days_back s).1 <> Ok None /\
     forall fuel,
       (passes <= fuel)%nat ->
       history fuel puuid max_matches days_back s
       = history passes puuid max_matches days_back s) /\
  (forall fuel s matches,
     (history fuel puuid max_matches days_back s).1 = Ok (Some matches) ->
     len matches <= Z.max 0 max_matches) /\
  (forall start_time fuel (st : S * Locals Match),
     max_matches <= len (all_matches st.2) ->
     loop puuid max_matches start_time fuel st = (Ok true, st)) /\
  (forall start_time fuel s (l : Locals Match) s1,
     len (all_matches l) < max_matches ->
     get_match_ids_by_puuid puuid (start_index l) batch_size start_time s
     = (Ok [], s1) ->
     loop puuid max_matches start_time (Datatypes.S fuel) (s, l)
     = (Ok true, (s1, l))) /\
  (forall start_time fuel s (l : Locals Match) ids s1,
     len (all_matches l) < max_matches ->
     get_match_ids_by_puuid puuid (start_index l) batch_size start_time s
     = (Ok ids, s1) ->
     len ids < batch_size ->
     (body puuid max_matches start_time (s, l)).1 <> Ok Continue /\
     loop puuid max_matches start_time (Datatypes.S fuel) (s, l)
     = loop puuid max_matches start_time 1 (s, l) /\
     (loop puuid max_matches start_time 1 (s, l)).1 <> Ok false).
Proof.
  split; [|split; [|split; [|split]]].
  - intros Hfin.
    assert (Hloop : exists passes, forall start_time fuel s,
               (passes <= fuel)%nat ->
               (loop puuid max_matches start_time fuel
                  (s, {| all_matches := []; start_index := 0 |})).1 <> Ok false).
    { destruct Hfin as [[bound Hex]|Hrel].
      - exists (Datatypes.S (Z.to_nat bound)). intros start_time fuel s Hfuel.
        apply (while_loop_terminates_exhaustible _ _ _ _ _ bound fuel Hex).
        cbn. rewrite Z.sub_0_r. lia.
      - exists (Datatypes.S (Z.to_nat max_matches)). intros start_time fuel s Hfuel.
        apply (while_loop_terminates_reliable _ _ _ _ _ fuel Hrel).
        cbn. rewrite Z.sub_0_r. lia. }
    destruct Hloop as [passes Hloop]. exists passes. intros s.
    split.
    + rewrite get_full_match_history_unfold. cbn zeta.
      destruct (start_timestamp _ _) as [error|start_time];
        [cbn [fst]; congruence|].
      specialize (Hloop start_time passes (datetime_now s).2 (Nat.le_refl _)).
      destruct (loop _ _ _ _ _) as [[[]|e] st']; cbn [fst] in *; congruence.
    + intros fuel Hfuel. rewrite !get_full_match_history_unfold. cbn zeta.
      destruct (start_timestamp _ _) as [error|start_time]; [reflexivity|].
      specialize (Hloop start_time passes (datetime_now s).2 (Nat.le_refl _)).
      replace fuel with (passes + (fuel - passes))%nat by lia.
      rewrite (while_loop_fuel_mono _ _ _ _ _ passes _ _ Hloop). reflexivity.
  - intros fuel s matches. rewrite get_full_match_history_unfold. cbn zeta.
    destruct (start_timestamp _ _) as [error|start_time];
      [cbn [fst]; congruence|].
    pose proof (while_loop_bound get_match_ids_by_puuid get_match_details puuid
                  max_matches start_time
                  fuel ((datetime_now s).2,
                        {| all_matches := []; start_index := 0 |})) as Hb.
    destruct (loop _ _ _ _ _) as [[[]|e] st']; cbn [fst snd] in *; try congruence.
    intros H. injection H as <-. apply Hb.
    change (0 <= Z.max 0 max_matches). lia.
  - intros start_time fuel st Hfull. rewrite while_loop_unfold.
    destruct (Z.ltb_spec (len (all_matches st.2)) max_matches); [lia|reflexivity].
  - intros start_time fuel s l s1 Hroom Hids. rewrite while_loop_unfold.
    cbn [fst snd].
    destruct (Z.ltb_spec (len (all_matches l)) max_matches); [|lia].
    rewrite while_body_unfold, Hids. reflexivity.
  - intros start_time fuel s l ids s1 Hroom Hids Hshort.
    assert (Hbody : (body puuid max_matches start_time (s, l)).1 <> Ok Continue).
    { rewrite while_body_unfold, Hids.
      destruct ids as [|match_id rest]; [cbn; congruence|].
      destruct (for_ids max_matches (match_id :: rest) (s1, l)) as [[[]|e] st'];
        cbn [fst]; [|congruence].
      destruct (Z.ltb_spec (len (match_id :: rest)) batch_size); [congruence|lia]. }
    split; [exact Hbody|].
    rewrite !(while_loop_unfold _ _ _ _ _ (Datatypes.S _)). cbn [fst snd].
    destruct (len (all_matches l) <? max_matches); [|split; [reflexivity|cbn; congruence]].
    destruct (body puuid max_matches start_time (s, l)) as [[[]|e] st'];
      cbn [fst] in *; try congruence; split; try reflexivity; congruence.
Qed.

(** C4 (as the code has it).  A listing request that fails with a
    [RiotAPIError] does not reach the caller: the loop is left normally with
    the matches gathered so far, so retrieval never raises a [RiotAPIError].
    A detail request that fails with a [RiotAPIError] is skipped: the rest
    of the batch is processed from the same list of matches, and after a
    full batch the next page is requested. *)
Theorem history_error_handling (puuid : string) (max_matches : Z) :
  (forall start_time fuel s (l : Locals Match) msg s1,
     len (all_matches l) < max_matches ->
     get_match_ids_by_puuid puuid (start_index l) batch_size start_time s
     = (Raise (RiotAPIError msg), s1) ->
     loop puuid max_matches start_time (Datatypes.S fuel) (s, l)
     = (Ok true, (s1, l))) /\
  (forall days_back fuel s msg,
     (history fuel puuid max_matches days_back s).1 <> Raise (RiotAPIError msg)) /\
  (forall match_id rest s (l : Locals Match) msg s1,
     len (all_matches l) < max_matches ->
     get_match_details match_id s = (Raise (RiotAPIError msg), s1) ->
     for_ids max_matches (match_id :: rest) (s, l)
     = for_ids max_matches rest (s1, l)) /\
  (forall match_id rest s (l : Locals Match) match_data s1,
     len (all_matches l) < max_matches ->
     get_match_details match_id s = (Ok match_data, s1) ->
     for_ids max_matches (match_id :: rest) (s, l)
     = for_ids max_matches rest (s1, appended match_data l)) /\
  (forall ids s (l : Locals Match) msg,
     (for_ids max_matches ids (s, l)).1 <> Raise (RiotAPIError msg)) /\
  (forall start_time s (l : Locals Match) ids s1,
     get_match_ids_by_puuid puuid (start_index l) batch_size start_time s
     = (Ok ids, s1) ->
     batch_size <= len ids ->
     (for_ids max_matches ids (s1, l)).1 = Ok tt ->
     (body puuid max_matches start_time (s, l)).1 = Ok Continue).
Proof.
  split; [|split; [|split; [|split; [|split]]]].
  - intros start_time fuel s l msg s1 Hroom Hids. rewrite while_loop_unfold.
    cbn [fst snd].
    destruct (Z.ltb_spec (len (all_matches l)) max_matches); [|lia].
    rewrite while_body_unfold, Hids. reflexivity.
  - intros days_back fuel s msg. rewrite get_full_match_history_unfold.
    cbn zeta.
    destruct (start_timestamp _ _) as [error|start_time];
      [cbn [fst]; congruence|].
    pose proof (while_loop_no_api_error get_match_ids_by_puuid get_match_details
                  puuid max_matches start_time
                  fuel ((datetime_now s).2,
                        {| all_matches := []; start_index := 0 |}) msg) as Hno.
    destruct (loop _ _ _ _ _) as [[[]|e] st']; cbn [fst] in *; congruence.
  - intros match_id rest s l msg s1 Hroom Hd. rewrite for_match_ids_cons.
    destruct (Z.leb_spec max_matches (len (all_matches l))); [lia|].
    rewrite Hd. reflexivity.
  - intros match_id rest s l d s1 Hroom Hd. rewrite for_match_ids_cons.
    destruct (Z.leb_spec max_matches (len (all_matches l))); [lia|].
    rewrite Hd. reflexivity.
  - intros ids s l msg.
    apply (for_match_ids_inv get_match_details max_matches ids s l).
  - intros start_time s l ids s1 Hids Hfull Hfor.
    rewrite while_body_unfold, Hids.
    destruct ids as [|match_id rest];
      [unfold batch_size, len in Hfull; cbn in Hfull; lia|].
    destruct (for_ids max_matches (match_id :: rest) (s1, l)) as [[[]|e] st'];
      cbn [fst] in *; [|congruence].
    destruct (Z.ltb_spec (len (match_id :: rest)) batch_size); [lia|reflexivity].
Qed.

End HistoryClaims.

(** ** Retrieval against scripted upstreams *)

Section ScriptedRuns.

Import History.

Lemma two_pages_exhaustible :
  exhaustible (scripted_ids two_pages) "puuid" 200.
Proof.
  intros start start_time s Hstart.
  unfold scripted_ids, two_pages, bind, modify.
  destruct (Z.ltb_spec start 200); [lia|].
  unfold ret. cbn [fst]. change (0 < 100). lia.
Qed.

(** With two full pages upstream and every detail request failing, the
    retrieval ends; with every detail request succeeding and room for 150
    matches it returns 150 of them after two listing requests. *)
Lemma full_history_pagination_witness :
  (exists passes, forall s,
     (get_full_match_history (scripted_ids two_pages) (scripted_details no_detail)
        scripted_now scripted_start passes "puuid" 150 365 s).1 <> Ok None /\
     forall fuel,
       (passes <= fuel)%nat ->
       get_full_match_history (scripted_ids two_pages) (scripted_details no_detail)
         scripted_now scripted_start fuel "puuid" 150 365 s
       = get_full_match_history (scripted_ids two_pages)
           (scripted_details no_detail) scripted_now scripted_start passes "puuid" 150 365 s) /\
  (scripted_history two_pages every_detail 2 150).1
  = Ok (Some (replicate 150 "NA1_1")).
Proof.
  split.
  - apply (full_history_pagination (scripted_ids two_pages)
             (scripted_details no_detail) scripted_now scripted_start "puuid" 150 365).
    left. exists 200. apply two_pages_exhaustible.
  - vm_compute. reflexivity.
Defined.

(** A batch whose detail requests all fail leaves the matches as they
    were, one call made per id. *)
Lemma for_match_ids_no_detail max_matches ids : forall calls (l : Locals string),
  len (all_matches l) < max_matches ->
  for_match_ids (scripted_details no_detail) max_matches ids (calls, l)
  = (Ok tt, ((calls + length ids)%nat, l)).
Proof.
  induction ids as [|match_id rest IH]; intros calls l Hroom.
  - cbn [for_match_ids length]. rewrite Nat.add_0_r. reflexivity.
  - rewrite for_match_ids_cons.
    destruct (Z.leb_spec max_matches (len (all_matches l))); [lia|].
    unfold scripted_details at 1, no_detail, bind, modify, raise.
    rewrite IH by exact Hroom. cbn [length].
    replace (calls + Datatypes.S (length rest))%nat
      with (Datatypes.S calls + length rest)%nat by lia.
    reflexivity.
Qed.

(** Against full pages at every offset and failing detail requests, every
    pass asks for another one: [fuel] passes make [101 * fuel] calls and
    leave the loop running. *)
Lemma while_loop_endless start_time fuel : forall calls start,
  while_loop (scripted_ids endless_pages) (scripted_details no_detail)
    "puuid" 1 start_time fuel
    (calls, {| all_matches := []; start_index := start |})
  = (Ok false,
     ((calls + 101 * fuel)%nat,
      {| all_matches := []; start_index := start + 100 * Z.of_nat fuel |})).
Proof.
  induction fuel as [|fuel IH]; intros calls start; rewrite while_loop_unfold;
    cbn [fst snd all_matches].
  - change (len [] <? 1) with true. cbv iota. f_equal. f_equal; [lia | f_equal; lia].
  - change (len [] <? 1) with true. cbv iota.
    rewrite (while_body_full _ _ _ _ _ calls _ full_page (Datatypes.S calls)
               ((Datatypes.S calls + length full_page)%nat,
                {| all_matches := []; start_index := start |})).
    + cbn [fst snd]. unfold advanced. cbn [all_matches start_index].
      rewrite IH. unfold batch_size. change (length full_page) with 100%nat.
      f_equal. f_equal; [lia | f_equal; lia].
    + reflexivity.
    + vm_compute. discriminate.
    + apply for_match_ids_no_detail. reflexivity.
Qed.

(** C1, as stated, fails: for max_matches = 1, against an upstream that
    serves a full page of ids at every offset while every detail request
    fails, no number of passes ends the loop. *)
Lemma full_history_pagination_endless :
  let max_matches := 1 in
  0 < max_matches /\
  forall fuel,
    scripted_history endless_pages no_detail fuel max_matches
    = (Ok None, (101 * fuel)%nat).
Proof.
  cbn zeta. split; [lia|]. intros fuel.
  unfold scripted_history. rewrite get_full_match_history_unfold. cbn zeta.
  unfold scripted_now. cbn [fst snd].
  assert (E : scripted_start 1700000000000000 365 = inr 1668464000)
    by (vm_compute; reflexivity).
  rewrite E, while_loop_endless. reflexivity.
Qed.

(** C4, as stated, fails: when the listing request fails with a
    [RiotAPIError], the retrieval returns the empty list to its caller and
    raises nothing. *)
Lemma history_listing_failure_not_propagated :
  (scripted_ids failing_listing "puuid" 0 batch_size 0 O).1
  = Raise (RiotAPIError "API request failed: 500") /\
  scripted_history failing_listing every_detail 1 10 = (Ok (Some []), 1%nat).
Proof. split; vm_compute; reflexivity. Qed.

(** One failing detail request among three: the other two matches are
    returned; a failing listing request: the empty list is returned. *)
Lemma history_error_handling_witness :
  while_loop (scripted_ids failing_listing) (scripted_details every_detail)
    "puuid" 10 0 1 (O, {| all_matches := ["NA1_0"]; start_index := 100 |})
  = (Ok true, (1%nat, {| all_matches := ["NA1_0"]; start_index := 100 |})) /\
  for_match_ids (scripted_details no_detail) 10 ["NA1_1"; "NA1_2"]
    (O, {| all_matches := ["NA1_0"]; start_index := 0 |})
  = for_match_ids (scripted_details no_detail) 10 ["NA1_2"]
      (1%nat, {| all_matches := ["NA1_0"]; start_index := 0 |}).
Proof.
  pose proof (history_error_handling (scripted_ids failing_listing)
                (scripted_details every_detail) scripted_now scripted_start "puuid" 10)
    as (Hlist & _).
  pose proof (history_error_handling (scripted_ids failing_listing)
                (scripted_details no_detail) scripted_now scripted_start "puuid" 10)
    as (_ & _ & Hskip & _).
  split.
  - apply (Hlist 0 O O _ "API request failed: 500" 1%nat);
      [vm_compute; reflexivity | reflexivity].
  - apply (Hskip "NA1_1" ["NA1_2"] O _ "Resource not found: NA1_1" 1%nat);
      [vm_compute; reflexivity | reflexivity].
Defined.

End ScriptedRuns.

(** * Further properties of the code *)

(** ** The response cache and the request *)

Section CacheMore.

Import RiotApi Setup.

Variable env : Env.

Lemma cache_consistent_log e (c : Client) :
  cache_consistent c -> cache_consistent (log e c).
Proof. intros H key. apply H. Qed.

Lemma set_cache_run key data hours (c : Client) :
  _set_cache env key data hours c
  = (Ok tt,
     {| regional_base_url := regional_base_url c;
        _cache := <[key := data]> (_cache c);
        _cache_expiry :=
          <[key := clock env (trace c) + timedelta_hours hours]> (_cache_expiry c);
        trace := trace c ++ [Now] |}).
Proof. reflexivity. Qed.

(** X1. Storing then looking up: a response stored under a key is what
    the next lookup of that key returns, as long as the clock read by the
    lookup is before the clock read by the store plus the lifetime. *)
Theorem set_cache_then_get key data hours (c : Client) :
  let stored := (_set_cache env key data hours c).2 in
  clock env (trace stored) < clock env (trace c) + timedelta_hours hours ->
  _get_from_cache env key stored = (Ok (Some data), log Now stored).
Proof.
  cbn zeta. rewrite set_cache_run. cbn [snd]. intros Hfresh.
  apply get_from_cache_valid; cbn [_cache _cache_expiry trace].
  - apply lookup_insert_eq.
  - rewrite lookup_insert_eq. exact Hfresh.
Qed.

Lemma set_cache_consistent key data hours (c : Client) :
  cache_consistent c -> cache_consistent (_set_cache env key data hours c).2.
Proof.
  intros H k. rewrite set_cache_run. cbn [snd _cache _cache_expiry].
  destruct (decide (key = k)) as [->|Hne].
  - rewrite !lookup_insert_eq. split; eauto.
  - rewrite !lookup_insert_ne by exact Hne. apply H.
Qed.

Lemma evicted_consistent key (c : Client) :
  cache_consistent c -> cache_consistent (evicted key c).
Proof.
  intros H k. cbn [evicted _cache _cache_expiry].
  destruct (decide (key = k)) as [->|Hne].
  - rewrite !lookup_delete_eq. split; intros [x Hx]; discriminate.
  - rewrite !lookup_delete_ne by exact Hne. apply H.
Qed.

(** A lookup in a consistent cache does not raise and leaves the cache
    consistent. *)
Lemma get_from_cache_consistent key (c : Client) :
  cache_consistent c ->
  (exists found, (_get_from_cache env key c).1 = Ok found) /\
  cache_consistent (_get_from_cache env key c).2.
Proof.
  intros H.
  destruct (_cache c !! key) as [data|] eqn:Hc.
  - destruct (proj1 (H key)) as [t He]; [eauto|].
    destruct (Z.lt_ge_cases (clock env (trace c)) t) as [Hlt|Hge].
    + rewrite (get_from_cache_valid env key data c Hc) by (rewrite He; exact Hlt).
      split; [eauto | now apply cache_consistent_log].
    + rewrite (get_from_cache_expired env key data t c Hc He Hge).
      split; [eauto | now apply evicted_consistent].
  - unfold _get_from_cache, bind, get. rewrite Hc. split; [eauto | exact H].
Qed.

Lemma fetch_consistent url use_cache hours (c : Client) :
  cache_consistent c ->
  (forall e, (fetch env url use_cache hours c).1 = Raise e ->
             exists msg, e = RiotAPIError msg) /\
  cache_consistent (fetch env url use_cache hours c).2.
Proof.
  intros H. unfold fetch, bind, requests_get.
  destruct (respond env (trace c) url) as [data|status|detail].
  - destruct use_cache.
    + rewrite set_cache_run. cbn [fst snd ret].
      split; [intros e He; discriminate He|].
      apply (set_cache_consistent url data hours (log (Get url) c)).
      now apply cache_consistent_log.
    + cbn [fst snd ret]. split; [intros e He; discriminate He|].
      now apply cache_consistent_log.
  - unfold raise.
    destruct (status =? 404), (status =? 403), (status =? 429); cbn [fst snd];
      (split; [intros e He; injection He as <-; eauto
              | now apply cache_consistent_log]).
  - unfold raise. cbn [fst snd].
    split; [intros e He; injection He as <-; eauto
           | now apply cache_consistent_log].
Qed.

(** X2. The two cache tables stay in step, so a request never fails on its
    own bookkeeping: from a client whose tables hold the same keys,
    [_make_request] leaves them holding the same keys, and the only
    exception it raises is [RiotAPIError]. *)
Theorem make_request_consistent url use_cache hours (c : Client) :
  cache_consistent c ->
  cache_consistent (_make_request env url use_cache hours c).2 /\
  (forall e, (_make_request env url use_cache hours c).1 = Raise e ->
             exists msg, e = RiotAPIError msg).
Proof.
  intros H. unfold _make_request, bind.
  destruct use_cache.
  - destruct (get_from_cache_consistent url c H) as [[found Hf] Hc'].
    destruct (_get_from_cache env url c) as [r c'] eqn:Hget.
    cbn [fst snd] in Hf, Hc'. subst r.
    destruct found as [data|].
    + destruct (truthy data).
      * cbn [ret fst snd]. split; [exact Hc' | intros e He; discriminate He].
      * destruct (fetch_consistent url true hours c' Hc') as [He Hs].
        split; assumption.
    + destruct (fetch_consistent url true hours c' Hc') as [He Hs].
      split; assumption.
  - cbn [ret]. destruct (fetch_consistent url false hours c H) as [He Hs].
    split; assumption.
Qed.

(** X3. Bypassing the cache: with [use_cache=False] the request is always
    sent, exactly once, the clock is not read and both cache tables are left
    as they were, whatever the outcome. *)
Theorem make_request_without_cache url hours (c : Client) :
  let out := _make_request env url false hours c in
  trace out.2 = trace c ++ [Get url] /\
  _cache out.2 = _cache c /\
  _cache_expiry out.2 = _cache_expiry c /\
  regional_base_url out.2 = regional_base_url c.
Proof.
  cbn zeta. unfold _make_request, bind, ret, fetch, bind, requests_get.
  destruct (respond env (trace c) url) as [data|status|detail].
  - cbn. auto.
  - unfold raise.
    destruct (status =? 404), (status =? 403), (status =? 429); cbn; auto.
  - cbn. auto.
Qed.

(** X4. A failed request is not cached: when the lookup misses and the
    upstream does not answer with a body, [_make_request] raises a
    [RiotAPIError], has sent the one request, and leaves both cache tables
    as they were; 404, 403 and 429 get their own messages. *)
Theorem failed_request_not_cached url use_cache hours (c : Client) :
  (use_cache = true -> _cache c !! url = None) ->
  (forall data, respond env (trace c) url <> HttpJson data) ->
  let out := _make_request env url use_cache hours c in
  (exists msg, out.1 = Raise (RiotAPIError msg)) /\
  trace out.2 = trace c ++ [Get url] /\
  _cache out.2 = _cache c /\
  _cache_expiry out.2 = _cache_expiry c /\
  (respond env (trace c) url = HttpStatusError 404 ->
   out.1 = Raise (RiotAPIError ("Resource not found: " +:+ url))) /\
  (respond env (trace c) url = HttpStatusError 403 ->
   out.1 = Raise (RiotAPIError "Invalid or expired API key")) /\
  (respond env (trace c) url = HttpStatusError 429 ->
   out.1 = Raise (RiotAPIError "Rate limit exceeded")).
Proof.
  intros Hmiss Hfail. cbn zeta.
  assert (Hrun : _make_request env url use_cache hours c
                 = fetch env url use_cache hours c).
  { unfold _make_request, bind. destruct use_cache; [|reflexivity].
    unfold _get_from_cache, bind, get. now rewrite Hmiss. }
  rewrite Hrun. unfold fetch, bind, requests_get.
  destruct (respond env (trace c) url) as [data|status|detail].
  - exfalso. now apply (Hfail data).
  - unfold raise.
    destruct (Z.eqb_spec status 404) as [->|H404];
      [cbn; repeat split; eauto; discriminate|].
    destruct (Z.eqb_spec status 403) as [->|H403];
      [cbn; repeat split; eauto; discriminate|].
    destruct (Z.eqb_spec status 429) as [->|H429];
      [cbn; repeat split; eauto; discriminate|].
    cbn [fst snd log trace _cache _cache_expiry].
    repeat split; eauto; intros He; injection He; contradiction.
  - cbn. repeat split; eauto; discriminate.
Qed.

Lemma get_from_cache_found key data (c c' : Client) :
  _get_from_cache env key c = (Ok (Some data), c') ->
  _cache c' !! key = Some data.
Proof.
  unfold _get_from_cache, bind, get, datetime_now.
  destruct (_cache c !! key) as [d|] eqn:Hc; [|discriminate].
  destruct (_ <? _).
  - intros H. injection H as -> <-. exact Hc.
  - unfold cache_delitem, expiry_delitem, log. cbn [_cache _cache_expiry].
    rewrite Hc. cbn [_cache_expiry].
    destruct (_cache_expiry c !! key); discriminate.
Qed.

Lemma fetch_stores url hours data (c c' : Client) :
  fetch env url true hours c = (Ok data, c') ->
  _cache c' !! url = Some data.
Proof.
  unfold fetch, bind, requests_get.
  destruct (respond env (trace c) url) as [d|status|detail].
  - rewrite set_cache_run. cbn [ret]. intros H. injection H as -> <-.
    cbn [_cache]. apply lookup_insert_eq.
  - unfold raise.
    destruct (status =? 404), (status =? 403), (status =? 429); discriminate.
  - discriminate.
Qed.

(** Every successful cached request leaves its result in the cache. *)
Lemma make_request_stores url hours data (c c' : Client) :
  _make_request env url true hours c = (Ok data, c') ->
  _cache c' !! url = Some data.
Proof.
  unfold _make_request, bind.
  destruct (_get_from_cache env url c) as [[[d|]|e] c1] eqn:Hget.
  - destruct (truthy d).
    + cbn [ret]. intros H. injection H as -> <-.
      exact (get_from_cache_found _ _ _ _ Hget).
    + apply fetch_stores.
  - apply fetch_stores.
  - discriminate.
Qed.

(** X5. Asking twice: after a cached request has returned a truthy
    response, the same request made again before the entry expires returns
    the same response without sending anything. *)
Theorem make_request_twice url hours hours' data (c c' : Client) :
  _make_request env url true hours c = (Ok data, c') ->
  truthy data = true ->
  clock env (trace c') < default datetime_min (_cache_expiry c' !! url) ->
  _make_request env url true hours' c' = (Ok data, log Now c') /\
  requests_issued (trace (log Now c')) = requests_issued (trace c').
Proof.
  intros Hfirst Htruthy Hfresh.
  split.
  - apply make_request_hit; [|exact Hfresh|exact Htruthy].
    exact (make_request_stores _ _ _ _ _ Hfirst).
  - cbn [log trace]. rewrite requests_issued_app.
    change (requests_issued [Now]) with O. lia.
Qed.

End CacheMore.

Section CacheMoreWitnesses.

Import RiotApi Setup.

Lemma fresh_client_consistent : cache_consistent Sample.fresh_client.
Proof.
  intros key. cbn. rewrite !lookup_empty.
  split; intros [x Hx]; discriminate.
Qed.

Lemma set_cache_then_get_witness :
  _get_from_cache Sample.late_match_env "k"
    (_set_cache Sample.late_match_env "k" (JStr "v") 24 Sample.fresh_client).2
  = (Ok (Some (JStr "v")),
     log Now (_set_cache Sample.late_match_env "k" (JStr "v") 24
                Sample.fresh_client).2).
Proof.
  apply (set_cache_then_get Sample.late_match_env "k" (JStr "v") 24
           Sample.fresh_client).
  vm_compute. reflexivity.
Defined.

Lemma make_request_consistent_witness :
  cache_consistent
    (_make_request Sample.late_match_env Sample.ids_url true 24
       Sample.fresh_client).2.
Proof.
  apply (make_request_consistent Sample.late_match_env Sample.ids_url true 24
           Sample.fresh_client fresh_client_consistent).
Defined.

(** An upstream that is rate limiting. *)
Lemma failed_request_not_cached_witness :
  let env := {| clock := fun _ => 0;
                respond := fun _ _ => HttpStatusError 429 |} in
  (_make_request env Sample.ids_url true 24 Sample.fresh_client).1
  = Raise (RiotAPIError "Rate limit exceeded").
Proof.
  cbn zeta.
  apply (failed_request_not_cached
           {| clock := fun _ => 0; respond := fun _ _ => HttpStatusError 429 |}
           Sample.ids_url true 24 Sample.fresh_client).
  - intros _. reflexivity.
  - intros data. discriminate.
  - reflexivity.
Defined.

Lemma make_request_twice_witness :
  let env := {| clock := fun _ => 0;
                respond := fun _ _ => HttpJson (JList [JStr "NA1_1"]) |} in
  let first := _make_request env Sample.ids_url true 24 Sample.fresh_client in
  _make_request env Sample.ids_url true 24 first.2
  = (Ok (JList [JStr "NA1_1"]), log Now first.2).
Proof.
  cbn zeta.
  apply (make_request_twice
           {| clock := fun _ => 0;
              respond := fun _ _ => HttpJson (JList [JStr "NA1_1"]) |}
           Sample.ids_url 24 24 (JList [JStr "NA1_1"]) Sample.fresh_client).
  - vm_compute. reflexivity.
  - reflexivity.
  - vm_compute. reflexivity.
Defined.

End CacheMoreWitnesses.

(** ** Client construction and request locators *)

Section SetupProps.

Import RiotApi Setup Processor.

Lemma dict_get_Some_In {V} (d : Dict V) k v :
  dict_get d k = Some v -> In (k, v) d.
Proof.
  induction d as [|[k' v'] d IH]; cbn [dict_get]; [discriminate|].
  destruct (String.eqb_spec k k') as [->|Hne].
  - intros H. injection H as ->. now left.
  - intros H. right. now apply IH.
Qed.

Lemma dict_get_None_keys {V} (d : Dict V) k :
  dict_get d k = None <-> ~ In k (map fst d).
Proof.
  induction d as [|[k' v'] d IH]; cbn [dict_get map fst In].
  - tauto.
  - destruct (String.eqb_spec k k') as [->|Hne].
    + split; [discriminate | intros H; exfalso; apply H; now left].
    + rewrite IH. split; intros H; [intros [E|Hin]; [congruence|tauto] | tauto].
Qed.

Lemma dict_get_is_Some_keys {V} (d : Dict V) k :
  is_Some (dict_get d k) <-> In k (map fst d).
Proof.
  destruct (dict_get d k) as [v|] eqn:E.
  - split; [intros _ | eauto].
    apply dict_get_Some_In in E. apply in_map_iff. now exists (k, v).
  - split; [intros [x Hx]; discriminate|].
    intros Hin. apply dict_get_None_keys in E. contradiction.
Qed.

(** Every locator in the two routing tables is made from its key. *)
Lemma routing_tables_shape :
  Forall (fun kv => kv.2 = "https://" +:+ kv.1 +:+ ".api.riotgames.com"
                    /\ kv.2 <> "")
    (BASE_URLS ++ PLATFORM_URLS).
Proof. repeat constructor; discriminate. Qed.

Lemma routing_lookup table key url :
  (table = BASE_URLS \/ table = PLATFORM_URLS) ->
  dict_get table key = Some url ->
  url = "https://" +:+ key +:+ ".api.riotgames.com" /\ url <> "".
Proof.
  intros Ht Hget. apply dict_get_Some_In in Hget.
  pose proof routing_tables_shape as Hall. rewrite List.Forall_forall in Hall.
  apply (Hall (key, url)). apply in_or_app.
  destruct Ht as [->| ->]; [now left | now right].
Qed.

(** X6. Constructing a client succeeds exactly when the effective key is
    not empty and the effective region and platform are entries of the
    routing tables; the key is checked first, then the region, then the
    platform, each failure being a [ValueError]; a constructed client routes
    to https://<region>.api.riotgames.com and
    https://<platform>.api.riotgames.com and starts with an empty cache. *)
Theorem init_spec (config : Config) (key reg plat : option string) :
  let k := or_default key (RIOT_API_KEY config) in
  let r := or_default reg (RIOT_API_REGION config) in
  let p := or_default plat (RIOT_API_PLATFORM config) in
  let regions := ["americas"; "asia"; "europe"; "sea"] in
  let platforms :=
    ["na1"; "euw1"; "eun1"; "kr"; "br1"; "la1"; "la2"; "oc1"; "tr1"; "ru";
     "jp1"; "ph2"; "sg2"; "th2"; "tw2"; "vn2"] in
  ((exists made, __init__ config key reg plat = Ok made)
   <-> k <> "" /\ In r regions /\ In p platforms) /\
  (forall made,
     __init__ config key reg plat = Ok made ->
     api_key made = k /\ region made = r /\ platform made = p /\
     regional_base_url (client made) = "https://" +:+ r +:+ ".api.riotgames.com" /\
     platform_base_url made = "https://" +:+ p +:+ ".api.riotgames.com" /\
     _cache (client made) = ∅ /\ _cache_expiry (client made) = ∅ /\
     cache_consistent (client made)) /\
  (k = "" ->
   __init__ config key reg plat = Raise (ValueError "Riot API key is required")) /\
  (k <> "" -> ~ In r regions ->
   __init__ config key reg plat = Raise (ValueError ("Invalid region: " +:+ r))) /\
  (k <> "" -> In r regions -> ~ In p platforms ->
   __init__ config key reg plat = Raise (ValueError ("Invalid platform: " +:+ p))).
Proof.
  cbn zeta. unfold __init__.
  set (k := or_default key _). set (r := or_default reg _).
  set (p := or_default plat _).
  change ["americas"; "asia"; "europe"; "sea"] with (map fst BASE_URLS).
  change ["na1"; "euw1"; "eun1"; "kr"; "br1"; "la1"; "la2"; "oc1"; "tr1"; "ru";
          "jp1"; "ph2"; "sg2"; "th2"; "tw2"; "vn2"] with (map fst PLATFORM_URLS).
  pose proof (dict_get_is_Some_keys BASE_URLS r) as Hr.
  pose proof (dict_get_is_Some_keys PLATFORM_URLS p) as Hp.
  pose proof (routing_lookup BASE_URLS r) as Hru.
  pose proof (routing_lookup PLATFORM_URLS p) as Hpu.
  destruct (String.eqb_spec k "") as [Hk|Hk].
  { repeat split; try congruence; try tauto;
      try (intros [made Hmade]; discriminate Hmade);
      try (intros made Hmade; discriminate Hmade);
      try (match goal with
           | Hex : exists _, Raise _ = Ok _ |- _ =>
               destruct Hex as [? Hmade]; discriminate Hmade
           end). }
  destruct (dict_get BASE_URLS r) as [ru|].
  2:{ assert (Hnr : ~ In r (map fst BASE_URLS)).
      { intros Hin. apply Hr in Hin. destruct Hin as [x Hx]. discriminate. }
      repeat split; try congruence; try tauto;
      try (intros [made Hmade]; discriminate Hmade);
      try (intros made Hmade; discriminate Hmade);
      try (match goal with
           | Hex : exists _, Raise _ = Ok _ |- _ =>
               destruct Hex as [? Hmade]; discriminate Hmade
           end). }
  destruct (Hru ru) as [Eru Hrne]; [now left | reflexivity |].
  destruct (String.eqb_spec ru "") as [|_]; [contradiction|].
  assert (Hinr : In r (map fst BASE_URLS)) by (apply Hr; eauto).
  destruct (dict_get PLATFORM_URLS p) as [pu|].
  2:{ assert (Hnp : ~ In p (map fst PLATFORM_URLS)).
      { intros Hin. apply Hp in Hin. destruct Hin as [x Hx]. discriminate. }
      repeat split; try congruence; try tauto;
      try (intros [made Hmade]; discriminate Hmade);
      try (intros made Hmade; discriminate Hmade);
      try (match goal with
           | Hex : exists _, Raise _ = Ok _ |- _ =>
               destruct Hex as [? Hmade]; discriminate Hmade
           end). }
  destruct (Hpu pu) as [Epu Hpne]; [now right | reflexivity |].
  destruct (String.eqb_spec pu "") as [|_]; [contradiction|].
  assert (Hinp : In p (map fst PLATFORM_URLS)) by (apply Hp; eauto).
  split; [split; [tauto | eauto]|].
  split.
  { intros made H. injection H as <-.
    cbn [api_key region platform regional_base_url platform_base_url client
         _cache _cache_expiry].
    do 7 (split; [first [assumption | reflexivity]|]).
    intros key'. cbn [_cache _cache_expiry]. rewrite !lookup_empty.
    split; intros [x Hx]; discriminate. }
  repeat split; intros; try contradiction; tauto.
Qed.

Lemma init_spec_witness :
  (exists made,
     __init__ {| RIOT_API_KEY := "RGAPI-1"; RIOT_API_REGION := "americas";
                 RIOT_API_PLATFORM := "na1" |} None (Some "europe") None
     = Ok made) /\
  __init__ {| RIOT_API_KEY := ""; RIOT_API_REGION := "americas";
              RIOT_API_PLATFORM := "na1" |} None None None
  = Raise (ValueError "Riot API key is required").
Proof.
  split.
  - apply (init_spec {| RIOT_API_KEY := "RGAPI-1"; RIOT_API_REGION := "americas";
                        RIOT_API_PLATFORM := "na1" |} None (Some "europe") None).
    cbn. split; [discriminate|]. split; tauto.
  - apply (init_spec {| RIOT_API_KEY := ""; RIOT_API_REGION := "americas";
                        RIOT_API_PLATFORM := "na1" |} None None None).
    reflexivity.
Defined.

Lemma list_ascii_of_string_app s1 s2 :
  String.list_ascii_of_string (s1 +:+ s2)
  = String.list_ascii_of_string s1 ++ String.list_ascii_of_string s2.
Proof.
  induction s1 as [|a s1 IH]; [reflexivity|].
  change (a :: String.list_ascii_of_string (s1 +:+ s2)
          = a :: (String.list_ascii_of_string s1 ++ String.list_ascii_of_string s2)).
  now rewrite IH.
Qed.

Lemma string_app_inv_tail s1 s2 t : s1 +:+ t = s2 +:+ t -> s1 = s2.
Proof.
  intros H. apply (f_equal String.list_ascii_of_string) in H.
  rewrite !list_ascii_of_string_app in H. apply app_inv_tail in H.
  rewrite <- (String.string_of_list_ascii_of_string s1),
          <- (String.string_of_list_ascii_of_string s2).
  now rewrite H.
Qed.

Lemma get_match_ids_by_puuid_url env puuid start count start_time end_time queue
    (c : Client) :
  get_match_ids_by_puuid env puuid start count start_time end_time queue c
  = _make_request env
      (match_ids_url (regional_base_url c) puuid start count start_time
         end_time queue) true 24 c.
Proof. reflexivity. Qed.

(** X7. Pages do not share a cache entry: for a listing with a non-zero
    count (the retrieval asks for 100), requests that differ only in their
    start offset have different locators, so the cached answer for one page
    is never served for another. *)
Theorem match_ids_url_start_inj base puuid count start_time end_time queue
    (start1 start2 : Z) :
  count <> 0 ->
  match_ids_url base puuid start1 count start_time end_time queue
  = match_ids_url base puuid start2 count start_time end_time queue ->
  start1 = start2.
Proof.
  intros Hcount. unfold match_ids_url, truthy_int.
  destruct (Z.eqb_spec count 0) as [|_]; [contradiction|]. cbn [negb].
  set (tail := (if truthy_opt_int start_time then _ else _) ++ _).
  set (cnt := "count=" +:+ pretty (Z.min count 100)).
  set (u := base +:+ "/lol/match/v5/matches/by-puuid/" +:+ puuid +:+ "/ids").
  assert (Hq : forall q, negb (String.eqb (cnt +:+ q) "") = true).
  { intros q. reflexivity. }
  assert (Hcnt : cnt = "count=" +:+ pretty (Z.min count 100)) by reflexivity.
  clearbody tail cnt u.
  assert (Hnil : forall s : string, s = s +:+ "").
  { clear. intros s. induction s as [|a s IH]; [reflexivity|].
    change (String a s = String a (s +:+ "")). now rewrite <- IH. }
  assert (Hjoin0 : join "&" ([] ++ [cnt] ++ tail) = cnt +:+
                   match tail with [] => "" | _ => "&" +:+ join "&" tail end).
  { cbn [app join]. destruct tail; [apply Hnil | reflexivity]. }
  assert (Hjoin1 : forall s, join "&" ([s] ++ [cnt] ++ tail)
                             = s +:+ "&" +:+ join "&" ([] ++ [cnt] ++ tail)).
  { intros s. reflexivity. }
  assert (Hne : forall s, negb (String.eqb ("start=" +:+ s) "") = true)
    by reflexivity.
  destruct (Z.eqb_spec start1 0) as [->|H1], (Z.eqb_spec start2 0) as [->|H2];
    cbn [negb]; try reflexivity.
  - rewrite Hjoin1, Hjoin0, Hq. cbn [negb]. intros H.
    apply String.app_inj in H. rewrite Hcnt in H. simpl in H. discriminate H.
  - rewrite Hjoin1, Hjoin0, Hq. cbn [negb]. intros H.
    apply String.app_inj in H. rewrite Hcnt in H. simpl in H. discriminate H.
  - rewrite !Hjoin1. cbn [negb]. intros H.
    apply String.app_inj in H.
    change ("?" +:+ ("start=" +:+ pretty start1) +:+ "&" +:+ join "&" ([] ++ [cnt] ++ tail))
      with ("?start=" +:+ (pretty start1 +:+ "&" +:+ join "&" ([] ++ [cnt] ++ tail))) in H.
    change ("?" +:+ ("start=" +:+ pretty start2) +:+ "&" +:+ join "&" ([] ++ [cnt] ++ tail))
      with ("?start=" +:+ (pretty start2 +:+ "&" +:+ join "&" ([] ++ [cnt] ++ tail))) in H.
    apply String.app_inj in H. apply string_app_inv_tail in H.
    now apply pretty_Z_inj in H.
Qed.

(** The first page and the second page of one listing: the locators
    differ, and equal locators come from equal offsets. *)
Lemma match_ids_url_start_inj_witness :
  (match_ids_url "https://americas.api.riotgames.com" "p-1" 0 100 None None None
   =? match_ids_url "https://americas.api.riotgames.com" "p-1" 100 100 None None
        None)%string = false /\
  200 = 200.
Proof.
  split; [reflexivity|].
  apply (match_ids_url_start_inj "https://americas.api.riotgames.com" "p-1"
           100 (Some 1700000000) None None 200 200);
    [discriminate | reflexivity].
Defined.

End SetupProps.

(** ** Full-history retrieval, beyond the claims *)

Section HistoryMore.

Import History Listing.

Context {S MatchId Match : Type}.
Variable get_match_ids_by_puuid : string -> Z -> Z -> Z -> M S (list MatchId).
Variable get_match_details : MatchId -> M S Match.
Variable datetime_now : S -> Z * S.
Variable start_timestamp : Z -> Z -> sum string Z.

#[local] Abbreviation for_ids := (for_match_ids get_match_details).
#[local] Abbreviation body :=
  (while_body get_match_ids_by_puuid get_match_details).
#[local] Abbreviation loop :=
  (while_loop get_match_ids_by_puuid get_match_details).
#[local] Abbreviation history :=
  (get_full_match_history get_match_ids_by_puuid get_match_details datetime_now
     start_timestamp).

(** X8. A non-positive [max_matches] asks the upstream nothing: only the
    clock is read.  When the date arithmetic on [days_back] succeeds the
    result is the empty list, whatever the number of passes allowed; when it
    raises (an [OverflowError] for a [days_back] out of range), that
    exception reaches the caller. *)
Theorem history_nothing_asked fuel puuid (max_matches days_back : Z) (s : S) :
  max_matches <= 0 ->
  history fuel puuid max_matches days_back s
  = (match start_timestamp (datetime_now s).1 days_back with
     | inl error => Raise (OtherException error)
     | inr _ => Ok (Some [])
     end, (datetime_now s).2).
Proof.
  intros Hmax. rewrite get_full_match_history_unfold. cbn zeta.
  destruct (start_timestamp _ _) as [error|start_time]; [reflexivity|].
  rewrite while_loop_unfold. cbn [fst snd all_matches].
  destruct (Z.ltb_spec (len (@nil Match)) max_matches) as [H|_]; [|reflexivity].
  unfold len in H. cbn in H. lia.
Qed.

Lemma for_match_ids_appends max_matches ids : forall (s : S) (l : Locals Match),
  exists added,
    all_matches (for_ids max_matches ids (s, l)).2.2 = all_matches l ++ added.
Proof.
  induction ids as [|match_id rest IH]; intros s l.
  - exists []. cbn. now rewrite app_nil_r.
  - rewrite for_match_ids_cons.
    destruct (max_matches <=? len (all_matches l)).
    { exists []. cbn. now rewrite app_nil_r. }
    destruct (get_match_details match_id s) as [[d|e] s1].
    + destruct (IH s1 (appended d l)) as [added Ha]. exists (d :: added).
      rewrite Ha. cbn [appended all_matches]. now rewrite <- app_assoc.
    + destruct e as [|key|msg|kind];
        try (exists []; cbn; now rewrite app_nil_r).
      apply IH.
Qed.

Lemma while_body_appends puuid max_matches start_time (s : S) (l : Locals Match) :
  exists added,
    all_matches (body puuid max_matches start_time (s, l)).2.2
    = all_matches l ++ added.
Proof.
  rewrite while_body_unfold.
  destruct (get_match_ids_by_puuid puuid (start_index l) batch_size start_time s)
    as [[ids|e] s1].
  - destruct ids as [|match_id rest].
    { exists []. cbn. now rewrite app_nil_r. }
    destruct (for_match_ids_appends max_matches (match_id :: rest) s1 l)
      as [added Ha].
    exists added.
    destruct (for_ids max_matches (match_id :: rest) (s1, l)) as [[[]|e] st'];
      exact Ha.
  - exists []. destruct e; cbn; now rewrite app_nil_r.
Qed.

(** X9. The loop only ever appends: whatever the upstream does (errors,
    short pages, exceptions of any kind), the matches gathered before a run
    of the loop are still there afterwards, in the same order, at the front
    of the list. *)
Theorem while_loop_appends puuid max_matches start_time fuel :
  forall (st : S * Locals Match),
  exists added,
    all_matches (loop puuid max_matches start_time fuel st).2.2
    = all_matches st.2 ++ added.
Proof.
  induction fuel as [|fuel IH]; intros [s l]; rewrite while_loop_unfold;
    cbn [fst snd]; destruct (len (all_matches l) <? max_matches);
    try (exists []; cbn; now rewrite app_nil_r).
  destruct (while_body_appends puuid max_matches start_time s l) as [added Ha].
  destruct (body puuid max_matches start_time (s, l)) as [[[]|e] st'];
    cbn [fst snd] in *.
  - destruct (IH st') as [more Hm]. exists (added ++ more).
    rewrite Hm, Ha. now rewrite <- app_assoc.
  - exists added. exact Ha.
  - exists added. exact Ha.
Qed.

Section WellBehaved.

(** The upstream serves [page start] at every offset and [detail match_id]
    for every id, whatever else it does to the state. *)
Variable page : Z -> list MatchId.
Variable detail : MatchId -> Match.
Variable puuid : string.

Hypothesis listing_ok : forall start start_time s,
  (get_match_ids_by_puuid puuid start batch_size start_time s).1
  = Ok (page start).
Hypothesis detail_ok : forall match_id s,
  (get_match_details match_id s).1 = Ok (detail match_id).

Lemma for_match_ids_well_behaved max_matches ids :
  forall (s : S) (l : Locals Match),
    len (all_matches l) <= max_matches ->
    exists s',
      for_ids max_matches ids (s, l)
      = (Ok tt,
         (s', {| all_matches :=
                   all_matches l
                   ++ map detail
                        (take (Z.to_nat (max_matches - len (all_matches l))) ids);
                 start_index := start_index l |})).
Proof using detail_ok.
  induction ids as [|match_id rest IH]; intros s l Hl.
  - exists s. cbn [for_match_ids ret]. rewrite take_nil. cbn [map].
    rewrite app_nil_r. now destruct l.
  - rewrite for_match_ids_cons.
    destruct (Z.leb_spec max_matches (len (all_matches l))) as [Hfull|Hroom].
    + exists s. replace (Z.to_nat (max_matches - len (all_matches l))) with O by lia.
      cbn [take map]. rewrite app_nil_r. now destruct l.
    + pose proof (detail_ok match_id s) as Hd.
      destruct (get_match_details match_id s) as [[d|e] s1]; cbn [fst] in Hd;
        [|discriminate]. injection Hd as ->.
      assert (Hlen : len (all_matches (appended (detail match_id) l))
                     = len (all_matches l) + 1).
      { unfold len, appended. cbn. rewrite length_app. cbn. lia. }
      destruct (IH s1 (appended (detail match_id) l)) as [s' Hs']; [lia|].
      exists s'. rewrite Hs'. rewrite Hlen.
      replace (Z.to_nat (max_matches - len (all_matches l)))
        with (Datatypes.S (Z.to_nat (max_matches - (len (all_matches l) + 1))))
        by lia.
      cbn [take map appended all_matches start_index].
      now rewrite <- app_assoc.
Qed.

Lemma while_loop_well_behaved max_matches start_time fuel :
  forall (s : S) (l : Locals Match),
    len (all_matches l) <= max_matches ->
    (loop puuid max_matches start_time fuel (s, l)).1 = Ok true ->
    all_matches (loop puuid max_matches start_time fuel (s, l)).2.2
    = all_matches l
      ++ map detail
           (take (Z.to_nat (max_matches - len (all_matches l)))
              (listed page fuel (start_index l))).
Proof using listing_ok detail_ok.
  induction fuel as [|fuel IH]; intros s l Hl; rewrite while_loop_unfold;
    cbn [fst snd].
  - destruct (Z.ltb_spec (len (all_matches l)) max_matches); [discriminate|].
    intros _. cbn [listed]. rewrite take_nil. cbn. now rewrite app_nil_r.
  - destruct (Z.ltb_spec (len (all_matches l)) max_matches) as [Hroom|Hfull].
    2:{ intros _. cbn [snd].
        replace (Z.to_nat (max_matches - len (all_matches l))) with O by lia.
        cbn. now rewrite app_nil_r. }
    rewrite while_body_unfold.
    pose proof (listing_ok (start_index l) start_time s) as Hp.
    destruct (get_match_ids_by_puuid puuid (start_index l) batch_size start_time s)
      as [[ids|e] s1]; cbn [fst] in Hp; [|discriminate].
    injection Hp as Hp. cbn [listed]. rewrite <- Hp.
    destruct ids as [|match_id rest].
    { intros _. change (len (@nil MatchId) <? batch_size) with true. cbv iota.
      rewrite take_nil. cbn. now rewrite app_nil_r. }
    destruct (for_match_ids_well_behaved max_matches (match_id :: rest) s1 l)
      as [s' Hfor]; [lia|].
    rewrite Hfor. cbn [fst snd].
    set (ids := match_id :: rest) in *.
    set (room := Z.to_nat (max_matches - len (all_matches l))) in *.
    destruct (Z.ltb_spec (len ids) batch_size) as [Hshort|Hfullpage].
    + intros _. cbn [snd advanced all_matches]. reflexivity.
    + set (l1 := advanced _).
      assert (Hl1 : all_matches l1 = all_matches l ++ map detail (take room ids))
        by reflexivity.
      assert (Hs1 : start_index l1 = start_index l + batch_size) by reflexivity.
      assert (Hlen1 : len (all_matches l1)
                      = len (all_matches l) + Z.of_nat (Nat.min room (length ids))).
      { rewrite Hl1. unfold len. rewrite length_app, length_map, length_take. lia. }
      intros Hok. rewrite (IH s' l1); [|unfold room in *; lia|exact Hok].
      rewrite Hlen1, Hl1, Hs1, <- app_assoc. f_equal. rewrite <- map_app. f_equal.
      rewrite take_app. f_equal. f_equal. unfold room. lia.
Qed.

Lemma while_loop_well_behaved_runs max_matches start_time fuel :
  forall (s : S) (l : Locals Match),
    len (all_matches l) <= max_matches ->
    exists left, (loop puuid max_matches start_time fuel (s, l)).1 = Ok left.
Proof using listing_ok detail_ok.
  induction fuel as [|fuel IH]; intros s l Hl; rewrite while_loop_unfold;
    cbn [fst snd]; destruct (len (all_matches l) <? max_matches);
    try (cbn [fst]; eauto; fail).
  rewrite while_body_unfold.
  pose proof (listing_ok (start_index l) start_time s) as Hp.
  destruct (get_match_ids_by_puuid puuid (start_index l) batch_size start_time s)
    as [[ids|e] s1]; cbn [fst] in Hp; [|discriminate].
  destruct ids as [|match_id rest]; [cbn [fst]; eauto|].
  destruct (for_match_ids_well_behaved max_matches (match_id :: rest) s1 l)
    as [s' Hfor]; [lia|].
  rewrite Hfor. cbn [fst snd].
  destruct (len (match_id :: rest) <? batch_size); [cbn [fst]; eauto|].
  apply IH. cbn [advanced all_matches]. unfold len.
  rewrite length_app, length_map, length_take. unfold len in Hl. lia.
Qed.

(** X10. Against a well-behaved upstream (every listing request answered
    with the page at its offset, every detail request answered), and when
    the date arithmetic on [days_back] gives a start time, the retrieval
    returns the details of the first [max_matches] ids of the listing, in
    listing order, where the listing is the pages read one after the other
    up to the first page shorter than 100; [max_matches + 1] passes are
    enough.  When the date arithmetic raises instead, that exception
    reaches the caller. *)
Theorem history_well_behaved fuel (max_matches days_back : Z) (s : S) :
  (Z.to_nat max_matches < fuel)%nat ->
  (forall start_time,
     start_timestamp (datetime_now s).1 days_back = inr start_time ->
     (history fuel puuid max_matches days_back s).1
     = Ok (Some (map detail
                   (take (Z.to_nat max_matches) (listed page fuel 0))))) /\
  (forall error,
     start_timestamp (datetime_now s).1 days_back = inl error ->
     (history fuel puuid max_matches days_back s).1
     = Raise (OtherException error)).
Proof using listing_ok detail_ok.
  intros Hfuel. split.
  2:{ intros error Hstart. rewrite get_full_match_history_unfold. cbn zeta.
      rewrite Hstart. reflexivity. }
  intros start_time Hstart.
  destruct (Z.le_gt_cases 0 max_matches) as [Hpos|Hneg].
  2:{ replace (Z.to_nat max_matches) with O by lia.
      rewrite get_full_match_history_unfold. cbn zeta. rewrite Hstart.
      rewrite while_loop_unfold. cbn [fst snd all_matches].
      destruct (Z.ltb_spec (len (@nil Match)) max_matches) as [H|_];
        [|reflexivity].
      unfold len in H. cbn in H. lia. }
  rewrite get_full_match_history_unfold. cbn zeta. rewrite Hstart.
  set (s0 := (datetime_now s).2).
  set (l0 := {| all_matches := @nil Match; start_index := 0 |}).
  assert (Hl0 : len (all_matches l0) = 0) by reflexivity.
  assert (Hrel : reliable get_match_details).
  { intros match_id s1 msg H. rewrite detail_ok in H. discriminate. }
  pose proof (while_loop_terminates_reliable get_match_ids_by_puuid
                get_match_details puuid max_matches start_time fuel Hrel (s0, l0))
    as Hterm.
  pose proof (while_loop_well_behaved max_matches start_time fuel s0 l0) as Hwb.
  destruct (while_loop_well_behaved_runs max_matches start_time fuel s0 l0)
    as [left Hleft]; [lia|].
  rewrite Hl0, Z.sub_0_r in Hwb.
  destruct left.
  - rewrite Hleft, Hwb by (lia || exact Hleft). reflexivity.
  - exfalso. apply Hterm; [|exact Hleft]. cbn [snd]. rewrite Hl0. lia.
Qed.

End WellBehaved.

End HistoryMore.

Section HistoryMoreWitnesses.

Import History Listing.

(** No pass allowed and no match wanted: the empty list. *)
Lemma history_nothing_asked_witness :
  scripted_history endless_pages no_detail 0 0 = (Ok (Some []), O).
Proof.
  unfold scripted_history.
  rewrite (history_nothing_asked (scripted_ids endless_pages)
             (scripted_details no_detail) scripted_now scripted_start
             0 "puuid" 0 365 O) by lia.
  reflexivity.
Defined.

(** Two full pages upstream and 150 matches wanted: the details of the
    first 150 ids. *)
Lemma history_well_behaved_witness :
  (scripted_history two_pages every_detail 151 150).1
  = Ok (Some (map every_detail_of
                (take 150 (listed (fun start => default [] (two_pages start))
                             151 0)))).
Proof.
  refine (proj1 (history_well_behaved (scripted_ids two_pages)
                   (scripted_details every_detail) scripted_now scripted_start
                   (fun start => default [] (two_pages start)) every_detail_of
                   "puuid" _ _ 151%nat 150 365 O _) 1668464000 _).
  - intros start start_time s. unfold scripted_ids, two_pages, bind, modify.
    destruct (start <? 200); reflexivity.
  - intros match_id s. reflexivity.
  - cbn. lia.
  - vm_compute. reflexivity.
Defined.

End HistoryMoreWitnesses.

(** ** Aggregates, beyond the claims *)

Section OverallStatsMore.

Import Processor.

Lemma series_sum_acc_between (lo hi : Q) (l : list Q) : forall a : Q,
  Forall (fun q => (lo <= q <= hi)%Q) l ->
  (a + inject_Z (Processor.len l) * lo <= foldl Qplus a l
   <= a + inject_Z (Processor.len l) * hi)%Q.
Proof.
  induction l as [|q l IH]; intros a Hall.
  - change (inject_Z (Processor.len (@nil Q))) with 0%Q. cbn [foldl].
    split; lra.
  - inversion Hall as [|? ? Hq Hl]; subst. cbn [foldl].
    specialize (IH (a + q)%Q Hl).
    assert (E : (inject_Z (Processor.len (q :: l))
                 == inject_Z (Processor.len l) + 1)%Q).
    { unfold Processor.len. cbn [length]. rewrite Nat2Z.inj_succ.
      unfold Z.succ. rewrite inject_Z_plus. reflexivity. }
    rewrite E. revert IH. generalize (inject_Z (Processor.len l)).
    generalize (foldl Qplus (a + q)%Q l). intros f n IH. split; lra.
Qed.

(** A mean lies between any two bounds of the values. *)
Lemma series_mean_between (lo hi : Q) (l : list Q) :
  l <> [] ->
  Forall (fun q => (lo <= q <= hi)%Q) l ->
  (lo <= series_mean l <= hi)%Q.
Proof.
  intros Hne Hall. unfold series_mean, series_sum.
  pose proof (series_sum_acc_between lo hi l 0 Hall) as [Hlo Hhi].
  assert (Hn : (0 < inject_Z (Processor.len l))%Q).
  { rewrite <- (Zlt_Qlt 0). now apply len_pos. }
  revert Hlo Hhi Hn. generalize (inject_Z (Processor.len l)), (foldl Qplus 0%Q l).
  intros n f Hlo Hhi Hn. split.
  - apply Qle_shift_div_l; [exact Hn | lra].
  - apply Qle_shift_div_r; [exact Hn | lra].
Qed.

Lemma win_count_bounds (df : DataFrame) :
  0 <= win_count df <= Processor.len df.
Proof.
  unfold win_count, Processor.len.
  split; [lia | apply Nat2Z.inj_le, length_filter].
Qed.

Lemma win_rate_expr_bounds wins total_games q :
  0 <= wins <= total_games ->
  win_rate_expr wins total_games = Ok q ->
  (0 <= q <= 100)%Q /\ decimal 2 q \/ total_games <= 0 /\ q = 0%Q.
Proof.
  intros Hw. unfold win_rate_expr.
  destruct (Z.ltb_spec 0 total_games) as [Hpos|Hnon].
  - rewrite truediv_nonzero by (apply inject_Z_nonzero; lia).
    cbn [res_bind]. intros H. injection H as <-. left.
    split; [|apply round_decimal].
    apply (round_between 0 100).
    assert (Ht : (0 < inject_Z total_games)%Q) by (rewrite <- (Zlt_Qlt 0); lia).
    assert (Hw0 : (0 <= inject_Z wins)%Q) by (rewrite <- (Zle_Qle 0); lia).
    assert (Hw1 : (inject_Z wins <= inject_Z total_games)%Q)
      by (rewrite <- Zle_Qle; lia).
    change (inject_Z 0) with 0%Q. change (inject_Z 100) with 100%Q.
    revert Ht Hw0 Hw1. generalize (inject_Z wins), (inject_Z total_games).
    intros w t Ht Hw0 Hw1.
    assert (Hr0 : (0 <= w / t)%Q) by (apply Qle_shift_div_l; lra).
    assert (Hr1 : (w / t <= 1)%Q) by (apply Qle_shift_div_r; lra).
    split; lra.
  - intros H. injection H as <-. right. split; [lia | reflexivity].
Qed.

(** X11. The counters of the overall statistics are coherent: the game
    count is the number of rows and is positive, wins and losses are
    non-negative and add up to it, and the win rate is a two-decimal number
    between 0 and 100, which is 100 when every game was won and 0 when none
    was. *)
Theorem calculate_overall_stats_coherent (df : DataFrame) s :
  calculate_overall_stats df = Ok (Some s) ->
  total_games s = Processor.len df /\
  0 < total_games s /\
  wins s = win_count df /\
  0 <= wins s /\ 0 <= losses s /\
  wins s + losses s = total_games s /\
  (0 <= win_rate s <= 100)%Q /\
  decimal 2 (win_rate s) /\
  (losses s = 0 -> win_rate s = 100%Q) /\
  (wins s = 0 -> win_rate s = 0%Q).
Proof.
  unfold calculate_overall_stats.
  destruct df as [|r df]; [discriminate|]. cbn [empty].
  set (rows := r :: df).
  assert (Hpos : 0 < Processor.len rows) by (apply len_pos; discriminate).
  pose proof (win_count_bounds rows) as Hw.
  rewrite (win_rate_expr_pos _ _ Hpos). cbn [res_bind].
  intros H. injection H as <-.
  cbn [total_games wins losses win_rate].
  pose proof (win_rate_expr_bounds _ _ _ Hw (win_rate_expr_pos _ _ Hpos))
    as [[Hb Hd]|[Hbad _]]; [|lia].
  repeat split; try lia; try tauto.
  - intros Hl. replace (win_count rows) with (Processor.len rows) by lia.
    clear Hw Hb Hd. unfold round.
    assert (E : (inject_Z (Processor.len rows) / inject_Z (Processor.len rows)
                 * 100 * inject_Z (Z.pos (pow10 2)) == inject_Z 10000)%Q).
    { assert (Hq : (0 < inject_Z (Processor.len rows))%Q)
        by (rewrite <- (Zlt_Qlt 0); exact Hpos).
      revert Hq. generalize (inject_Z (Processor.len rows)). intros t Hq.
      change (inject_Z (Z.pos (pow10 2))) with 100%Q.
      change (inject_Z 10000) with 10000%Q. field. lra. }
    rewrite (round_half_even_proper _ _ E), round_half_even_inject_Z.
    reflexivity.
  - intros Hz. rewrite Hz. unfold round.
    assert (E : (inject_Z 0 / inject_Z (Processor.len rows)
                 * 100 * inject_Z (Z.pos (pow10 2)) == inject_Z 0)%Q).
    { unfold Qeq, Qdiv, Qmult. simpl. lia. }
    rewrite (round_half_even_proper _ _ E), round_half_even_inject_Z.
    reflexivity.
Qed.

Lemma calculate_overall_stats_coherent_witness :
  exists s, calculate_overall_stats Sample.seven_games = Ok (Some s) /\
            wins s + losses s = 7.
Proof.
  eexists. split; [reflexivity|].
  pose proof (calculate_overall_stats_coherent Sample.seven_games _ eq_refl)
    as (Ht & _ & _ & _ & _ & Hsum & _).
  rewrite Hsum, Ht. reflexivity.
Defined.

End OverallStatsMore.

(** ** Grouping by month *)

Section Grouping.

Import Processor.

Variable key : MatchRecord -> Z.

#[local] Abbreviation Groups := (list (Z * list MatchRecord)).

Lemma group_insert_keys_above a k r (G : Groups) :
  a < k ->
  Forall (Z.lt a) (map fst G) ->
  Forall (Z.lt a) (map fst (group_insert k r G)).
Proof.
  intros Hak. induction G as [|[k' rs] G IH]; intros HG; cbn [group_insert].
  - repeat constructor. exact Hak.
  - inversion HG as [|? ? Hk' HG']; subst.
    destruct (k <? k'); [constructor; [exact Hak | exact HG]|].
    destruct (k =? k'); constructor; auto.
Qed.

Lemma group_insert_sorted k r (G : Groups) :
  StronglySorted Z.lt (map fst G) ->
  StronglySorted Z.lt (map fst (group_insert k r G)).
Proof.
  induction G as [|[k' rs] G IH]; intros HG; cbn [group_insert].
  - repeat constructor.
  - inversion HG as [|? ? Hs Hall]; subst.
    destruct (Z.ltb_spec k k') as [Hlt|Hge].
    + constructor; [exact HG|]. constructor; [exact Hlt|].
      eapply Forall_impl; [exact Hall|]. cbn. intros; lia.
    + destruct (Z.eqb_spec k k') as [->|Hne].
      * constructor; assumption.
      * cbn [map fst]. constructor; [now apply IH|].
        apply group_insert_keys_above; [lia | exact Hall].
Qed.

Lemma group_insert_In k r (G : Groups) :
  StronglySorted Z.lt (map fst G) ->
  forall k' rows',
    In (k', rows') (group_insert k r G) <->
    (k' <> k /\ In (k', rows') G) \/
    (k' = k /\ exists old, rows' = old ++ [r] /\
                 (In (k, old) G \/ old = [] /\ ~ In k (map fst G))).
Proof.
  induction G as [|[k0 rs] G IH]; intros HG k' rows'; cbn [group_insert].
  - cbn. split.
    + intros [H|[]]. injection H as <- <-. right. split; [reflexivity|].
      exists []. split; [reflexivity|]. right. tauto.
    + intros [[_ []]|[-> (old & -> & [[]|[-> _]])]]. now left.
  - inversion HG as [|? ? Hs Hall]; subst.
    assert (Hk0 : forall rows, In (k0, rows) G -> False).
    { intros rows Hin. rewrite List.Forall_forall in Hall.
      specialize (Hall k0 (in_map fst _ _ Hin)). cbn in Hall. lia. }
    destruct (Z.ltb_spec k k0) as [Hlt|Hge].
    + assert (Hnk : ~ In k (map fst ((k0, rs) :: G))).
      { cbn. intros [E|Hin]; [lia|]. rewrite List.Forall_forall in Hall.
        specialize (Hall k Hin). cbn in Hall. lia. }
      assert (Hnk' : forall old, ~ In (k, old) ((k0, rs) :: G)).
      { intros old Hin. apply Hnk. apply (in_map fst) in Hin. exact Hin. }
      cbn [In]. split.
      * intros [H|H].
        -- injection H as <- <-. right. split; [reflexivity|].
           exists []. split; [reflexivity|]. right. split; [reflexivity|exact Hnk].
        -- left. split; [|exact H]. intros ->. exact (Hnk' _ H).
      * intros [[_ H]|[-> (old & -> & [H|[-> _]])]].
        -- right. exact H.
        -- exfalso. exact (Hnk' _ H).
        -- now left.
    + destruct (Z.eqb_spec k k0) as [->|Hne].
      * cbn [In]. split.
        -- intros [H|H].
           ++ injection H as <- <-. right. split; [reflexivity|].
              exists rs. split; [reflexivity|]. left. now left.
           ++ left. split; [|now right]. intros ->. exact (Hk0 _ H).
        -- intros [[Hn [H|H]]|[-> (old & -> & [[H|H]|[-> Hnot]])]].
           ++ injection H as E _. congruence.
           ++ now right.
           ++ injection H as <-. now left.
           ++ exfalso. exact (Hk0 _ H).
           ++ exfalso. apply Hnot. cbn. now left.
      * cbn [In]. rewrite (IH Hs). split.
        -- intros [H|[[Hn H]|[-> (old & -> & [H|[-> Hnot]])]]].
           ++ injection H as <- <-. left. split; [congruence | now left].
           ++ left. split; [exact Hn | now right].
           ++ right. split; [reflexivity|]. exists old.
              split; [reflexivity|]. left. now right.
           ++ right. split; [reflexivity|]. exists [].
              split; [reflexivity|]. right. split; [reflexivity|].
              cbn. intros [E|Hin]; [congruence | contradiction].
        -- intros [[Hn [H|H]]|[-> (old & -> & [[H|H]|[-> Hnot]])]].
           ++ now left.
           ++ right. left. split; assumption.
           ++ injection H as E _. congruence.
           ++ right. right. split; [reflexivity|]. exists old.
              split; [reflexivity|]. now left.
           ++ right. right. split; [reflexivity|]. exists [].
              split; [reflexivity|]. right. split; [reflexivity|].
              intros Hin. apply Hnot. cbn. now right.
Qed.

Lemma groupby_snoc (df : DataFrame) r :
  groupby key (df ++ [r]) = group_insert (key r) r (groupby key df).
Proof. unfold groupby. now rewrite foldl_app. Qed.

(** What [groupby] builds: one group per key that occurs, in ascending key
    order, each holding the rows with that key in storage order. *)
Lemma groupby_spec (df : list MatchRecord) :
  StronglySorted Z.lt (map fst (groupby key df)) /\
  forall k rows,
    In (k, rows) (groupby key df) <->
    rows = filter (fun r => key r = k) df /\ rows <> [].
Proof.
  induction df as [|r df IH] using rev_ind.
  - split; [constructor|]. intros k rows. cbn. split; [tauto|].
    intros [-> H]. now apply H.
  - destruct IH as [Hs Hin]. rewrite groupby_snoc.
    split; [now apply group_insert_sorted|].
    intros k rows. rewrite (group_insert_In _ _ _ Hs), filter_app.
    assert (Hkeys : forall k0, In k0 (map fst (groupby key df))
                               <-> filter (fun r => key r = k0) df <> []).
    { intros k0. split.
      - intros Hk. apply in_map_iff in Hk as [[k1 rs] [E Hk]]. cbn in E. subst k1.
        apply Hin in Hk as [<- Hne]. exact Hne.
      - intros Hne. apply in_map_iff. exists (k0, filter (fun r => key r = k0) df).
        split; [reflexivity|]. apply Hin. split; [reflexivity | exact Hne]. }
    split.
    + intros [[Hne Hold]|[-> (old & -> & [Hold|[-> Hnot]])]].
      * apply Hin in Hold as [-> Hnn]. rewrite filter_cons_False by congruence.
        rewrite filter_nil, app_nil_r. split; [reflexivity | exact Hnn].
      * apply Hin in Hold as [-> Hnn].
        rewrite filter_cons_True by reflexivity. rewrite filter_nil.
        split; [reflexivity|]. intros E. now apply app_eq_nil in E as [_ E].
      * rewrite filter_cons_True by reflexivity. rewrite filter_nil.
        assert (E : filter (fun r0 => key r0 = key r) df = []).
        { destruct (filter (fun r0 => key r0 = key r) df) eqn:Ef; [reflexivity|].
          exfalso. apply Hnot, Hkeys. rewrite Ef. discriminate. }
        rewrite E. split; [reflexivity | discriminate].
    + intros [-> Hnn]. destruct (Z.eq_dec k (key r)) as [->|Hne].
      * right. split; [reflexivity|].
        exists (filter (fun r0 => key r0 = key r) df).
        rewrite filter_cons_True by reflexivity. rewrite filter_nil.
        split; [reflexivity|].
        destruct (filter (fun r0 => key r0 = key r) df) eqn:Ef.
        -- right. split; [reflexivity|]. intros Hk. apply Hkeys in Hk. congruence.
        -- left. apply Hin. rewrite Ef. split; [reflexivity | discriminate].
      * left. split; [exact Hne|]. apply Hin.
        rewrite filter_cons_False in Hnn |- * by congruence.
        rewrite filter_nil, app_nil_r in Hnn |- *.
        split; [reflexivity | exact Hnn].
Qed.

Lemma group_insert_rows k r (G : Groups) :
  foldr (fun g n => Processor.len g.2 + n) 0 (group_insert k r G)
  = foldr (fun g n => Processor.len g.2 + n) 0 G + 1.
Proof.
  induction G as [|[k' rs] G IH]; cbn [group_insert].
  - reflexivity.
  - destruct (k <? k'); [cbn; unfold Processor.len; cbn; lia|].
    destruct (k =? k'); cbn [foldr snd].
    + unfold Processor.len. rewrite length_app. cbn. lia.
    + rewrite IH. lia.
Qed.

Lemma groupby_rows (df : list MatchRecord) :
  foldr (fun g n => Processor.len g.2 + n) 0 (groupby key df) = Processor.len df.
Proof.
  induction df as [|r df IH] using rev_ind; [reflexivity|].
  rewrite groupby_snoc, group_insert_rows, IH.
  unfold Processor.len. rewrite length_app. cbn. lia.
Qed.

End Grouping.

Section TrendTable.

Import Processor.

Lemma win_mean_bounds (rows : list MatchRecord) :
  rows <> [] -> (0 <= win_mean rows <= 1)%Q.
Proof.
  intros Hne. unfold win_mean. apply series_mean_between.
  - destruct rows; [congruence | discriminate].
  - apply List.Forall_forall. intros q Hq. apply in_map_iff in Hq as (r & <- & _).
    destruct (win r); split; discriminate.
Qed.

Lemma trend_win_rate_bounds (rows : list MatchRecord) :
  rows <> [] -> (0 <= round (round (win_mean rows) 2 * 100) 2 <= 100)%Q.
Proof.
  intros Hne. apply (round_between 0 100).
  pose proof (round_between 0 1 (win_mean rows) 2 (win_mean_bounds rows Hne)) as H.
  change (inject_Z 0) with 0%Q in *. change (inject_Z 1) with 1%Q in H.
  change (inject_Z 100) with 100%Q.
  revert H. generalize (round (win_mean rows) 2). intros q H. lra.
Qed.

(** The rows of the trend table are the months of the history, ascending,
    each with the games of that month, of which there is at least one. *)
Lemma trend_rows_of_months (df : DataFrame) :
  StronglySorted Z.lt (map tr_period (get_performance_trends df)) /\
  (forall r, In r df -> In (month r) (map tr_period (get_performance_trends df))) /\
  (forall row, In row (get_performance_trends df) ->
     exists r, In r df /\ month r = tr_period row).
Proof.
  unfold get_performance_trends.
  destruct df as [|r0 df0]; [cbn; repeat split; try constructor; tauto|].
  set (df := r0 :: df0). change (empty df) with false. cbv iota.
  destruct (groupby_spec month df) as [Hs Hin].
  revert Hs Hin. generalize (groupby month df). intros G Hs Hin.
  split; [|split].
  - rewrite List.map_map. exact Hs.
  - intros r Hr. rewrite List.map_map. cbn.
    apply in_map_iff. exists (month r, filter (fun r' => month r' = month r) df).
    split; [reflexivity|]. apply Hin. split; [reflexivity|].
    intros E. assert (Hm : r ∈ filter (fun r' => month r' = month r) df).
    { apply list_elem_of_filter. split; [reflexivity|]. now apply list_elem_of_In. }
    rewrite E in Hm. inversion Hm.
  - intros row Hrow. apply in_map_iff in Hrow as ([k rows] & <- & Hg). cbn.
    apply Hin in Hg as [-> Hne].
    destruct (filter (fun r => month r = k) df) as [|r rs] eqn:Ef; [congruence|].
    assert (Hr : r ∈ filter (fun r => month r = k) df) by (rewrite Ef; left).
    apply list_elem_of_filter in Hr as [Hk Hr]. apply list_elem_of_In in Hr.
    exists r. split; assumption.
Qed.

(** X12. The monthly trend table has exactly one row per month in which a
    game was played, in strictly ascending month order; the row of a month
    counts the games of that month, never zero, carries a win rate between
    0 and 100, and the game counts of all rows add up to the number of
    games. *)
Theorem get_performance_trends_table (df : DataFrame) :
  let trends := get_performance_trends df in
  StronglySorted Z.lt (map tr_period trends) /\
  (forall r, In r df -> In (month r) (map tr_period trends)) /\
  (forall row, In row trends ->
     tr_games row
     = Processor.len (filter (fun r => month r = tr_period row) df) /\
     1 <= tr_games row /\
     (0 <= tr_win_rate row <= 100)%Q) /\
  foldr (fun row n => tr_games row + n) 0 trends = Processor.len df.
Proof.
  cbn zeta. unfold get_performance_trends.
  destruct df as [|r0 df0]; [cbn; repeat split; try constructor; tauto|].
  set (df := r0 :: df0). change (empty df) with false. cbv iota.
  destruct (groupby_spec month df) as [Hs Hin].
  pose proof (groupby_rows month df) as Hrows.
  revert Hs Hin Hrows. generalize (groupby month df). intros G Hs Hin Hrows.
  repeat split.
  - rewrite List.map_map. exact Hs.
  - intros r Hr. rewrite List.map_map. cbn.
    apply in_map_iff. exists (month r, filter (fun r' => month r' = month r) df).
    split; [reflexivity|]. apply Hin. split; [reflexivity|].
    intros E. assert (Hm : r ∈ filter (fun r' => month r' = month r) df).
    { apply list_elem_of_filter. split; [reflexivity|]. now apply list_elem_of_In. }
    rewrite E in Hm. inversion Hm.
  - apply in_map_iff in H as ([k rows] & <- & Hg). cbn.
    apply Hin in Hg as [-> _]. reflexivity.
  - apply in_map_iff in H as ([k rows] & <- & Hg). cbn.
    apply Hin in Hg as [_ Hne]. pose proof (len_pos rows Hne). lia.
  - apply in_map_iff in H as ([k rows] & <- & Hg). cbn.
    apply Hin in Hg as [_ Hne]. apply (trend_win_rate_bounds rows Hne).
  - apply in_map_iff in H as ([k rows] & <- & Hg). cbn.
    apply Hin in Hg as [_ Hne]. apply (trend_win_rate_bounds rows Hne).
  - rewrite <- Hrows. clear. induction G as [|g G IH]; [reflexivity|].
    cbn. rewrite IH. reflexivity.
Qed.

End TrendTable.

(** ** The trend report *)

Section TrendReportProps.

Import Processor Insights.

Lemma idxmax_from_spec (c : TrendRow -> Q) (rows : list TrendRow) :
  forall best,
  exists row pre post,
    best :: rows = pre ++ row :: post /\
    idxmax_from c best rows = tr_period row /\
    (c best <= c row)%Q /\
    Forall (fun r => (c r < c row)%Q) pre /\
    Forall (fun r => (c r <= c row)%Q) post.
Proof.
  induction rows as [|r rows IH]; intros best; cbn [idxmax_from].
  - exists best, [], []. repeat split; try constructor. apply Qle_refl.
  - destruct (Qltb (c best) (c r)) eqn:E.
    + apply Qltb_lt in E.
      destruct (IH r) as (row & pre & post & Hsplit & Hres & Hbest & Hpre & Hpost).
      exists row, (best :: pre), post. rewrite Hsplit.
      split; [reflexivity|]. split; [exact Hres|]. split; [lra|].
      split; [|exact Hpost]. constructor; [lra | exact Hpre].
    + apply Qltb_ge in E.
      destruct (IH best) as (row & pre & post & Hsplit & Hres & Hbest & Hpre & Hpost).
      destruct pre as [|p pre].
      * injection Hsplit as <- <-.
        exists best, [], (r :: rows).
        split; [reflexivity|]. split; [exact Hres|]. split; [apply Qle_refl|].
        split; [constructor|]. constructor; [exact E | exact Hpost].
      * injection Hsplit as <- ->. inversion Hpre as [|? ? Hp Hpre']; subst.
        exists row, (best :: r :: pre), post.
        split; [reflexivity|]. split; [exact Hres|]. split; [exact Hbest|].
        split; [|exact Hpost].
        constructor; [exact Hp|]. constructor; [lra | exact Hpre'].
Qed.

Lemma idxmax_spec (c : TrendRow -> Q) (rows : list TrendRow) :
  rows <> [] ->
  exists row pre post,
    rows = pre ++ row :: post /\
    idxmax c rows = Some (tr_period row) /\
    Forall (fun r => (c r < c row)%Q) pre /\
    Forall (fun r => (c r <= c row)%Q) post.
Proof.
  destruct rows as [|best rows]; [congruence|]. intros _.
  destruct (idxmax_from_spec c rows best)
    as (row & pre & post & Hsplit & Hres & _ & Hpre & Hpost).
  exists row, pre, post. cbn [idxmax]. rewrite Hres. auto.
Qed.

Lemma trends_nonempty (df : DataFrame) :
  df <> [] -> get_performance_trends df <> [].
Proof.
  intros Hne. destruct df as [|r df]; [congruence|].
  destruct (trend_rows_of_months (r :: df)) as (_ & Hall & _).
  specialize (Hall r (or_introl eq_refl)).
  destruct (get_performance_trends (r :: df)); [destruct Hall | discriminate].
Qed.

(** X13. On a non-empty history the report names as most active month the
    earliest month with the largest number of games, and as best performing
    month the earliest month with the highest win rate: no month has more
    games (a higher win rate), and every earlier month has strictly fewer
    (a strictly lower one). *)
Theorem trend_report_months (df : DataFrame) :
  df <> [] ->
  let report := _get_performance_trends df in
  (exists row pre post,
     monthly_trends report = pre ++ row :: post /\
     most_active_month report = Some (tr_period row) /\
     Forall (fun r => tr_games r < tr_games row) pre /\
     Forall (fun r => tr_games r <= tr_games row) post) /\
  (exists row pre post,
     monthly_trends report = pre ++ row :: post /\
     best_performing_month report = Some (tr_period row) /\
     Forall (fun r => (tr_win_rate r < tr_win_rate row)%Q) pre /\
     Forall (fun r => (tr_win_rate r <= tr_win_rate row)%Q) post).
Proof.
  intros Hne. cbn zeta. unfold _get_performance_trends.
  pose proof (trends_nonempty df Hne) as Hm.
  revert Hm. generalize (get_performance_trends df). intros monthly Hm.
  destruct (match rev monthly with
            | recent :: previous :: _ =>
                (bucket_trend (tr_win_rate recent) (tr_win_rate previous),
                 bucket_trend (tr_avg_kda recent) (tr_avg_kda previous))
            | _ => ("stable", "stable")
            end) as [wr kd].
  cbn [monthly_trends most_active_month best_performing_month].
  split.
  - destruct (idxmax_spec (fun r => inject_Z (tr_games r)) monthly Hm)
      as (row & pre & post & -> & Hres & Hpre & Hpost).
    exists row, pre, post. repeat split; [exact Hres | |].
    + eapply Forall_impl; [exact Hpre|]. cbn. intros r Hr.
      now rewrite Zlt_Qlt.
    + eapply Forall_impl; [exact Hpost|]. cbn. intros r Hr.
      now rewrite Zle_Qle.
  - destruct (idxmax_spec tr_win_rate monthly Hm)
      as (row & pre & post & -> & Hres & Hpre & Hpost).
    exists row, pre, post. auto.
Qed.


Lemma trend_report_months_witness :
  Sample.tied_months <> [] /\
  exists row,
    In row (monthly_trends (_get_performance_trends Sample.tied_months)) /\
    most_active_month (_get_performance_trends Sample.tied_months)
    = Some (tr_period row).
Proof.
  assert (Hne : Sample.tied_months <> []) by discriminate.
  split; [exact Hne|].
  destruct (trend_report_months Sample.tied_months Hne)
    as [(row & pre & post & Hsplit & Hres & _) _].
  exists row. split; [|exact Hres].
  rewrite Hsplit. apply in_or_app. right. now left.
Defined.

End TrendReportProps.

(** ** Recent performance *)

Section RecentPerformanceProps.

Import Processor Insights.

Lemma head_nonempty_inv (df : DataFrame) games :
  head games df <> [] -> df <> [].
Proof.
  intros H ->. apply H. unfold head.
  destruct (0 <=? games); now rewrite take_nil.
Qed.

Lemma head_len (df : DataFrame) games :
  0 <= games -> Processor.len (head games df) = Z.min games (Processor.len df).
Proof.
  intros Hg. unfold head. rewrite (proj2 (Z.leb_le 0 games) Hg).
  unfold Processor.len. rewrite length_take. lia.
Qed.

Lemma head_all (df : DataFrame) games :
  Processor.len df <= games -> head games df = df.
Proof.
  intros Hg. unfold head, Processor.len in *.
  rewrite (proj2 (Z.leb_le 0 games)) by lia.
  apply take_ge. lia.
Qed.

(** X15. The recent-performance analysis never raises: it answers nothing
    exactly when the window of recent games is empty, and otherwise reports
    how many games it analysed, which for a non-negative window size is the
    smaller of that size and the length of the history. *)
Theorem analyze_recent_performance_total (df : DataFrame) (games : Z) :
  exists result,
    _analyze_recent_performance df games = Ok result /\
    (result = None <-> head games df = []) /\
    forall rp, result = Some rp ->
      games_analyzed rp = Processor.len (head games df) /\
      1 <= games_analyzed rp <= Processor.len df /\
      (0 <= games -> games_analyzed rp = Z.min games (Processor.len df)).
Proof.
  unfold _analyze_recent_performance.
  destruct (head games df) as [|r recent] eqn:Eh.
  - exists None. cbn [empty]. repeat split; congruence.
  - cbn [empty].
    assert (Hrec : r :: recent <> []) by discriminate.
    assert (Hdf : df <> []).
    { apply (head_nonempty_inv df games). rewrite Eh. exact Hrec. }
    destruct (calculate_overall_stats_nonempty _ Hrec) as (rs & -> & _).
    destruct (calculate_overall_stats_nonempty _ Hdf) as (os & -> & _).
    cbn [res_bind getitem]. eexists. split; [reflexivity|].
    split; [split; [discriminate | discriminate]|].
    intros rp H. injection H as <-. cbn [games_analyzed].
    assert (Hle : Processor.len (r :: recent) <= Processor.len df).
    { rewrite <- Eh. unfold head, Processor.len.
      destruct (0 <=? games); rewrite length_take; lia. }
    pose proof (len_pos _ Hrec).
    repeat split; try lia.
    intros Hg. rewrite <- Eh. now apply head_len.
Qed.

(** X16. When the whole history fits in the window, the recent statistics
    are the overall statistics: both changes are zero and the trend is
    stable. *)
Theorem analyze_recent_performance_whole_history (df : DataFrame) (games : Z) :
  df <> [] ->
  Processor.len df <= games ->
  exists rp,
    _analyze_recent_performance df games = Ok (Some rp) /\
    calculate_overall_stats df = Ok (rp_recent_stats rp) /\
    games_analyzed rp = Processor.len df /\
    (rp_win_rate_change rp == 0)%Q /\
    (rp_kda_change rp == 0)%Q /\
    trend rp = "stable".
Proof.
  intros Hne Hg. unfold _analyze_recent_performance.
  rewrite (head_all df games Hg), (empty_false df Hne).
  destruct (calculate_overall_stats_nonempty _ Hne) as (s & -> & _).
  cbn [res_bind getitem]. eexists. split; [reflexivity|].
  cbn [rp_recent_stats games_analyzed rp_win_rate_change rp_kda_change trend].
  assert (Hz : forall x : Q, (round (x - x) 2 == 0)%Q).
  { intros x. rewrite round_of_decimal; [ring|].
    exists 0. ring_simplify. reflexivity. }
  repeat split; try apply Hz.
  unfold diff_trend.
  assert (E1 : Qltb 0 (win_rate s - win_rate s) = false)
    by (apply Qltb_ge; ring_simplify; apply Qle_refl).
  assert (E2 : Qltb (win_rate s - win_rate s) 0 = false)
    by (apply Qltb_ge; ring_simplify; apply Qle_refl).
  now rewrite E1, E2.
Qed.

Lemma analyze_recent_performance_whole_history_witness :
  Sample.seven_games <> [] /\
  Processor.len Sample.seven_games <= 20 /\
  exists rp,
    _analyze_recent_performance Sample.seven_games 20 = Ok (Some rp) /\
    trend rp = "stable".
Proof.
  assert (Hne : Sample.seven_games <> []) by discriminate.
  assert (Hg : Processor.len Sample.seven_games <= 20) by (vm_compute; discriminate).
  split; [exact Hne|]. split; [exact Hg|].
  destruct (analyze_recent_performance_whole_history Sample.seven_games 20 Hne Hg)
    as (rp & Hrun & _ & _ & _ & _ & Ht).
  exists rp. split; assumption.
Defined.

End RecentPerformanceProps.

(** ** Streaks and counts *)

Section StreakBounds.

Import Processor Insights Spec.

Variable column : MatchRecord -> bool.

#[local] Abbreviation hits df :=
  (length (filter (fun r => column r = true) df)).

Lemma leading_trues_hits (df : list MatchRecord) :
  (leading_trues (map column df) <= hits df)%nat.
Proof.
  induction df as [|r df IH]; [reflexivity|]. cbn [map leading_trues].
  destruct (column r) eqn:E.
  - rewrite filter_cons_True by exact E. cbn. lia.
  - lia.
Qed.

Lemma longest_run_hits (df : list MatchRecord) :
  (longest_run (map column df) <= hits df)%nat.
Proof.
  induction df as [|r df IH]; [reflexivity|].
  change (longest_run (map column (r :: df)))
    with (Nat.max (leading_trues (map column (r :: df)))
                  (longest_run (map column df))).
  pose proof (leading_trues_hits (r :: df)).
  assert (hits df <= hits (r :: df))%nat.
  { destruct (column r) eqn:E.
    - rewrite filter_cons_True by exact E. cbn. lia.
    - rewrite filter_cons_False by congruence. lia. }
  lia.
Qed.

Lemma longest_run_zero (df : list MatchRecord) :
  longest_run (map column df) = O -> hits df = O.
Proof.
  induction df as [|r df IH]; [reflexivity|].
  change (longest_run (map column (r :: df)))
    with (Nat.max (leading_trues (map column (r :: df)))
                  (longest_run (map column df))).
  cbn [map leading_trues]. destruct (column r) eqn:E.
  - lia.
  - intros H. rewrite filter_cons_False by congruence. apply IH. lia.
Qed.

Lemma hits_all (df : list MatchRecord) :
  hits df = length df -> leading_trues (map column df) = length df.
Proof.
  induction df as [|r df IH]; [reflexivity|]. cbn [map leading_trues].
  pose proof (length_filter (fun r => column r = true) df) as Hle.
  destruct (column r) eqn:E.
  - rewrite filter_cons_True by exact E. cbn [length]. intros H.
    rewrite IH; lia.
  - rewrite filter_cons_False by congruence. cbn [length]. lia.
Qed.

(** X17. The longest streak of a flag is never negative and never exceeds
    the number of games carrying the flag; it is zero exactly when no game
    carries the flag, and it spans the whole history exactly when every
    game does. *)
Theorem calculate_max_streak_bounds (df : DataFrame) :
  let streak := _calculate_max_streak df column in
  let flagged := Processor.len (filter (fun r => column r = true) df) in
  0 <= streak <= flagged /\
  flagged <= Processor.len df /\
  (streak = 0 <-> flagged = 0) /\
  (streak = Processor.len df <-> flagged = Processor.len df).
Proof.
  cbn zeta. rewrite calculate_max_streak_longest_run.
  unfold Processor.len, DataFrame in *.
  pose proof (longest_run_hits df) as Hle.
  pose proof (length_filter (fun r => column r = true) df) as Hlen.
  repeat split; try lia.
  - intros H. rewrite (longest_run_zero df); lia.
  - intros H. apply Nat2Z.inj in H. apply Nat2Z.inj_iff.
    pose proof (hits_all df H) as Hl.
    destruct df as [|r df]; [reflexivity|].
    change (longest_run (map column (r :: df)))
      with (Nat.max (leading_trues (map column (r :: df)))
                    (longest_run (map column df))).
    assert (longest_run (map column df) <= length df)%nat.
    { etransitivity; [apply longest_run_hits|]. apply length_filter. }
    rewrite Hl. cbn [length]. lia.
Qed.

End StreakBounds.

(** ** The remaining weakness rules *)

Section WeaknessShape.

Import Processor.

Lemma series_sum_acc_ge (lo : Q) (l : list Q) : forall a : Q,
  Forall (fun q => (lo <= q)%Q) l ->
  (a + inject_Z (Processor.len l) * lo <= foldl Qplus a l)%Q.
Proof.
  induction l as [|q l IH]; intros a Hall.
  - change (inject_Z (Processor.len (@nil Q))) with 0%Q. cbn [foldl]. lra.
  - inversion Hall as [|? ? Hq Hl]; subst. cbn [foldl].
    specialize (IH (a + q)%Q Hl).
    assert (E : (inject_Z (Processor.len (q :: l))
                 == inject_Z (Processor.len l) + 1)%Q).
    { unfold Processor.len. cbn [length]. rewrite Nat2Z.inj_succ.
      unfold Z.succ. rewrite inject_Z_plus. reflexivity. }
    rewrite E. revert IH. generalize (inject_Z (Processor.len l)).
    generalize (foldl Qplus (a + q)%Q l). intros f n IH. lra.
Qed.

Lemma series_mean_nonneg (l : list Q) :
  l <> [] -> Forall (fun q => (0 <= q)%Q) l -> (0 <= series_mean l)%Q.
Proof.
  intros Hne Hall. unfold series_mean, series_sum.
  pose proof (series_sum_acc_ge 0 l 0 Hall) as Hlo.
  assert (Hn : (0 < inject_Z (Processor.len l))%Q).
  { rewrite <- (Zlt_Qlt 0). now apply len_pos. }
  revert Hlo Hn. generalize (inject_Z (Processor.len l)), (foldl Qplus 0%Q l).
  intros n f Hlo Hn. apply Qle_shift_div_l; [exact Hn | lra].
Qed.

Lemma filter_all (df : list MatchRecord) (P : MatchRecord -> Prop)
    `{forall r, Decision (P r)} :
  (forall r, In r df -> P r) -> filter P df = df.
Proof.
  induction df as [|r df IH]; intros Hall; [reflexivity|].
  rewrite filter_cons_True by (apply Hall; now left).
  f_equal. apply IH. intros r' Hr'. apply Hall. now right.
Qed.

Lemma filter_none (df : list MatchRecord) (P : MatchRecord -> Prop)
    `{forall r, Decision (P r)} :
  (forall r, In r df -> ~ P r) -> filter P df = [].
Proof.
  induction df as [|r df IH]; intros Hall; [reflexivity|].
  rewrite filter_cons_False by (apply Hall; now left).
  apply IH. intros r' Hr'. apply Hall. now right.
Qed.

Ltac weakness_cases :=
  repeat match goal with
         | |- context [if ?b then _ else _] => destruct b
         end.

Lemma low_cs_entry (df : DataFrame) :
  df <> [] ->
  severity_of (identify_weaknesses df) "low_cs"
  = if Qltb (series_mean (fcol cs_per_minute df)) 5 then Some "medium" else None.
Proof.
  intros Hne. unfold severity_of, identify_weaknesses.
  rewrite (empty_false _ Hne). cbn zeta.
  set (s1 := if Qltb 6 _ then _ else _).
  set (s2 := if Qltb _ 30 then _ else _).
  set (s3 := if Qltb _ 5 then _ else _).
  assert (H4 : forall (b1 b2 : bool) v,
             dict_get (if b1 then if b2 then dict_set s3 "low_damage_in_losses" v
                                  else s3 else s3) "low_cs"
             = dict_get s3 "low_cs").
  { intros [] [] v; rewrite ?dict_get_set; reflexivity. }
  rewrite H4. unfold s3.
  destruct (Qltb (series_mean (fcol cs_per_minute df)) 5) eqn:E.
  - rewrite dict_get_set. reflexivity.
  - unfold s2, s1. weakness_cases; reflexivity.
Qed.

(** X18. The weaknesses are reported under at most the four keys
    high_deaths, low_vision, low_cs and low_damage_in_losses, in that order
    and each at most once.  The damage weakness is never reported for a
    player who won every game, nor for one who lost every game while dealing
    non-negative damage. *)
Theorem identify_weaknesses_shape (df : DataFrame) :
  let w := identify_weaknesses df in
  sublist (map fst w)
          ["high_deaths"; "low_vision"; "low_cs"; "low_damage_in_losses"] /\
  ((forall r, In r df -> win r = true) ->
   dict_get w "low_damage_in_losses" = None) /\
  ((forall r, In r df -> win r = false) ->
   (forall r, In r df -> 0 <= total_damage_dealt_to_champions r) ->
   dict_get w "low_damage_in_losses" = None).
Proof.
  cbn zeta. split; [|split].
  - unfold identify_weaknesses. cbn zeta. weakness_cases;
      cbn [dict_set String.eqb Ascii.eqb Bool.eqb map fst];
      repeat first [ apply sublist_nil | apply sublist_skip | apply sublist_cons ].
  - intros Hwon. unfold identify_weaknesses.
    rewrite (filter_none df (fun r => win r = false))
      by (intros r Hr; rewrite (Hwon r Hr); discriminate).
    cbn [empty negb]. weakness_cases; reflexivity.
  - intros Hlost Hdmg. unfold identify_weaknesses.
    destruct df as [|r0 df0]; [reflexivity|]. set (df := r0 :: df0) in *.
    change (empty df) with false. cbv iota. cbn zeta.
    rewrite (filter_all df (fun r => win r = false) Hlost).
    change (negb (empty df)) with true. cbv iota.
    assert (Havg : (0 <= series_mean (icol total_damage_dealt_to_champions df))%Q).
    { apply series_mean_nonneg; [discriminate|].
      apply List.Forall_forall. intros q Hq.
      apply in_map_iff in Hq as (r & <- & Hr).
      rewrite <- (Zle_Qle 0). now apply Hdmg. }
    assert (E : Qltb (series_mean (icol total_damage_dealt_to_champions df))
                     (series_mean (icol total_damage_dealt_to_champions df)
                      * (7 # 10)) = false).
    { apply Qltb_ge. revert Havg.
      generalize (series_mean (icol total_damage_dealt_to_champions df)).
      intros q Hq. lra. }
    rewrite E. weakness_cases; reflexivity.
Qed.

End WeaknessShape.

(** ** Achievements *)

Section AchievementRules.

Import Processor Insights Highlights.

Lemma In_append_if {A} (c : bool) (a : A) (l : list A) x :
  In x (append_if c a l) <-> In x l \/ (c = true /\ x = a).
Proof.
  unfold append_if. destruct c.
  - rewrite in_app_iff. cbn. intuition congruence.
  - intuition congruence.
Qed.

Lemma append_if_sublist {A} (c : bool) (a : A) (l k : list A) :
  sublist l k -> sublist (append_if c a l) (k ++ [a]).
Proof.
  intros H. unfold append_if. destruct c.
  - apply sublist_app; [exact H | reflexivity].
  - rewrite <- (app_nil_r l). apply sublist_app; [exact H|].
    apply sublist_nil_l.
Qed.

Lemma map_append_if {A B} (f : A -> B) (c : bool) (a : A) (l : list A) :
  map f (append_if c a l) = append_if c (f a) (map f l).
Proof. unfold append_if. destruct c; [apply List.map_app | reflexivity]. Qed.

Lemma foldl_add_shift (l : list Z) (a : Z) :
  foldl Z.add a l = a + foldl Z.add 0 l.
Proof.
  revert a. induction l as [|x l IH]; intros a; cbn [foldl]; [lia|].
  rewrite (IH (a + x)), (IH (0 + x)). lia.
Qed.

Lemma isum_cons (c : MatchRecord -> Z) r (df : list MatchRecord) :
  isum c (r :: df) = c r + isum c df.
Proof. unfold isum. cbn [map foldl]. rewrite foldl_add_shift. lia. Qed.

Lemma isum_nonneg (c : MatchRecord -> Z) (df : list MatchRecord) :
  (forall r, In r df -> 0 <= c r) -> 0 <= isum c df.
Proof.
  induction df as [|r df IH]; intros Hall; [reflexivity|].
  rewrite isum_cons.
  assert (0 <= c r) by (apply Hall; now left).
  assert (0 <= isum c df) by (apply IH; intros; apply Hall; now right).
  lia.
Qed.

(** A sum of non-negative counters is positive exactly when one of them is. *)
Lemma isum_pos (c : MatchRecord -> Z) (df : list MatchRecord) :
  (forall r, In r df -> 0 <= c r) ->
  (0 < isum c df <-> exists r, In r df /\ 0 < c r).
Proof.
  induction df as [|r df IH]; intros Hall.
  - cbn. split; [lia | intros (r & [] & _)].
  - rewrite isum_cons.
    assert (H0 : 0 <= c r) by (apply Hall; now left).
    assert (Hrest : forall r', In r' df -> 0 <= c r')
      by (intros; apply Hall; now right).
    pose proof (isum_nonneg c df Hrest) as Hs.
    specialize (IH Hrest). split.
    + intros Hpos. destruct (Z.ltb_spec 0 (c r)) as [Hr|Hr].
      * exists r. split; [now left | exact Hr].
      * destruct (proj1 IH) as (r' & Hin & Hr'); [lia|].
        exists r'. split; [now right | exact Hr'].
    + intros (r' & [<-|Hin] & Hr'); [lia|].
      assert (0 < isum c df) by (apply IH; eauto). lia.
Qed.

Lemma foldl_max_ge (k x : Z) (l : list Z) :
  k <= foldl Z.max x l <-> k <= x \/ exists y, In y l /\ k <= y.
Proof.
  revert x. induction l as [|y l IH]; intros x; cbn [foldl].
  - split; [auto | intros [H|(y & [] & _)]; exact H].
  - rewrite IH. split.
    + intros [H|(z & Hin & Hz)].
      * destruct (Z.max_spec x y) as [[_ E]|[_ E]]; rewrite E in H.
        -- right. exists y. split; [now left | exact H].
        -- now left.
      * right. exists z. split; [now right | exact Hz].
    + intros [H|(z & [<-|Hin] & Hz)].
      * left. lia.
      * left. lia.
      * right. exists z. split; assumption.
Qed.

(** The maximum of a column reaches a positive bound exactly when a row
    does. *)
Lemma imax_ge (c : MatchRecord -> Z) (df : list MatchRecord) (k : Z) :
  0 < k ->
  (k <= imax c df <-> exists r, In r df /\ k <= c r).
Proof.
  intros Hk. unfold imax. destruct df as [|r df]; cbn [map].
  - split; [lia | intros (r & [] & _)].
  - rewrite foldl_max_ge. split.
    + intros [H|(y & Hin & Hy)].
      * exists r. split; [now left | exact H].
      * apply in_map_iff in Hin as (r' & <- & Hin).
        exists r'. split; [now right | exact Hy].
    + intros (r' & [<-|Hin] & Hr'); [now left|].
      right. exists (c r'). split; [now apply in_map | exact Hr'].
Qed.

Lemma wrap_int64_small z :
  - 2 ^ 63 <= z < 2 ^ 63 -> wrap_int64 z = z.
Proof.
  intros H. unfold wrap_int64.
  rewrite Z.mod_small; [lia|].
  change (2 ^ 64) with (2 * 2 ^ 63). lia.
Qed.

Lemma streak_reaches (df : DataFrame) (n : nat) :
  Z.of_nat n <= _calculate_max_streak df win
  <-> Spec.is_run (map win df) n.
Proof.
  rewrite calculate_max_streak_longest_run, is_run_longest_run. lia.
Qed.

Lemma icons_distinct :
  icon_pentakill <> icon_streak /\ icon_quadra <> icon_streak /\
  icon_games <> icon_streak /\ icon_damage <> icon_streak /\
  icon_pentakill <> icon_games /\ icon_quadra <> icon_games /\
  icon_damage <> icon_games /\ icon_pentakill <> icon_damage /\
  icon_quadra <> icon_damage /\ icon_quadra <> icon_pentakill.
Proof. repeat split; intros H; vm_compute in H; discriminate H. Qed.

Lemma has_append_if (i : string) (c : bool) (a : Achievement) l :
  (exists x, In x (append_if c a l) /\ icon x = i)
  <-> (exists x, In x l /\ icon x = i) \/ (c = true /\ icon a = i).
Proof.
  split.
  - intros (x & Hin & Hi). apply In_append_if in Hin as [Hin|[Hc ->]].
    + left. eauto.
    + right. auto.
  - intros [(x & Hin & Hi)|[Hc Hi]].
    + exists x. split; [apply In_append_if; now left | exact Hi].
    + exists a. split; [apply In_append_if; now right | exact Hi].
Qed.

Lemma has_nil (i : string) :
  (exists x : Achievement, In x [] /\ icon x = i) <-> False.
Proof. split; [intros (x & [] & _) | tauto]. Qed.

(** X19. The win-streak achievement is awarded exactly when the history
    contains five consecutive wins; it is then epic exactly when it contains
    ten, rare otherwise, and its title carries the length of the longest
    streak. *)
Theorem identify_achievements_streak (df : DataFrame) :
  let achievements := _identify_achievements df in
  ((exists ach, In ach achievements /\ icon ach = icon_streak)
   <-> Spec.is_run (map win df) 5) /\
  forall ach, In ach achievements -> icon ach = icon_streak ->
    title ach = pretty (_calculate_max_streak df win) +:+ "-Game Win Streak" /\
    (rarity ach = "epic" <-> Spec.is_run (map win df) 10) /\
    (rarity ach = "rare" <-> ~ Spec.is_run (map win df) 10).
Proof.
  cbn zeta. unfold _identify_achievements. cbn zeta.
  destruct icons_distinct as (D1 & D2 & D3 & D4 & _).
  pose proof (streak_reaches df 5) as H5.
  pose proof (streak_reaches df 10) as H10.
  change (Z.of_nat 5) with 5 in H5. change (Z.of_nat 10) with 10 in H10.
  split.
  - rewrite !has_append_if, has_nil. cbn [icon]. rewrite <- H5, <- (Z.leb_le 5 (_calculate_max_streak df win)).
    tauto.
  - intros ach Hin Hicon.
    rewrite !In_append_if in Hin. cbn [In] in Hin.
    destruct Hin as [[[[[[]|[_ ->]]|[_ ->]]|[_ ->]]|[_ ->]]|[_ ->]];
      cbn [icon] in Hicon; try contradiction.
    cbn [title rarity]. split; [reflexivity|].
    rewrite <- H10.
    destruct (Z.ltb_spec (_calculate_max_streak df win) 10);
      split; split; (congruence || lia).
Qed.

(** X20. The achievements come in a fixed order and each at most once.  The
    games milestone is awarded exactly from 100 games on, the damage
    achievement exactly when some game reached 50000 damage to champions,
    and, pentakill counts being non-negative with a total below 2^63 (so
    that the 64-bit sum does not wrap), the pentakill achievement exactly
    when some game had a pentakill. *)
Theorem identify_achievements_rules (df : DataFrame) :
  let achievements := _identify_achievements df in
  sublist (map icon achievements)
          [icon_pentakill; icon_quadra; icon_streak; icon_games; icon_damage] /\
  ((exists ach, In ach achievements /\ icon ach = icon_games)
   <-> 100 <= Processor.len df) /\
  ((exists ach, In ach achievements /\ icon ach = icon_damage)
   <-> exists r, In r df /\ 50000 <= total_damage_dealt_to_champions r) /\
  ((forall r, In r df -> 0 <= penta_kills r) ->
   isum penta_kills df < 2 ^ 63 ->
   ((exists ach, In ach achievements /\ icon ach = icon_pentakill)
    <-> exists r, In r df /\ 0 < penta_kills r)).
Proof.
  cbn zeta. unfold _identify_achievements. cbn zeta.
  destruct icons_distinct as (D1 & D2 & D3 & D4 & D5 & D6 & D7 & D8 & D9 & D10).
  split; [|split; [|split]].
  - rewrite !map_append_if. cbn [icon map].
    repeat match goal with
           | |- sublist (append_if _ ?a _) ?k =>
               apply (append_if_sublist _ a _ (removelast k))
           end.
    apply sublist_nil_l.
  - rewrite !has_append_if, has_nil. cbn [icon].
    rewrite <- (Z.leb_le 100 (Processor.len df)).
    assert (icon_streak <> icon_games) by congruence. tauto.
  - rewrite !has_append_if, has_nil. cbn [icon].
    rewrite <- (imax_ge total_damage_dealt_to_champions df 50000) by lia.
    rewrite <- (Z.leb_le 50000 (imax total_damage_dealt_to_champions df)).
    assert (icon_streak <> icon_damage) by congruence.
    assert (icon_games <> icon_damage) by congruence. tauto.
  - intros Hnonneg Hfits. rewrite !has_append_if, has_nil. cbn [icon].
    rewrite <- (isum_pos penta_kills df Hnonneg).
    unfold int64_sum.
    rewrite (wrap_int64_small (isum penta_kills df))
      by (split; [pose proof (isum_nonneg penta_kills df Hnonneg); lia | exact Hfits]).
    rewrite <- (Z.ltb_lt 0 (isum penta_kills df)).
    assert (icon_streak <> icon_pentakill) by congruence.
    assert (icon_games <> icon_pentakill) by congruence.
    assert (icon_damage <> icon_pentakill) by congruence. tauto.
Qed.

End AchievementRules.

(** ** Strengths *)

Section StrengthRules.

Import Processor Insights Highlights.

Variable float_str : Q -> string.

Ltac strength_cases :=
  repeat match goal with
         | |- context [if ?b then _ else _] => destruct b
         end.

Lemma append_if_length {A} (c : bool) (a : A) (l : list A) :
  (length (append_if c a l) <= Datatypes.S (length l))%nat.
Proof. unfold append_if. destruct c; [rewrite length_app; cbn; lia | lia]. Qed.

(** X21. Asked for the strengths or the top achievements of an empty
    history, the engine fails with a key error on win_rate; on any other
    history both succeed, the strengths come under at most the five keys
    win_rate, kda, vision, cs and pentakills, in that order, and there are
    at most four top achievements. *)
Theorem identify_strengths_key_error (df : DataFrame) :
  (df = [] ->
   _identify_strengths float_str df = Raise (KeyError "win_rate") /\
   _get_top_achievements float_str df = Raise (KeyError "win_rate")) /\
  (df <> [] ->
   exists strengths achievements,
     _identify_strengths float_str df = Ok strengths /\
     _get_top_achievements float_str df = Ok achievements /\
     sublist (map fst strengths) ["win_rate"; "kda"; "vision"; "cs"; "pentakills"] /\
     (length achievements <= 4)%nat).
Proof.
  split.
  - intros ->. split; reflexivity.
  - intros Hne. unfold _identify_strengths, _get_top_achievements.
    destruct (calculate_overall_stats_nonempty df Hne) as (s & -> & _).
    cbn [res_bind getitem]. eexists. eexists.
    split; [reflexivity|]. split; [reflexivity|]. split.
    + strength_cases;
        cbn [dict_set String.eqb Ascii.eqb Bool.eqb map fst];
        repeat first [ apply sublist_nil | apply sublist_skip | apply sublist_cons ].
    + repeat (etransitivity; [apply append_if_length|]; apply le_n_S).
      cbn. lia.
Qed.

Lemma strength_vision_entry (df : DataFrame) strengths :
  df <> [] ->
  _identify_strengths float_str df = Ok strengths ->
  is_Some (dict_get strengths "vision") ->
  (35 <= round (series_mean (icol vision_score df)) 1)%Q.
Proof.
  intros Hne. unfold _identify_strengths, calculate_overall_stats.
  rewrite (empty_false df Hne). cbn zeta.
  rewrite (win_rate_expr_pos _ _ (len_pos df Hne)).
  cbn [res_bind getitem avg_vision_score avg_kda win_rate avg_cs_per_minute
       total_penta_kills].
  intros H. injection H as <-.
  destruct (Qle_bool 35 (round (series_mean (icol vision_score df)) 1)) eqn:E.
  - intros _. now apply Qle_bool_iff.
  - strength_cases; cbn; intros [x Hx]; discriminate Hx.
Qed.

Lemma strength_cs_entry (df : DataFrame) strengths :
  df <> [] ->
  _identify_strengths float_str df = Ok strengths ->
  is_Some (dict_get strengths "cs") ->
  (6 <= round (series_mean (fcol cs_per_minute df)) 2)%Q.
Proof.
  intros Hne. unfold _identify_strengths, calculate_overall_stats.
  rewrite (empty_false df Hne). cbn zeta.
  rewrite (win_rate_expr_pos _ _ (len_pos df Hne)).
  cbn [res_bind getitem avg_vision_score avg_kda win_rate avg_cs_per_minute
       total_penta_kills].
  intros H. injection H as <-.
  destruct (Qle_bool 6 (round (series_mean (fcol cs_per_minute df)) 2)) eqn:E.
  - intros _. now apply Qle_bool_iff.
  - strength_cases; cbn; intros [x Hx]; discriminate Hx.
Qed.

(** X22. No history has vision, or farming, both as a strength and as a
    weakness: when the strengths list vision the weaknesses do not list
    low_vision, and when they list cs the weaknesses do not list low_cs. *)
Theorem strengths_exclude_weaknesses (df : DataFrame) strengths :
  df <> [] ->
  _identify_strengths float_str df = Ok strengths ->
  (is_Some (dict_get strengths "vision") ->
   dict_get (identify_weaknesses df) "low_vision" = None) /\
  (is_Some (dict_get strengths "cs") ->
   dict_get (identify_weaknesses df) "low_cs" = None).
Proof.
  intros Hne Hrun.
  assert (Hnone : forall key,
             severity_of (identify_weaknesses df) key = None ->
             dict_get (identify_weaknesses df) key = None).
  { intros key. unfold severity_of.
    destruct (dict_get _ key); cbn; congruence. }
  split; intros Hs; apply Hnone.
  - pose proof (strength_vision_entry df strengths Hne Hrun Hs) as Hv.
    rewrite (low_vision_entry df Hne). cbn zeta.
    destruct (Qltb (series_mean (icol vision_score df)) 30) eqn:E;
      [|reflexivity].
    exfalso. apply Qltb_lt in E.
    assert (Hr : (round (series_mean (icol vision_score df)) 1 <= 300 # 10)%Q).
    { apply (round_le 300 _ 1). change (300 # pow10 1) with (300 # 10).
      assert ((300 # 10) == 30)%Q by reflexivity. lra. }
    assert ((300 # 10) == 30)%Q by reflexivity. lra.
  - pose proof (strength_cs_entry df strengths Hne Hrun Hs) as Hc.
    rewrite (low_cs_entry df Hne).
    destruct (Qltb (series_mean (fcol cs_per_minute df)) 5) eqn:E;
      [|reflexivity].
    exfalso. apply Qltb_lt in E.
    assert (Hr : (round (series_mean (fcol cs_per_minute df)) 2 <= 500 # 100)%Q).
    { apply (round_le 500 _ 2). change (500 # pow10 2) with (500 # 100).
      assert ((500 # 100) == 5)%Q by reflexivity. lra. }
    assert ((500 # 100) == 5)%Q by reflexivity. lra.
Qed.

End StrengthRules.

Section StrengthWitnesses.

Import Processor Insights Highlights.

Lemma strengths_exclude_weaknesses_witness :
  [Sample.game "NA1_1" 659 true 5 2 3 40] <> [] /\
  dict_get (identify_weaknesses [Sample.game "NA1_1" 659 true 5 2 3 40])
           "low_vision" = None.
Proof.
  assert (Hne : [Sample.game "NA1_1" 659 true 5 2 3 40] <> []) by discriminate.
  split; [exact Hne|].
  pose (strengths :=
          match _identify_strengths (fun _ => "")
                  [Sample.game "NA1_1" 659 true 5 2 3 40] with
          | Ok s => s
          | Raise _ => []
          end).
  assert (Hrun : _identify_strengths (fun _ => "")
                   [Sample.game "NA1_1" 659 true 5 2 3 40] = Ok strengths)
    by (vm_compute; reflexivity).
  apply (proj1 (strengths_exclude_weaknesses (fun _ => "") _ strengths Hne Hrun)).
  vm_compute. eexists. reflexivity.
Defined.

End StrengthWitnesses.
